(** * The alignment core of align-images-for-lenticular

  A shallow embedding of the numeric core of the application:

  - [utils/imageTransform.ts]: [calculateCenterImageTransform],
    [calculateAlignImagesTransform], [combineTransforms];
  - [utils/imageAlignment.ts] (shipped after the dialog component in
    [src/src/components/TextureAtlasDialog.tsx], lines 90-913):
    [matchFeatures], [calculateOptimalRotation], [alignImages],
    [alignAllImages], [alignImagesByAreaOnly], [alignImagesByRotationOnly];
  - the drawing order of [applyTransformToImage] ([utils/imageExport.ts]).

  Around that core, the code that feeds it and that uses its results:

  - [utils/textureAtlas.ts] ([unnamed/part_001]): [cropToSquare],
    [adjustImageList], the tiles of [generateTextureAtlas];
  - [utils/imageExport.ts] ([unnamed/part_001]): the export canvas of
    [applyTransformToImage] and [calculateTransformedSize], the entries of
    [exportImagesAsZip], with [zip.file] as JSZip 3 runs it (a folder entry
    for every folder on the path of a name);
  - [utils/affineTransform.ts] ([unnamed/part_001]):
    [calculateAffineTransform], [applyAffineTransform],
    [createAffineTransformFromParams], [calculateCorners];
  - the helpers of [utils/imageAlignment.ts]: [calculateMaxScale],
    [centerImageX], the constructor fallback of [extractORBFeatures];
  - [components/ImageCanvas] and [components/AlignmentControls]
    ([src/src/components/ImageUploader.tsx]): the selection rectangle and
    the rotation field;
  - [App.tsx]: the order of an upload and the state the handlers keep.

  The implementation document [unnamed/part_000] reprints abridged variants
  of [matchFeatures] (outlier removal whenever a match survives) and of
  [calculateOptimalRotation] (step 0.5, [Math.pow]); the definitions below
  follow the shipped TypeScript, which removes outliers only from four
  survivors on and scans in steps of 0.1. The printed variants are kept in
  the module [Documented], and the properties of the filter and of the
  search are read on them as well.

  JavaScript numbers are kept behind the interface [JSNumber], so that every
  function is written once and read in two ways:

  - [ExactReal]: the real numbers, for the algebraic identities that the
    specification states "within floating-point epsilon";
  - [Binary64]: IEEE-754 binary64 (the kernel's primitive floats), the
    arithmetic a JavaScript engine performs, with [Math.cos] and [Math.sin]
    left as arbitrary functions (ECMAScript only requires approximations).
*)

From Stdlib Require Import String.
From Stdlib Require Import List Arith Lia Bool ZArith QArith.
From Stdlib Require Import Permutation Sorted.
From Stdlib Require Import Reals Lra.
From Stdlib Require Floats Uint63.
From Stdlib Require DecimalString DecimalNat.
Import ListNotations.

Close Scope Q_scope.
Set Implicit Arguments.

(** ** JavaScript numbers *)

Class JSNumber (num : Type) : Type := {
  (** a numeric literal of the program text *)
  num_lit : Q -> num;
  (** [array.length] used as a number *)
  num_of_nat : nat -> num;
  num_add : num -> num -> num;
  num_sub : num -> num -> num;
  num_mul : num -> num -> num;
  num_div : num -> num -> num;
  num_neg : num -> num;
  (** [a < b] and [a <= b] *)
  num_lt : num -> num -> bool;
  num_le : num -> num -> bool;
  Math_min : num -> num -> num;
  Math_sqrt : num -> num;
  Math_cos : num -> num;
  Math_sin : num -> num;
  Math_PI : num
}.

(** The constant [Infinity]; the real numbers have none. *)
Class JSInfinity (num : Type) : Type := {
  Infinity : num
}.

Arguments num_lit {num _} q%_Q.

Declare Scope js_scope.
Delimit Scope js_scope with js.
Notation "x + y" := (num_add x y) : js_scope.
Notation "x - y" := (num_sub x y) : js_scope.
Notation "x * y" := (num_mul x y) : js_scope.
Notation "x / y" := (num_div x y) : js_scope.
Notation "- x" := (num_neg x) : js_scope.
Notation "x <? y" := (num_lt x y) : js_scope.
Notation "x <=? y" := (num_le x y) : js_scope.

(** *** Exact arithmetic *)

Definition Rltb (a b : R) : bool := if Rlt_dec a b then true else false.
Definition Rleb (a b : R) : bool := if Rle_dec a b then true else false.

#[export] Instance ExactReal : JSNumber R := {|
num_lit := Q2R;
num_of_nat := INR;
num_add := Rplus;
num_sub := Rminus;
num_mul := Rmult;
num_div := Rdiv;
num_neg := Ropp;
num_lt := Rltb;
num_le := Rleb;
Math_min := Rmin;
Math_sqrt := R_sqrt.sqrt;
Math_cos := cos;
Math_sin := sin;
Math_PI := PI
|}.

(** *** IEEE-754 binary64 *)

Module F64.
Import Floats.PrimFloat.

Definition float := float.

(** Integers of the program text are far below 2^53, where the conversion
    is exact. *)
Definition of_Z (z : Z) : float :=
  match z with
  | Z0 => zero
  | Zpos _ => of_uint63 (Uint63.of_Z z)
  | Zneg p => opp (of_uint63 (Uint63.of_Z (Zpos p)))
  end.

(** A decimal literal [n/d] denotes the binary64 nearest to it, which the
    correctly rounded quotient of the two exact integers is. *)
Definition of_Q (q : Q) : float := div (of_Z (Qnum q)) (of_Z (Zpos (Qden q))).

(** [Math.min]: NaN if an argument is NaN, and -0 below +0. *)
Definition min (a b : float) : float :=
  if is_nan a then a
  else if is_nan b then b
  else if ltb a b then a
  else if ltb b a then b
  else if get_sign a then a else b.

(** [Math.PI], the binary64 nearest to pi. *)
Definition PI : float := of_Q (884279719003555 # 281474976710656).
End F64.

Definition Binary64 (mcos msin : F64.float -> F64.float) : JSNumber F64.float := {|
num_lit := F64.of_Q;
num_of_nat := fun n => F64.of_Z (Z.of_nat n);
num_add := Floats.PrimFloat.add;
num_sub := Floats.PrimFloat.sub;
num_mul := Floats.PrimFloat.mul;
num_div := Floats.PrimFloat.div;
num_neg := Floats.PrimFloat.opp;
num_lt := Floats.PrimFloat.ltb;
num_le := Floats.PrimFloat.leb;
Math_min := F64.min;
Math_sqrt := Floats.PrimFloat.sqrt;
Math_cos := mcos;
Math_sin := msin;
Math_PI := F64.PI
|}.

#[export] Instance Binary64Infinity : JSInfinity F64.float := {|
Infinity := Floats.PrimFloat.infinity
|}.

(** ** Data model *)

(** [{ scale, rotation, translateX, translateY }] *)
Module Transform.
Record t (num : Type) : Type := mk {
  scale : num;
  rotation : num;
  translateX : num;
  translateY : num
}.
Arguments mk {num}.
Arguments scale {num}.
Arguments rotation {num}.
Arguments translateX {num}.
Arguments translateY {num}.
End Transform.
Abbreviation Transform := Transform.t.

(** [selectedArea: { x, y, width, height }] *)
Module Area.
Record t (num : Type) : Type := mk {
  x : num;
  y : num;
  width : num;
  height : num
}.
Arguments mk {num}.
Arguments x {num}.
Arguments y {num}.
Arguments width {num}.
Arguments height {num}.
End Area.
Abbreviation Area := Area.t.

(** [{ x, y }] *)
Module Point.
Record t (num : Type) : Type := mk {
  x : num;
  y : num
}.
Arguments mk {num}.
Arguments x {num}.
Arguments y {num}.
End Point.
Abbreviation Point := Point.t.

(** ** utils/imageTransform.ts *)

Section ImageTransform.
Context {num : Type} {N : JSNumber num}.
Local Open Scope js_scope.

(** An optional [selectedArea] argument is [None] when it is [undefined]
    or [null]; both are falsy in the guards below. *)
Definition calculateCenterImageTransform
    (width height : num) (currentTransform : Transform num)
    (selectedArea : option (Area num)) : Transform num :=
  let '(translateX, translateY) :=
    match selectedArea with
    | Some a =>
        let selectedCenterX := Area.x a + Area.width a / num_lit 2 in
        let selectedCenterY := Area.y a + Area.height a / num_lit 2 in
        let relativeCenterX := selectedCenterX - width / num_lit 2 in
        let relativeCenterY := selectedCenterY - height / num_lit 2 in
        (- relativeCenterX, - relativeCenterY)
    | None => (num_lit 0, num_lit 0)
    end in
  Transform.mk (num_lit 1.0) (Transform.rotation currentTransform)
               translateX translateY.

Definition calculateAlignImagesTransform
    (image1Width image1Height : num) (image1Transform : Transform num)
    (image2Width image2Height : num) (image2Transform : Transform num)
    (image1SelectedArea image2SelectedArea : option (Area num))
    : Transform num :=
  let '(translateX, translateY) :=
    match image1SelectedArea, image2SelectedArea with
    | Some a1, Some a2 =>
        let image1SelectedCenterX := Area.x a1 + Area.width a1 / num_lit 2 in
        let image1SelectedCenterY := Area.y a1 + Area.height a1 / num_lit 2 in
        let image2SelectedCenterX := Area.x a2 + Area.width a2 / num_lit 2 in
        let image2SelectedCenterY := Area.y a2 + Area.height a2 / num_lit 2 in
        let image1CanvasCenterX :=
          Transform.translateX image1Transform
          + (image1SelectedCenterX - image1Width / num_lit 2) * num_lit 1.0 in
        let image1CanvasCenterY :=
          Transform.translateY image1Transform
          + (image1SelectedCenterY - image1Height / num_lit 2) * num_lit 1.0 in
        let image2CanvasCenterX :=
          (image2SelectedCenterX - image2Width / num_lit 2) * num_lit 1.0 in
        let image2CanvasCenterY :=
          (image2SelectedCenterY - image2Height / num_lit 2) * num_lit 1.0 in
        (image1CanvasCenterX - image2CanvasCenterX,
         image1CanvasCenterY - image2CanvasCenterY)
    | _, _ => (num_lit 0, num_lit 0)
    end in
  Transform.mk (num_lit 1.0) (Transform.rotation image2Transform)
               translateX translateY.

(** One turn of the loop of [combineTransforms]. *)
Definition combineStep (combined transform : Transform num) : Transform num :=
  let newRotation := Transform.rotation combined + Transform.rotation transform in
  let rad := (Transform.rotation combined * Math_PI) / num_lit 180 in
  let cos := Math_cos rad in
  let sin := Math_sin rad in
  let rotatedTranslateX :=
    Transform.translateX transform * cos - Transform.translateY transform * sin in
  let rotatedTranslateY :=
    Transform.translateX transform * sin + Transform.translateY transform * cos in
  Transform.mk (Transform.scale combined * Transform.scale transform)
               newRotation
               (Transform.translateX combined + rotatedTranslateX)
               (Transform.translateY combined + rotatedTranslateY).

(** [combineTransforms(...transforms)] *)
Definition combineTransforms (transforms : list (Transform num)) : Transform num :=
  fold_left combineStep transforms
            (Transform.mk (num_lit 1) (num_lit 0) (num_lit 0) (num_lit 0)).

(** Where the drawing calls of [applyTransformToImage] put the image pixel
    [p]: [ctx.translate(origin + translate)], [ctx.rotate], [ctx.scale],
    then the image drawn with its midpoint at the origin. *)
Definition canvasPoint (originX originY imageWidth imageHeight : num)
    (transform : Transform num) (p : Point num) : Point num :=
  let rad := Transform.rotation transform * Math_PI / num_lit 180 in
  let sx := Transform.scale transform * (Point.x p - imageWidth / num_lit 2) in
  let sy := Transform.scale transform * (Point.y p - imageHeight / num_lit 2) in
  Point.mk
    (originX + Transform.translateX transform
     + (sx * Math_cos rad - sy * Math_sin rad))
    (originY + Transform.translateY transform
     + (sx * Math_sin rad + sy * Math_cos rad)).

(** [calculateCenter] of [utils/affineTransform.ts]: the middle of an area. *)
Definition calculateCenter (area : Area num) : Point num :=
  Point.mk (Area.x area + Area.width area / num_lit 2)
           (Area.y area + Area.height area / num_lit 2).
End ImageTransform.

(** ** Exceptions *)

(** A call either returns or throws an error with a message. *)
Inductive Exc (A : Type) : Type :=
| Ok (a : A)
| Throw (message : string).
Arguments Ok {A}.
Arguments Throw {A}.

Definition bindExc {A B : Type} (c : Exc A) (k : A -> Exc B) : Exc B :=
  match c with
  | Ok a => k a
  | Throw m => Throw m
  end.

Notation "x <- c ;; k" := (bindExc c (fun x => k))
  (at level 61, c at next level, right associativity).

(** ** OpenCV values *)

(** [cv.DMatch]: indices into the two key point vectors and a distance. *)
Module DMatch.
Record t (num : Type) : Type := mk {
  queryIdx : nat;
  trainIdx : nat;
  distance : num
}.
Arguments mk {num}.
Arguments queryIdx {num}.
Arguments trainIdx {num}.
Arguments distance {num}.
End DMatch.
Abbreviation DMatch := DMatch.t.

(** [cv.KeyPoint], of which the code reads [pt]. *)
Module KeyPoint.
Record t (num : Type) : Type := mk {
  pt : Point num
}.
Arguments mk {num}.
Arguments pt {num}.
End KeyPoint.
Abbreviation KeyPoint := KeyPoint.t.

(** The result of [calculateOptimalRotation]. *)
Module RotationResult.
Record t (num : Type) : Type := mk {
  rotation : num;
  translateY : num
}.
Arguments mk {num}.
Arguments rotation {num}.
Arguments translateY {num}.
End RotationResult.
Abbreviation RotationResult := RotationResult.t.

(** [ImageData]; the [file] handle is never read by the core. *)
Module ImageData.
Record t (num : Type) : Type := mk {
  id : string;
  url : string;
  width : num;
  height : num;
  selectedArea : option (Area num);
  transform : Transform num
}.
Arguments mk {num}.
Arguments id {num}.
Arguments url {num}.
Arguments width {num}.
Arguments height {num}.
Arguments selectedArea {num}.
Arguments transform {num}.
End ImageData.
Abbreviation ImageData := ImageData.t.

(** [AlignmentResult] *)
Module AlignmentResult.
Record t (num : Type) : Type := mk {
  success : bool;
  transform : Transform num;
  error : option string
}.
Arguments mk {num}.
Arguments success {num}.
Arguments transform {num}.
Arguments error {num}.
End AlignmentResult.
Abbreviation AlignmentResult := AlignmentResult.t.

(** What the core asks of the browser and of OpenCV.js: [window.cv] being
    there, [imageToMat], [extractORBFeatures], [BFMatcher.match], and the
    ratio test built on [knnMatch]. *)
Module OpenCV.
Record t (num Mat Descriptors : Type) : Type := mk {
  loaded : bool;
  imageToMat : string -> Exc Mat;
  extractORBFeatures : Mat -> Exc (list (KeyPoint num) * Descriptors);
  BFMatcher_match : Descriptors -> Descriptors -> list (DMatch num);
  ratioTest : Descriptors -> Descriptors -> list (DMatch num) -> list (DMatch num)
}.
Arguments mk {num Mat Descriptors}.
Arguments loaded {num Mat Descriptors}.
Arguments imageToMat {num Mat Descriptors}.
Arguments extractORBFeatures {num Mat Descriptors}.
Arguments BFMatcher_match {num Mat Descriptors}.
Arguments ratioTest {num Mat Descriptors}.
End OpenCV.
Abbreviation OpenCV := OpenCV.t.

(** ** utils/imageAlignment.ts: the correspondence filter *)

Section MatchFeatures.
Context {num : Type} {N : JSNumber num}.
Local Open Scope js_scope.

(** [distances.sort((a, b) => a - b)] *)
Fixpoint insertAscending (d : num) (sorted : list num) : list num :=
  match sorted with
  | [] => [d]
  | h :: rest => if d <=? h then d :: sorted else h :: insertAscending d rest
  end.

Definition sortAscending (distances : list num) : list num :=
  fold_right insertAscending [] distances.

(** [xs.reduce((sum, d) => sum + f(d), 0)] *)
Definition reduceSum (f : num -> num) (xs : list num) : num :=
  fold_left (fun sum d => sum + f d) xs (num_lit 0).

(** [Math.pow(x, 2)] *)
Definition Math_pow2 (x : num) : num := x * x.

(** [const enableRatioTest = false] *)
Definition enableRatioTest : bool := false.

(** The body of [matchFeatures] after the matcher has run,
    [ratioTested] being what the disabled ratio test would leave. *)
Definition filterMatches (ratioTested : list (DMatch num) -> list (DMatch num))
    (matchesArray : list (DMatch num)) : list (DMatch num) :=
  match matchesArray with
  | [] => []
  | _ :: _ =>
      let distances := sortAscending (map DMatch.distance matchesArray) in
      let medianDistance := nth (length distances / 2) distances (num_lit 0) in
      let distanceThreshold := Math_min (num_lit 50) (medianDistance * num_lit 0.8) in
      let goodMatches :=
        filter (fun m => DMatch.distance m <? distanceThreshold) matchesArray in
      let goodMatches :=
        if enableRatioTest && negb (Nat.eqb (length goodMatches) 0)
        then ratioTested goodMatches
        else goodMatches in
      if Nat.leb 4 (length goodMatches) then
        let distances := map DMatch.distance goodMatches in
        let meanDist :=
          reduceSum (fun d => d) distances / num_of_nat (length distances) in
        let stdDist :=
          Math_sqrt (reduceSum (fun d => Math_pow2 (d - meanDist)) distances
                     / num_of_nat (length distances)) in
        let outlierThreshold := meanDist + num_lit 2 * stdDist in
        filter (fun m => DMatch.distance m <? outlierThreshold) goodMatches
      else goodMatches
  end.

Definition matchFeatures {Mat Descriptors : Type} (cv : OpenCV num Mat Descriptors)
    (descriptors1 descriptors2 : Descriptors) : list (DMatch num) :=
  filterMatches (OpenCV.ratioTest cv descriptors1 descriptors2)
                (OpenCV.BFMatcher_match cv descriptors1 descriptors2).
End MatchFeatures.

(** ** utils/imageAlignment.ts: the rotation solver *)

Section CalculateOptimalRotation.
Context {num : Type} {N : JSNumber num} {I : JSInfinity num}.
Local Open Scope js_scope.

(** The first loop: the matched key points, or the [TypeError] of reading
    [pt] of a key point that is not there. *)
Fixpoint matchedPoints (keypoints1 keypoints2 : list (KeyPoint num))
    (matches : list (DMatch num)) : Exc (list (Point num) * list (Point num)) :=
  match matches with
  | [] => Ok ([], [])
  | m :: rest =>
      match nth_error keypoints1 (DMatch.queryIdx m),
            nth_error keypoints2 (DMatch.trainIdx m) with
      | Some kp1, Some kp2 =>
          ps <- matchedPoints keypoints1 keypoints2 rest ;;
          Ok (KeyPoint.pt kp1 :: fst ps, KeyPoint.pt kp2 :: snd ps)
      | _, _ => Throw "TypeError: Cannot read properties of undefined (reading 'pt')"
      end
  end.

(** The inner loop at one angle: the distances from [points1[i]] to
    [points2[i]] turned about [rotationCenter], added up in index order. *)
Definition totalDistanceAt (points1 points2 : list (Point num))
    (rotationCenter : Point num) (angle : num) : num :=
  let rad := (angle * Math_PI) / num_lit 180 in
  let cos := Math_cos rad in
  let sin := Math_sin rad in
  fold_left
    (fun totalDistance p =>
       let p1 := fst p in
       let p2 := snd p in
       let relativeX := Point.x p2 - Point.x rotationCenter in
       let relativeY := Point.y p2 - Point.y rotationCenter in
       let rotatedX := relativeX * cos - relativeY * sin in
       let rotatedY := relativeX * sin + relativeY * cos in
       let finalX := rotatedX + Point.x rotationCenter in
       let finalY := rotatedY + Point.y rotationCenter in
       let dx := Point.x p1 - finalX in
       let dy := Point.y p1 - finalY in
       let distance := Math_sqrt (dx * dx + dy * dy) in
       totalDistance + distance)
    (combine points1 points2) (num_lit 0).

(** The angles [for (let angle = -30; angle <= 30; angle += 0.1)] visits,
    at most [fuel] of them. *)
Fixpoint scanAnglesFrom (fuel : nat) (angle : num) : list num :=
  match fuel with
  | O => []
  | S fuel' =>
      if angle <=? num_lit 30
      then angle :: scanAnglesFrom fuel' (angle + num_lit 0.1)
      else []
  end.

(** Both readings of the numbers leave the loop within 601 turns
    ([scanAngles_exact], [scanAngles_binary64]). *)
Definition scanAngles : list num := scanAnglesFrom 1000 (num_lit (-30)).

(** One turn of the outer loop, on [(minTotalDistance, optimalRotation)]. *)
Definition scanStep (total : num -> num) (state : num * num) (angle : num)
    : num * num :=
  let totalDistance := total angle in
  if totalDistance <? fst state then (totalDistance, angle) else state.

Definition calculateOptimalRotation (keypoints1 keypoints2 : list (KeyPoint num))
    (matches : list (DMatch num)) (currentRotation : num)
    (selectedAreaCenter : option (Point num)) : Exc (RotationResult num) :=
  if Nat.ltb (length matches) 3 then
    Ok (RotationResult.mk currentRotation (num_lit 0))
  else
    ps <- matchedPoints keypoints1 keypoints2 matches ;;
    let rotationCenter :=
      match selectedAreaCenter with
      | Some c => c
      | None => Point.mk (num_lit 0) (num_lit 0)
      end in
    let best :=
      fold_left (scanStep (totalDistanceAt (fst ps) (snd ps) rotationCenter))
                scanAngles (Infinity, currentRotation) in
    Ok (RotationResult.mk (snd best) (num_lit 0)).
End CalculateOptimalRotation.

(** ** utils/imageAlignment.ts: one pair, and the passes over the list *)

Section AlignImages.
Context {num : Type} {N : JSNumber num} {I : JSInfinity num}.
Context {Mat Descriptors : Type} (cv : OpenCV num Mat Descriptors).
Local Open Scope js_scope.

(** The [try] block of [alignImages]: the transform of its success result. *)
Definition alignImagesTry (image1 image2 : ImageData num) : Exc (Transform num) :=
  if negb (OpenCV.loaded cv) then Throw "OpenCV is not loaded"
  else
    match ImageData.selectedArea image1, ImageData.selectedArea image2 with
    | Some _, Some area2 =>
        mat1 <- OpenCV.imageToMat cv (ImageData.url image1) ;;
        mat2 <- OpenCV.imageToMat cv (ImageData.url image2) ;;
        features1 <- OpenCV.extractORBFeatures cv mat1 ;;
        features2 <- OpenCV.extractORBFeatures cv mat2 ;;
        let matches := matchFeatures cv (snd features1) (snd features2) in
        if Nat.ltb (length matches) 3 then
          Throw "Not enough matching features found"
        else
          let selectedAreaCenter :=
            Some (Point.mk (Area.x area2 + Area.width area2 / num_lit 2)
                           (Area.y area2 + Area.height area2 / num_lit 2)) in
          r <- calculateOptimalRotation (fst features1) (fst features2) matches
                 (Transform.rotation (ImageData.transform image2))
                 selectedAreaCenter ;;
          Ok (Transform.mk
                (Transform.scale (ImageData.transform image2))
                (RotationResult.rotation r)
                (Transform.translateX (ImageData.transform image2))
                (RotationResult.translateY r))
    | _, _ => Throw "Both images must have selected areas"
    end.

(** [alignImages]: every error is caught and reported in the result. *)
Definition alignImages (image1 image2 : ImageData num) : AlignmentResult num :=
  match alignImagesTry image1 image2 with
  | Ok t => AlignmentResult.mk true t None
  | Throw message =>
      AlignmentResult.mk false (ImageData.transform image2) (Some message)
  end.

(** [{ ...image, transform: t }] *)
Definition withTransform (image : ImageData num) (t : Transform num) : ImageData num :=
  ImageData.mk (ImageData.id image) (ImageData.url image)
               (ImageData.width image) (ImageData.height image)
               (ImageData.selectedArea image) t.

(** [array[i] = v] for an index inside the array; the loops below write
    nowhere else. *)
Fixpoint assignAt {A : Type} (i : nat) (v : A) (array : list A) : list A :=
  match array, i with
  | [], _ => []
  | _ :: rest, O => v :: rest
  | a :: rest, S j => a :: assignAt j v rest
  end.

(** The block before the loops: image 0 is centred on its area. *)
Definition centerFirst (alignedImages : list (ImageData num)) : list (ImageData num) :=
  match nth_error alignedImages 0 with
  | Some image0 =>
      match ImageData.selectedArea image0 with
      | Some area =>
          let newTransform :=
            calculateCenterImageTransform
              (ImageData.width image0) (ImageData.height image0)
              (ImageData.transform image0) (Some area) in
          assignAt 0 (withTransform image0 newTransform) alignedImages
      | None => alignedImages
      end
  | None => alignedImages
  end.

(** One turn of the translation loop at index [i]. *)
Definition translationStep (alignedImages : list (ImageData num)) (i : nat)
    : list (ImageData num) :=
  match nth_error alignedImages i, nth_error alignedImages (i + 1) with
  | Some currentImage, Some nextImage =>
      match ImageData.selectedArea currentImage,
            ImageData.selectedArea nextImage with
      | Some currentArea, Some nextArea =>
          let newTransform :=
            calculateAlignImagesTransform
              (ImageData.width currentImage) (ImageData.height currentImage)
              (ImageData.transform currentImage)
              (ImageData.width nextImage) (ImageData.height nextImage)
              (ImageData.transform nextImage)
              (Some currentArea) (Some nextArea) in
          assignAt (i + 1) (withTransform nextImage newTransform) alignedImages
      | _, _ => alignedImages
      end
  | _, _ => alignedImages
  end.

(** One turn of the rotation loop at index [i]. *)
Definition rotationStep (alignedImages : list (ImageData num)) (i : nat)
    : list (ImageData num) :=
  match nth_error alignedImages i, nth_error alignedImages (i + 1) with
  | Some currentImage, Some nextImage =>
      match ImageData.selectedArea currentImage,
            ImageData.selectedArea nextImage with
      | Some _, Some _ =>
          let alignmentResult := alignImages currentImage nextImage in
          if AlignmentResult.success alignmentResult then
            assignAt (i + 1)
              (withTransform nextImage
                 (Transform.mk
                    (Transform.scale (ImageData.transform nextImage))
                    (Transform.rotation (AlignmentResult.transform alignmentResult))
                    (Transform.translateX (ImageData.transform nextImage))
                    (Transform.translateY (ImageData.transform nextImage))))
              alignedImages
          else alignedImages
      | _, _ => alignedImages
      end
  | _, _ => alignedImages
  end.

(** [for (let i = start; i < start + turns; i++) body], on the array. *)
Fixpoint forLoop (body : list (ImageData num) -> nat -> list (ImageData num))
    (start turns : nat) (alignedImages : list (ImageData num))
    : list (ImageData num) :=
  match turns with
  | O => alignedImages
  | S turns' => forLoop body (S start) turns' (body alignedImages start)
  end.

Definition translationPass (alignedImages : list (ImageData num)) :=
  forLoop translationStep 0 (length alignedImages - 1) alignedImages.

Definition rotationPass (alignedImages : list (ImageData num)) :=
  forLoop rotationStep 0 (length alignedImages - 1) alignedImages.

Definition alignAllImages (images : list (ImageData num)) : list (ImageData num) :=
  if Nat.ltb (length images) 2 then images
  else rotationPass (translationPass (centerFirst images)).

Definition alignImagesByAreaOnly (images : list (ImageData num)) : list (ImageData num) :=
  if Nat.ltb (length images) 2 then images
  else translationPass (centerFirst images).

Definition alignImagesByRotationOnly (images : list (ImageData num)) : list (ImageData num) :=
  if Nat.ltb (length images) 2 then images
  else rotationPass images.
End AlignImages.

(** ** The variants printed in the implementation document *)

(** [unnamed/part_000], section 3.1, prints [matchFeatures] without the
    ratio test and with the outlier removal run whenever a match survives,
    and [calculateOptimalRotation] in steps of 0.5 with squares taken by
    [Math.pow]. *)
Module Documented.
Section Variants.
Context {num : Type} {N : JSNumber num} {I : JSInfinity num}.
Local Open Scope js_scope.

Definition filterMatches (matchesArray : list (DMatch num)) : list (DMatch num) :=
  match matchesArray with
  | [] => []
  | _ :: _ =>
      let distances := sortAscending (map DMatch.distance matchesArray) in
      let medianDistance := nth (length distances / 2) distances (num_lit 0) in
      let distanceThreshold := Math_min (num_lit 50) (medianDistance * num_lit 0.8) in
      let goodMatches :=
        filter (fun m => DMatch.distance m <? distanceThreshold) matchesArray in
      if Nat.ltb 0 (length goodMatches) then
        let matchDistances := map DMatch.distance goodMatches in
        let meanDist :=
          reduceSum (fun d => d) matchDistances
          / num_of_nat (length matchDistances) in
        let stdDist :=
          Math_sqrt (reduceSum (fun d => Math_pow2 (d - meanDist)) matchDistances
                     / num_of_nat (length matchDistances)) in
        let outlierThreshold := meanDist + num_lit 2 * stdDist in
        filter (fun m => DMatch.distance m <? outlierThreshold) goodMatches
      else goodMatches
  end.

Definition matchFeatures {Mat Descriptors : Type} (cv : OpenCV num Mat Descriptors)
    (descriptors1 descriptors2 : Descriptors) : list (DMatch num) :=
  filterMatches (OpenCV.BFMatcher_match cv descriptors1 descriptors2).

Definition totalDistanceAt (points1 points2 : list (Point num))
    (rotationCenter : Point num) (angle : num) : num :=
  let rad := (angle * Math_PI) / num_lit 180 in
  let cos := Math_cos rad in
  let sin := Math_sin rad in
  fold_left
    (fun totalDistance p =>
       let p1 := fst p in
       let p2 := snd p in
       let relativeX := Point.x p2 - Point.x rotationCenter in
       let relativeY := Point.y p2 - Point.y rotationCenter in
       let rotatedX := relativeX * cos - relativeY * sin in
       let rotatedY := relativeX * sin + relativeY * cos in
       let finalX := rotatedX + Point.x rotationCenter in
       let finalY := rotatedY + Point.y rotationCenter in
       let distance :=
         Math_sqrt (Math_pow2 (Point.x p1 - finalX)
                    + Math_pow2 (Point.y p1 - finalY)) in
       totalDistance + distance)
    (combine points1 points2) (num_lit 0).

(** [for (let angle = -30; angle <= 30; angle += 0.5)] *)
Fixpoint scanAnglesFrom (fuel : nat) (angle : num) : list num :=
  match fuel with
  | O => []
  | S fuel' =>
      if angle <=? num_lit 30
      then angle :: scanAnglesFrom fuel' (angle + num_lit 0.5)
      else []
  end.

Definition scanAngles : list num := scanAnglesFrom 1000 (num_lit (-30)).

Definition calculateOptimalRotation (keypoints1 keypoints2 : list (KeyPoint num))
    (matches : list (DMatch num)) (currentRotation : num)
    (selectedAreaCenter : option (Point num)) : Exc (RotationResult num) :=
  if Nat.ltb (length matches) 3 then
    Ok (RotationResult.mk currentRotation (num_lit 0))
  else
    ps <- matchedPoints keypoints1 keypoints2 matches ;;
    let rotationCenter :=
      match selectedAreaCenter with
      | Some c => c
      | None => Point.mk (num_lit 0) (num_lit 0)
      end in
    let best :=
      fold_left (scanStep (totalDistanceAt (fst ps) (snd ps) rotationCenter))
                scanAngles (Infinity, currentRotation) in
    Ok (RotationResult.mk (snd best) (num_lit 0)).
End Variants.
End Documented.

(** ** Reading the claims *)

(** The identity transform, the value the loop of [combineTransforms]
    starts from. *)
Definition identityTransform {num : Type} {N : JSNumber num} : Transform num :=
  Transform.mk (num_lit 1) (num_lit 0) (num_lit 0) (num_lit 0).

(** The specification's [compose(a, b)]. *)
Definition compose {num : Type} {N : JSNumber num} (a b : Transform num) : Transform num :=
  combineTransforms [a; b].

(** The scale of an image's transform. *)
Definition scaleOf {num : Type} (image : ImageData num) : num :=
  Transform.scale (ImageData.transform image).

(** The three images of the specification's end-to-end scenario: 1000 x 800
    each, with the regions [100,100,50,50], [120,90,50,50], [80,110,50,50]. *)
Definition scenarioArea0 : Area R := Area.mk 100%R 100%R 50%R 50%R.
Definition scenarioArea1 : Area R := Area.mk 120%R 90%R 50%R 50%R.
Definition scenarioArea2 : Area R := Area.mk 80%R 110%R 50%R 50%R.

(** What the passes never write: everything of an image but its transform. *)
Definition staticOf {num : Type} (image : ImageData num)
    : string * string * num * num * option (Area num) :=
  (ImageData.id image, ImageData.url image, ImageData.width image,
   ImageData.height image, ImageData.selectedArea image).

(** What the rotation pass never writes: scale and translation. *)
Definition placementOf {num : Type} (image : ImageData num) : num * num * num :=
  (Transform.scale (ImageData.transform image),
   Transform.translateX (ImageData.transform image),
   Transform.translateY (ImageData.transform image)).

(** The pair yields fewer than three filtered correspondences whenever
    decoding and feature extraction get as far as matching. *)
Definition fewCorrespondences {num : Type} {N : JSNumber num} {Mat Descriptors : Type}
    (cv : OpenCV num Mat Descriptors) (image1 image2 : ImageData num) : Prop :=
  forall mat1 mat2 features1 features2,
    OpenCV.imageToMat cv (ImageData.url image1) = Ok mat1 ->
    OpenCV.imageToMat cv (ImageData.url image2) = Ok mat2 ->
    OpenCV.extractORBFeatures cv mat1 = Ok features1 ->
    OpenCV.extractORBFeatures cv mat2 = Ok features2 ->
    length (matchFeatures cv (snd features1) (snd features2)) < 3.

(** The transform the translation pass gives the second image of a pair
    whose images both have a region. *)
Definition alignedTo {num : Type} {N : JSNumber num}
    (reference : ImageData num) (referenceTransform : Transform num)
    (image : ImageData num) : Transform num :=
  calculateAlignImagesTransform
    (ImageData.width reference) (ImageData.height reference) referenceTransform
    (ImageData.width image) (ImageData.height image) (ImageData.transform image)
    (ImageData.selectedArea reference) (ImageData.selectedArea image).

(** The transform the run gives image 0 when it has a region. *)
Definition centered {num : Type} {N : JSNumber num} (image : ImageData num)
    : Transform num :=
  calculateCenterImageTransform
    (ImageData.width image) (ImageData.height image)
    (ImageData.transform image) (ImageData.selectedArea image).

(** ** Concrete runs *)

(** Polynomial stand-ins for [Math.cos] and [Math.sin], accurate to about
    1e-9 on the scanned range; only closed examples use them, the theorems
    hold for any pair of functions. *)
Definition standInCos (x : F64.float) : F64.float :=
  let N := Binary64 (fun a => a) (fun a => a) in
  let x2 := num_mul x x in
  let x4 := num_mul x2 x2 in
  num_add
    (num_sub
       (num_add (num_sub (num_lit 1) (num_div x2 (num_lit 2)))
                (num_div x4 (num_lit 24)))
       (num_div (num_mul x4 x2) (num_lit 720)))
    (num_div (num_mul x4 x4) (num_lit 40320)).

Definition standInSin (x : F64.float) : F64.float :=
  let N := Binary64 (fun a => a) (fun a => a) in
  let x2 := num_mul x x in
  let x4 := num_mul x2 x2 in
  num_mul x
    (num_add
       (num_sub
          (num_add (num_sub (num_lit 1) (num_div x2 (num_lit 6)))
                   (num_div x4 (num_lit 120)))
          (num_div (num_mul x4 x2) (num_lit 5040)))
       (num_div (num_mul x4 x4) (num_lit 362880))).

Definition Float64 : JSNumber F64.float := Binary64 standInCos standInSin.

(** A browser in which no image can be decoded. *)
Definition offlineCv : OpenCV F64.float unit unit :=
  OpenCV.mk true
    (fun _ => Throw "Failed to load image")
    (fun _ => Ok ([], tt))
    (fun _ _ => [])
    (fun _ _ matches => matches).

Definition float64Image (name : string) (area : option (Area F64.float))
    : ImageData F64.float :=
  ImageData.mk name name (F64.of_Q 1000) (F64.of_Q 800) area
    (Transform.mk (F64.of_Q 1) (F64.of_Q 0) (F64.of_Q 0) (F64.of_Q 0)).

(** Three images of which the middle one has no region. *)
Definition degradedImages : list (ImageData F64.float) :=
  [ float64Image "image-0"
      (Some (Area.mk (F64.of_Q 100) (F64.of_Q 100) (F64.of_Q 50) (F64.of_Q 50)));
    float64Image "image-1" None;
    float64Image "image-2"
      (Some (Area.mk (F64.of_Q 80) (F64.of_Q 110) (F64.of_Q 50) (F64.of_Q 50))) ].

(** ** The correspondence filter in the specification's words *)

Definition distancesOf (matches : list (DMatch R)) : list R :=
  map DMatch.distance matches.

Definition countBelow (m : R) (distances : list R) : nat :=
  length (filter (fun d => Rltb d m) distances).

Definition countAtMost (m : R) (distances : list R) : nat :=
  length (filter (fun d => Rleb d m) distances).

(** [m] is the distance that stands at index [k] once the distances are put
    in ascending order: at most [k] distances are below it and more than [k]
    are at most it. *)
Definition hasRank (k : nat) (distances : list R) (m : R) : Prop :=
  In m distances /\ countBelow m distances <= k < countAtMost m distances.

Definition mean (distances : list R) : R :=
  (fold_right Rplus 0 distances / INR (length distances))%R.

Definition populationStdDev (distances : list R) : R :=
  R_sqrt.sqrt
    (fold_right Rplus 0 (map (fun d => Rsqr (d - mean distances)) distances)
     / INR (length distances))%R.

(** Step 1: the correspondences strictly below [min(50, 0.8 * m)]. *)
Definition belowThreshold (m : R) (matches : list (DMatch R)) : list (DMatch R) :=
  filter (fun c => Rltb (DMatch.distance c) (Rmin 50 (0.8 * m))) matches.

(** Step 2: the kept correspondences, those at or above [mean + 2 sigma]
    dropped. *)
Definition withoutOutliers (kept : list (DMatch R)) : list (DMatch R) :=
  let distances := distancesOf kept in
  filter
    (fun c => negb (Rleb (mean distances + 2 * populationStdDev distances)
                         (DMatch.distance c)))
    kept.

(** The two steps as the specification words them. *)
Definition claimedFilter (m : R) (matches : list (DMatch R)) : list (DMatch R) :=
  withoutOutliers (belowThreshold m matches).

(** The two steps with step 2 reserved to four or more survivors. *)
Definition shippedFilter (m : R) (matches : list (DMatch R)) : list (DMatch R) :=
  let kept := belowThreshold m matches in
  if Nat.leb 4 (length kept) then withoutOutliers kept else kept.

(** Raw correspondences with the given distances. *)
Definition matchesWithDistances {num : Type} (distances : list num)
    : list (DMatch num) :=
  map (fun p => DMatch.mk (fst p) (fst p) (snd p))
      (combine (seq 0 (length distances)) distances).

(** ** The correspondence filter as the code computes it *)

Section FilterAsComputed.
Context {num : Type} {N : JSNumber num}.
Local Open Scope js_scope.

(** The mean as the code computes it: the running sum from 0 in list
    order, divided by the count. *)
Definition computedMean (distances : list num) : num :=
  reduceSum (fun d => d) distances / num_of_nat (length distances).

(** The population standard deviation as the code computes it. *)
Definition computedStdDev (distances : list num) : num :=
  Math_sqrt
    (reduceSum (fun d => Math_pow2 (d - computedMean distances)) distances
     / num_of_nat (length distances)).

(** The correspondences whose distance is below a bound. *)
Definition keptBelow (bound : num) (matches : list (DMatch num))
    : list (DMatch num) :=
  filter (fun c => DMatch.distance c <? bound) matches.

(** Step 1 around [m]; then step 2, when at least [guard] correspondences
    are kept. *)
Definition twoStageFilter (guard : nat) (m : num) (matches : list (DMatch num))
    : list (DMatch num) :=
  let kept := keptBelow (Math_min (num_lit 50) (m * num_lit 0.8)) matches in
  if Nat.leb guard (length kept) then
    let distances := map DMatch.distance kept in
    keptBelow (computedMean distances + num_lit 2 * computedStdDev distances)
              kept
  else kept.

(** [<=] puts these distances in order: any two of them compare, and it is
    transitive on them. Numbers that are not NaN are such. *)
Definition comparable (distances : list num) : Prop :=
  (forall a b, In a distances -> In b distances ->
     (a <=? b) = true \/ (b <=? a) = true)
  /\ (forall a b c, In a distances -> In b distances -> In c distances ->
        (a <=? b) = true -> (b <=? c) = true -> (a <=? c) = true).

(** The same, as a check. *)
Definition comparableb (distances : list num) : bool :=
  forallb (fun a =>
    forallb (fun b =>
      ((a <=? b) || (b <=? a))
      && forallb (fun c => implb ((a <=? b) && (b <=? c)) (a <=? c)) distances)
      distances)
    distances.
End FilterAsComputed.

(** Eleven distances whose kept ones have mean + 2 sigma = 9 exactly. *)
Definition boundaryDistances : list Q :=
  [0; 0; 0; 0; 9; 62; 62; 62; 62; 62; 62]%Q.

(** A matcher that returns the given correspondences. *)
Definition matcherCv (matches : list (DMatch F64.float))
    : OpenCV F64.float unit unit :=
  OpenCV.mk true
    (fun _ => Ok tt)
    (fun _ => Ok ([], tt))
    (fun _ _ => matches)
    (fun _ _ kept => kept).

(** ** The rotation search in the specification's words *)

Section RotationSearchSpec.
Context {num : Type} {N : JSNumber num}.
Local Open Scope js_scope.

(** [p] turned by [angle] degrees about [center]. *)
Definition rotateAbout (center : Point num) (angle : num) (p : Point num)
    : Point num :=
  let rad := (angle * Math_PI) / num_lit 180 in
  let relativeX := Point.x p - Point.x center in
  let relativeY := Point.y p - Point.y center in
  Point.mk
    ((relativeX * Math_cos rad - relativeY * Math_sin rad) + Point.x center)
    ((relativeX * Math_sin rad + relativeY * Math_cos rad) + Point.y center).

Definition euclideanDistance (p q : Point num) : num :=
  Math_sqrt ((Point.x p - Point.x q) * (Point.x p - Point.x q)
             + (Point.y p - Point.y q) * (Point.y p - Point.y q)).

(** The distances from [points1[i]] to the turned [points2[i]], added in
    input order. *)
Definition residual (points1 points2 : list (Point num)) (center : Point num)
    (angle : num) : num :=
  fold_left
    (fun sum p => sum + euclideanDistance (fst p) (rotateAbout center angle (snd p)))
    (combine points1 points2) (num_lit 0).

(** [best] is the first candidate of the least total: every earlier
    candidate has a strictly greater total, and no later one a smaller. *)
Definition firstMinimum (total : num -> num) (candidates : list num) (best : num)
    : Prop :=
  exists before after,
    candidates = before ++ best :: after
    /\ (forall a, In a before -> (total best <? total a) = true)
    /\ (forall a, In a after -> (total a <? total best) = false).

Definition origin : Point num := Point.mk (num_lit 0) (num_lit 0).
End RotationSearchSpec.

(** Three correspondences between the key point (2^600, 0) of the first
    image and the key point (0, 0) of the second: finite coordinates whose
    squared difference exceeds the binary64 range. *)
Definition farCoordinate : F64.float :=
  Floats.PrimFloat.ldshiftexp (F64.of_Q 1)
    (Uint63.of_Z (600 + Floats.FloatOps.shift)).

Definition farKeypoints : list (KeyPoint F64.float) :=
  [KeyPoint.mk (Point.mk farCoordinate (F64.of_Q 0))].

Definition originKeypoints : list (KeyPoint F64.float) :=
  [KeyPoint.mk (Point.mk (F64.of_Q 0) (F64.of_Q 0))].

Definition threeMatches : list (DMatch F64.float) :=
  [DMatch.mk 0 0 (F64.of_Q 10); DMatch.mk 0 0 (F64.of_Q 12);
   DMatch.mk 0 0 (F64.of_Q 14)].

(** Three key points and their images under a quarter turn of one degree,
    for a run in which every total is finite. *)
Definition nearKeypoints2 : list (KeyPoint F64.float) :=
  [KeyPoint.mk (Point.mk (F64.of_Q 10) (F64.of_Q 0));
   KeyPoint.mk (Point.mk (F64.of_Q 0) (F64.of_Q 10));
   KeyPoint.mk (Point.mk (F64.of_Q 20) (F64.of_Q 20))].

Definition nearKeypoints1 : list (KeyPoint F64.float) :=
  [KeyPoint.mk (Point.mk (F64.of_Q 10) (F64.of_Q 0.2));
   KeyPoint.mk (Point.mk (F64.of_Q (-0.2)) (F64.of_Q 10));
   KeyPoint.mk (Point.mk (F64.of_Q 19.6) (F64.of_Q 20.4))].

Definition nearMatches : list (DMatch F64.float) :=
  [DMatch.mk 0 0 (F64.of_Q 10); DMatch.mk 1 1 (F64.of_Q 12);
   DMatch.mk 2 2 (F64.of_Q 14)].

(** Classes of binary64 values met when a square overflows. *)
Module F64Class.
Import Floats.
Import SpecFloat.

(** A zero of either sign, or NaN. *)
Definition zeroOrNaN (x : float) : Prop :=
  match Prim2SF x with
  | S754_zero _ | S754_nan => True
  | _ => False
  end.

(** +Infinity or NaN: what is not below +Infinity and is not negative. *)
Definition infOrNaN (x : float) : Prop :=
  match Prim2SF x with
  | S754_infinity false | S754_nan => True
  | _ => False
  end.
End F64Class.

(** ** App.tsx: the handlers of the alignment buttons *)

(** The [alert] a handler ends with. *)
Inductive Alert : Type :=
| AlertNeedTwoImages    (** at least two images are needed *)
| AlertNeedEveryArea    (** every image needs a selected area *)
| AlertOpenCVNotLoaded  (** OpenCV is not loaded; reload the page *)
| AlertDone.            (** the alignment is complete *)

Section Handlers.
Context {num : Type} {N : JSNumber num} {I : JSInfinity num}.
Context {Mat Descriptors : Type} (cv : OpenCV num Mat Descriptors).

(** [images.filter(img => !img.selectedArea)] *)
Definition imagesWithoutArea (images : list (ImageData num)) : list (ImageData num) :=
  filter (fun img => match ImageData.selectedArea img with
                     | Some _ => false
                     | None => true
                     end) images.

(** [handleAutoAlign]: the images state it leaves and its alert. *)
Definition handleAutoAlign (images : list (ImageData num))
    : list (ImageData num) * Alert :=
  if Nat.ltb (length images) 2 then (images, AlertNeedTwoImages)
  else if Nat.ltb 0 (length (imagesWithoutArea images))
  then (images, AlertNeedEveryArea)
  else if negb (OpenCV.loaded cv) then (images, AlertOpenCVNotLoaded)
  else (alignAllImages cv images, AlertDone).

(** [handleAlignByArea] *)
Definition handleAlignByArea (images : list (ImageData num))
    : list (ImageData num) * Alert :=
  if Nat.ltb (length images) 2 then (images, AlertNeedTwoImages)
  else if Nat.ltb 0 (length (imagesWithoutArea images))
  then (images, AlertNeedEveryArea)
  else (alignImagesByAreaOnly images, AlertDone).

(** [handleAlignByRotation] *)
Definition handleAlignByRotation (images : list (ImageData num))
    : list (ImageData num) * Alert :=
  if Nat.ltb (length images) 2 then (images, AlertNeedTwoImages)
  else if Nat.ltb 0 (length (imagesWithoutArea images))
  then (images, AlertNeedEveryArea)
  else if negb (OpenCV.loaded cv) then (images, AlertOpenCVNotLoaded)
  else (alignImagesByRotationOnly cv images, AlertDone).
End Handlers.

(** ** utils/textureAtlas.ts *)

Section AdjustImageList.
Context {A : Type}.
(** What an index outside the array reads. *)
Variable undefined : A.

(** [Math.ceil(n / 2)] of a count. *)
Definition ceilHalf (n : nat) : nat := (n + 1) / 2.

(** [array.slice(start, end)] for indices within the array. *)
Definition slice (start stop : nat) (array : list A) : list A :=
  firstn (stop - start) (skipn start array).

(** [for (let i = 0; i < n; i++) result.unshift(v)] *)
Fixpoint unshiftTimes (n : nat) (v : A) (result : list A) : list A :=
  match n with
  | O => result
  | S n' => unshiftTimes n' v (v :: result)
  end.

(** [for (let i = 0; i < n; i++) result.push(v)] *)
Fixpoint pushTimes (n : nat) (v : A) (result : list A) : list A :=
  match n with
  | O => result
  | S n' => pushTimes n' v (result ++ [v])
  end.

Definition adjustImageList (images : list A) (requiredCount : nat) : list A :=
  if Nat.eqb (length images) requiredCount then images
  else if Nat.ltb requiredCount (length images) then
    let excess := length images - requiredCount in
    let removeFromStart := ceilHalf excess in
    let removeFromEnd := excess - removeFromStart in
    slice removeFromStart (length images - removeFromEnd) images
  else
    let shortage := requiredCount - length images in
    let addToStart := ceilHalf shortage in
    let addToEnd := shortage - addToStart in
    let result := images in
    let result := unshiftTimes addToStart (nth 0 images undefined) result in
    pushTimes addToEnd (nth (length images - 1) images undefined) result.
End AdjustImageList.

(** One tile of the atlas: the rectangle [cropToSquare] cuts out of the
    image at [url], and the rectangle of the atlas canvas it is drawn into
    after [resizeImage]. *)
Module Tile.
Record t (num : Type) : Type := mk {
  url : string;
  source : Area num;
  destination : Area num
}.
Arguments mk {num}.
Arguments url {num}.
Arguments source {num}.
Arguments destination {num}.
End Tile.
Abbreviation Tile := Tile.t.

Section TextureAtlas.
Context {num : Type} {N : JSNumber num}.
Local Open Scope js_scope.

(** [cropToSquare]: the source rectangle of its [drawImage],
    [(offsetX, offsetY, size, size)]. *)
Definition cropToSquare (width height : num) : Area num :=
  let size := Math_min width height in
  let offsetX := (width - size) / num_lit 2 in
  let offsetY := (height - size) / num_lit 2 in
  Area.mk offsetX offsetY size size.

(** The turn [i] of the two loops of [generateTextureAtlas] on an image:
    cut to a square, resized to the tile, and placed. *)
Definition tileOf (cols : nat) (tileSize : num) (i : nat)
    (image : ImageData num) : Tile num :=
  let row := (i / cols)%nat in
  let col := (i mod cols)%nat in
  let x := num_of_nat col * tileSize in
  let y := num_of_nat row * tileSize in
  Tile.mk (ImageData.url image)
          (cropToSquare (ImageData.width image) (ImageData.height image))
          (Area.mk x y tileSize tileSize).

(** Reading [image.file.name] of an entry that is [undefined] throws. *)
Definition atlasTile (cols : nat) (tileSize : num) (i : nat)
    (entry : option (ImageData num)) : Exc (Tile num) :=
  match entry with
  | None =>
      Throw "TypeError: Cannot read properties of undefined (reading 'file')"
  | Some image => Ok (tileOf cols tileSize i image)
  end.

(** The entries from index [i] on, in order, up to the first that throws. *)
Fixpoint atlasTiles (cols : nat) (tileSize : num) (i : nat)
    (entries : list (option (ImageData num))) : Exc (list (Tile num)) :=
  match entries with
  | [] => Ok []
  | entry :: rest =>
      tile <- atlasTile cols tileSize i entry ;;
      tiles <- atlasTiles cols tileSize (S i) rest ;;
      Ok (tile :: tiles)
  end.

(** [generateTextureAtlas], from the grid [rows x cols] that [gridSize]
    spells: the tiles drawn on the [outputSize] square canvas. Images load
    and canvases are to be had. *)
Definition generateTextureAtlas (images : list (ImageData num))
    (outputSize : num) (rows cols : nat) : Exc (list (Tile num)) :=
  let requiredCount := (rows * cols)%nat in
  let tileSize := outputSize / num_of_nat rows in
  let adjustedImages := adjustImageList None (map Some images) requiredCount in
  atlasTiles cols tileSize 0 adjustedImages.
End TextureAtlas.

(** Two rectangles with no interior point in common. *)
Definition apart (a b : Area R) : Prop :=
  (Area.x a + Area.width a <= Area.x b
   \/ Area.x b + Area.width b <= Area.x a
   \/ Area.y a + Area.height a <= Area.y b
   \/ Area.y b + Area.height b <= Area.y a)%R.

(** What [generateTextureAtlas] reads of an image. *)
Definition atlasInput {num : Type} (image : ImageData num) : string * num * num :=
  (ImageData.url image, ImageData.width image, ImageData.height image).


(** What a turn of the translation loop leaves at [i + 1], given the
    image that stands at [i]. *)
Definition alignedNext {num : Type} {N : JSNumber num}
    (cur next : ImageData num) : ImageData num :=
  match ImageData.selectedArea cur, ImageData.selectedArea next with
  | Some _, Some _ =>
      withTransform next (alignedTo cur (ImageData.transform cur) next)
  | _, _ => next
  end.

(** What a turn of the rotation loop leaves at [i + 1], given the image
    that stands at [i]. *)
Definition turnedNext {num : Type} {N : JSNumber num} {I : JSInfinity num}
    {Mat Descriptors : Type} (cv : OpenCV num Mat Descriptors)
    (cur next : ImageData num) : ImageData num :=
  match ImageData.selectedArea cur, ImageData.selectedArea next with
  | Some _, Some _ =>
      let alignmentResult := alignImages cv cur next in
      if AlignmentResult.success alignmentResult then
        withTransform next
          (Transform.mk
             (Transform.scale (ImageData.transform next))
             (Transform.rotation (AlignmentResult.transform alignmentResult))
             (Transform.translateX (ImageData.transform next))
             (Transform.translateY (ImageData.transform next)))
      else next
  | _, _ => next
  end.

(** The image with its own region moved to the middle. *)
Definition centredOnArea {num : Type} {N : JSNumber num}
    (image : ImageData num) : ImageData num :=
  withTransform image (centered image).

(** What the rotation pass may do to an image: leave everything but the
    rotation, and turn the image to an angle of the scan or not at all. *)
Definition turnedOnly {num : Type} {N : JSNumber num}
    (before after : ImageData num) : Prop :=
  staticOf after = staticOf before
  /\ placementOf after = placementOf before
  /\ (Transform.rotation (ImageData.transform after)
      = Transform.rotation (ImageData.transform before)
      \/ In (Transform.rotation (ImageData.transform after)) scanAngles).

(** A browser in which OpenCV.js never arrived. *)
Definition missingCv : OpenCV F64.float unit unit :=
  OpenCV.mk false
    (fun _ => Throw "cv is undefined")
    (fun _ => Throw "cv is undefined")
    (fun _ _ => [])
    (fun _ _ matches => matches).

(** The three images of the chained scenario, each with its region. *)
Definition scenarioImage (name : string) (area : Area R) : ImageData R :=
  ImageData.mk name name 1000%R 800%R (Some area)
    (Transform.mk 1%R 0%R 0%R 0%R).

Definition scenarioImages : list (ImageData R) :=
  [scenarioImage "image-0" scenarioArea0;
   scenarioImage "image-1" scenarioArea1;
   scenarioImage "image-2" scenarioArea2].

(** Key points about the middle (145, 115) of the region of image 1, and
    the same points turned about it by a little more than one degree. *)
Definition pairKeypoints2 : list (KeyPoint F64.float) :=
  [KeyPoint.mk (Point.mk (F64.of_Q 155) (F64.of_Q 115));
   KeyPoint.mk (Point.mk (F64.of_Q 145) (F64.of_Q 125));
   KeyPoint.mk (Point.mk (F64.of_Q 165) (F64.of_Q 135))].

Definition pairKeypoints1 : list (KeyPoint F64.float) :=
  [KeyPoint.mk (Point.mk (F64.of_Q 155) (F64.of_Q 115.2));
   KeyPoint.mk (Point.mk (F64.of_Q 144.8) (F64.of_Q 125));
   KeyPoint.mk (Point.mk (F64.of_Q 164.6) (F64.of_Q 135.4))].

(** Seven raw correspondences, three of them close. *)
Definition pairMatches : list (DMatch F64.float) :=
  [DMatch.mk 0 0 (F64.of_Q 1); DMatch.mk 1 1 (F64.of_Q 1);
   DMatch.mk 2 2 (F64.of_Q 1); DMatch.mk 0 1 (F64.of_Q 10);
   DMatch.mk 1 2 (F64.of_Q 10); DMatch.mk 2 0 (F64.of_Q 10);
   DMatch.mk 0 2 (F64.of_Q 10)].

(** A browser whose detector finds these key points: those of the first
    list in image 0, those of the second everywhere else. *)
Definition detectorCv : OpenCV F64.float (list (KeyPoint F64.float)) unit :=
  OpenCV.mk true
    (fun url => Ok (if String.eqb url "image-0" then pairKeypoints1
                    else pairKeypoints2))
    (fun mat => Ok (mat, tt))
    (fun _ _ => pairMatches)
    (fun _ _ matches => matches).

(** Four images of which the third has no region. *)
Definition pairedImages : list (ImageData F64.float) :=
  [ float64Image "image-0"
      (Some (Area.mk (F64.of_Q 100) (F64.of_Q 100) (F64.of_Q 50) (F64.of_Q 50)));
    float64Image "image-1"
      (Some (Area.mk (F64.of_Q 120) (F64.of_Q 90) (F64.of_Q 50) (F64.of_Q 50)));
    float64Image "image-2" None;
    float64Image "image-3"
      (Some (Area.mk (F64.of_Q 80) (F64.of_Q 110) (F64.of_Q 50) (F64.of_Q 50))) ].

(** Two images at scale 2.5, both with a region. *)
Definition enlargedImages : list (ImageData F64.float) :=
  map (fun image =>
         withTransform image
           (Transform.mk (F64.of_Q 2.5) (F64.of_Q 0) (F64.of_Q 0) (F64.of_Q 0)))
      [ float64Image "image-0"
          (Some (Area.mk (F64.of_Q 100) (F64.of_Q 100) (F64.of_Q 50) (F64.of_Q 50)));
        float64Image "image-1"
          (Some (Area.mk (F64.of_Q 120) (F64.of_Q 90) (F64.of_Q 50) (F64.of_Q 50))) ].


(** ** More of [Math] *)

(** [Math.abs], [Math.max] and [Math.ceil], which the export and the canvas
    use; they are read over the real numbers. *)
Class JSMath (num : Type) : Type := {
  Math_abs : num -> num;
  Math_max : num -> num -> num;
  Math_ceil : num -> num
}.

(** The least integer that is not below [x]. *)
Definition Rceil (x : R) : R := IZR (1 - up (- x)).

#[export] Instance ExactMath : JSMath R := {|
Math_abs := Rabs;
Math_max := Rmax;
Math_ceil := Rceil
|}.

(** ** utils/imageAlignment.ts: the helpers *)

Section AlignmentHelpers.
Context {num : Type} {N : JSNumber num}.
Local Open Scope js_scope.

(** A parameter with a default value: [None] when the caller leaves it
    out. *)
Definition orDefault (argument : option num) (default : num) : num :=
  match argument with
  | Some v => v
  | None => default
  end.

Definition calculateMaxScale (imageWidth imageHeight : num)
    (canvasWidth canvasHeight : option num) : num :=
  let canvasWidth := orDefault canvasWidth (num_lit 800) in
  let canvasHeight := orDefault canvasHeight (num_lit 600) in
  let scaleX := canvasWidth / imageWidth in
  let scaleY := canvasHeight / imageHeight in
  Math_min (Math_min scaleX scaleY) (num_lit 1.0).

Definition centerImageX (imageData : ImageData num) (targetCenterX : num)
    : Transform num :=
  let currentCenterX := ImageData.width imageData / num_lit 2 in
  let translateX := targetCenterX - currentCenterX in
  Transform.mk (Transform.scale (ImageData.transform imageData))
               (Transform.rotation (ImageData.transform imageData))
               translateX
               (Transform.translateY (ImageData.transform imageData)).
End AlignmentHelpers.

(** [extractORBFeatures]: what it asks of OpenCV.js, the constructor of
    [cv.ORB] on a list of arguments and [detectAndCompute]. *)
Module ORBEngine.
Record t (ORB Mat Features : Type) : Type := mk {
  construct : list Q -> Exc ORB;
  detectAndCompute : ORB -> Mat -> Exc Features
}.
Arguments mk {ORB Mat Features}.
Arguments construct {ORB Mat Features}.
Arguments detectAndCompute {ORB Mat Features}.
End ORBEngine.
Abbreviation ORBEngine := ORBEngine.t.

Section ExtractORBFeatures.
Context {ORB Mat Features : Type} (cv : ORBEngine ORB Mat Features).

(** The arguments of the four constructor calls, in the order of trial. *)
Definition initMethods : list (list Q) :=
  [ [1000; 1.2; 8; 31; 0; 2];
    [1000; 1.2; 8; 31];
    [];
    [500; 1.2; 8; 31; 0; 2; 0; 31; 20] ]%Q.

(** The loop over [initMethods]: the first constructor that returns ends
    it; the error of the last one is thrown on. With no method at all [orb]
    would stay [undefined]. *)
Fixpoint initORB (methods : list (list Q)) : Exc ORB :=
  match methods with
  | [] =>
      Throw "TypeError: Cannot read properties of undefined (reading 'detectAndCompute')"
  | [method] => ORBEngine.construct cv method
  | method :: rest =>
      match ORBEngine.construct cv method with
      | Ok orb => Ok orb
      | Throw _ => initORB rest
      end
  end.

Definition extractORBFeatures (mat : Mat) : Exc Features :=
  orb <- initORB initMethods ;;
  ORBEngine.detectAndCompute cv orb mat.
End ExtractORBFeatures.

(** ** utils/affineTransform.ts *)

Module AffineTransform.
Record t (num : Type) : Type := mk {
  a : num;
  b : num;
  c : num;
  d : num;
  tx : num;
  ty : num
}.
Arguments mk {num}.
Arguments a {num}.
Arguments b {num}.
Arguments c {num}.
Arguments d {num}.
Arguments tx {num}.
Arguments ty {num}.
End AffineTransform.
Abbreviation AffineTransform := AffineTransform.t.

(** The sums the loop of [calculateAffineTransform] keeps. *)
Module Sums.
Record t (num : Type) : Type := mk {
  sumX : num;
  sumY : num;
  sumX2 : num;
  sumY2 : num;
  sumXY : num;
  sumU : num;
  sumV : num;
  sumUX : num;
  sumUY : num;
  sumVX : num;
  sumVY : num
}.
Arguments mk {num}.
Arguments sumX {num}.
Arguments sumY {num}.
Arguments sumX2 {num}.
Arguments sumY2 {num}.
Arguments sumXY {num}.
Arguments sumU {num}.
Arguments sumV {num}.
Arguments sumUX {num}.
Arguments sumUY {num}.
Arguments sumVX {num}.
Arguments sumVY {num}.
End Sums.
Abbreviation Sums := Sums.t.

Section AffineTransforms.
Context {num : Type} {N : JSNumber num} {M : JSMath num}.
Local Open Scope js_scope.

(** One turn of the loop. *)
Definition addPair (s : Sums num) (src tgt : Point num) : Sums num :=
  Sums.mk (Sums.sumX s + Point.x src)
          (Sums.sumY s + Point.y src)
          (Sums.sumX2 s + Point.x src * Point.x src)
          (Sums.sumY2 s + Point.y src * Point.y src)
          (Sums.sumXY s + Point.x src * Point.y src)
          (Sums.sumU s + Point.x tgt)
          (Sums.sumV s + Point.y tgt)
          (Sums.sumUX s + Point.x tgt * Point.x src)
          (Sums.sumUY s + Point.x tgt * Point.y src)
          (Sums.sumVX s + Point.y tgt * Point.x src)
          (Sums.sumVY s + Point.y tgt * Point.y src).

(** [for (let i = 0; i < n; i++)] with [n] the number of source points:
    target points beyond are not read, and a target point that is not there
    is [undefined]. *)
Fixpoint sumPairs (sourcePoints targetPoints : list (Point num)) (s : Sums num)
    : Exc (Sums num) :=
  match sourcePoints with
  | [] => Ok s
  | src :: sources =>
      match targetPoints with
      | [] => Throw "TypeError: Cannot read properties of undefined (reading 'x')"
      | tgt :: targets => sumPairs sources targets (addPair s src tgt)
      end
  end.

Definition calculateAffineTransform (sourcePoints targetPoints : list (Point num))
    : Exc (AffineTransform num) :=
  if Nat.ltb (length sourcePoints) 3 || Nat.ltb (length targetPoints) 3 then
    Throw "少なくとも3つの点が必要です"
  else
    let n := num_of_nat (length sourcePoints) in
    let zero := num_lit 0 in
    s <- sumPairs sourcePoints targetPoints
           (Sums.mk zero zero zero zero zero zero zero zero zero zero zero) ;;
    let sumX := Sums.sumX s in
    let sumY := Sums.sumY s in
    let sumX2 := Sums.sumX2 s in
    let sumY2 := Sums.sumY2 s in
    let sumXY := Sums.sumXY s in
    let sumU := Sums.sumU s in
    let sumV := Sums.sumV s in
    let sumUX := Sums.sumUX s in
    let sumUY := Sums.sumUY s in
    let sumVX := Sums.sumVX s in
    let sumVY := Sums.sumVY s in
    let det :=
      n * sumX2 * sumY2 + num_lit 2 * sumX * sumY * sumXY
      - sumX2 * sumY * sumY - sumY2 * sumX * sumX - sumXY * sumXY in
    if Math_abs det <? num_lit (1 # 10000000000) then
      Throw "変換行列が計算できません"
    else
      let a :=
        (n * sumUX * sumY2 + sumUY * sumXY * sumY + sumU * sumY * sumXY
         - sumUX * sumY * sumY - sumUY * sumX * sumY2 - sumU * sumXY * sumXY)
        / det in
      let b :=
        (n * sumUY * sumX2 + sumUX * sumXY * sumX + sumU * sumX * sumXY
         - sumUY * sumX * sumX - sumUX * sumY * sumX2 - sumU * sumXY * sumXY)
        / det in
      let c :=
        (n * sumVX * sumY2 + sumVY * sumXY * sumY + sumV * sumY * sumXY
         - sumVX * sumY * sumY - sumVY * sumX * sumY2 - sumV * sumXY * sumXY)
        / det in
      let d :=
        (n * sumVY * sumX2 + sumVX * sumXY * sumX + sumV * sumX * sumXY
         - sumVY * sumX * sumX - sumVX * sumY * sumX2 - sumV * sumXY * sumXY)
        / det in
      let tx := (sumU - a * sumX - b * sumY) / n in
      let ty := (sumV - c * sumX - d * sumY) / n in
      Ok (AffineTransform.mk a b c d tx ty).

Definition applyAffineTransform (point : Point num)
    (transform : AffineTransform num) : Point num :=
  Point.mk
    (AffineTransform.a transform * Point.x point
     + AffineTransform.b transform * Point.y point
     + AffineTransform.tx transform)
    (AffineTransform.c transform * Point.x point
     + AffineTransform.d transform * Point.y point
     + AffineTransform.ty transform).

Definition createAffineTransformFromParams (params : Transform num)
    : AffineTransform num :=
  let scale := Transform.scale params in
  let rotation := Transform.rotation params in
  let translateX := Transform.translateX params in
  let translateY := Transform.translateY params in
  let rad := (rotation * Math_PI) / num_lit 180 in
  AffineTransform.mk (scale * Math_cos rad) (scale * Math_sin rad)
                     (- scale * Math_sin rad) (scale * Math_cos rad)
                     translateX translateY.

Definition calculateCorners (area : Area num) : list (Point num) :=
  [ Point.mk (Area.x area) (Area.y area);
    Point.mk (Area.x area + Area.width area) (Area.y area);
    Point.mk (Area.x area + Area.width area) (Area.y area + Area.height area);
    Point.mk (Area.x area) (Area.y area + Area.height area) ].
End AffineTransforms.

(** The mean of the points. *)
Definition centroid (points : list (Point R)) : Point R :=
  Point.mk
    (fold_right Rplus 0 (map Point.x points) / INR (length points))%R
    (fold_right Rplus 0 (map Point.y points) / INR (length points))%R.

(** The transform with its rotation reversed. *)
Definition turnedBack {num : Type} {N : JSNumber num} (t : Transform num)
    : Transform num :=
  Transform.mk (Transform.scale t) (num_neg (Transform.rotation t))
               (Transform.translateX t) (Transform.translateY t).

(** ** utils/imageExport.ts *)

Section ImageExport.
Context {num : Type} {N : JSNumber num} {M : JSMath num}.
Local Open Scope js_scope.

Definition calculateTransformedSize (originalWidth originalHeight : num)
    (transform : Transform num) : num * num :=
  let rad := Math_abs (Transform.rotation transform * Math_PI / num_lit 180) in
  let cos := Math_abs (Math_cos rad) in
  let sin := Math_abs (Math_sin rad) in
  let scaledWidth := originalWidth * Transform.scale transform in
  let scaledHeight := originalHeight * Transform.scale transform in
  let rotatedWidth := scaledWidth * cos + scaledHeight * sin in
  let rotatedHeight := scaledWidth * sin + scaledHeight * cos in
  let padding := num_lit 100 in
  let width :=
    Math_ceil (rotatedWidth + Math_abs (Transform.translateX transform) * num_lit 2
               + padding) in
  let height :=
    Math_ceil (rotatedHeight + Math_abs (Transform.translateY transform) * num_lit 2
               + padding) in
  (width, height).

(** [applyTransformToImage]: where on its canvas, of the size
    [calculateTransformedSize] gives, the drawing calls put the image
    pixel [p]. *)
Definition applyTransformToImage (imgWidth imgHeight : num)
    (transform : Transform num) (p : Point num) : Point num :=
  let size := calculateTransformedSize imgWidth imgHeight transform in
  let width := fst size in
  let height := snd size in
  canvasPoint (width / num_lit 2) (height / num_lit 2) imgWidth imgHeight
              transform p.
End ImageExport.

(** ** components/ImageCanvas.tsx *)

Section ImageCanvas.
Context {num : Type} {N : JSNumber num} {M : JSMath num}.
Local Open Scope js_scope.

(** The scale at which the canvas shows an image. *)
Definition displayScale (canvasWidth canvasHeight imgWidth imgHeight : num) : num :=
  let displayScaleX := (canvasWidth * num_lit 0.9) / imgWidth in
  let displayScaleY := (canvasHeight * num_lit 0.9) / imgHeight in
  Math_min (Math_min displayScaleX displayScaleY) (num_lit 1.0).

(** [drawSelectedImage] and [drawSelectedArea]: where their context
    ([translate], [rotate], [scale]) puts the image point [q]. *)
Definition drawnAt (canvasWidth canvasHeight : num) (image : ImageData num)
    (q : Point num) : Point num :=
  let displayScale :=
    displayScale canvasWidth canvasHeight
                 (ImageData.width image) (ImageData.height image) in
  let t := ImageData.transform image in
  canvasPoint (canvasWidth / num_lit 2) (canvasHeight / num_lit 2)
    (ImageData.width image) (ImageData.height image)
    (Transform.mk (Transform.scale t * displayScale) (Transform.rotation t)
                  (Transform.translateX t * displayScale)
                  (Transform.translateY t * displayScale))
    q.

(** [handleMouseMove]: the selection between the point where the button
    went down and the pointer. *)
Definition handleMouseMove (drawStart pointer : Point num) : Area num :=
  let x := Point.x pointer in
  let y := Point.y pointer in
  let width := x - Point.x drawStart in
  let height := y - Point.y drawStart in
  Area.mk (if width <? num_lit 0 then x else Point.x drawStart)
          (if height <? num_lit 0 then y else Point.y drawStart)
          (Math_abs width) (Math_abs height).

(** [handleMouseUp]: the area in image coordinates that is handed to
    [onAreaSelect] for the selection drawn on the canvas. *)
Definition handleMouseUp (canvasWidth canvasHeight : num)
    (selectedImage : ImageData num) (currentSelection : Area num) : Area num :=
  let canvasCenterX := canvasWidth / num_lit 2 in
  let canvasCenterY := canvasHeight / num_lit 2 in
  let scale := Transform.scale (ImageData.transform selectedImage) in
  let rotation := Transform.rotation (ImageData.transform selectedImage) in
  let translateX := Transform.translateX (ImageData.transform selectedImage) in
  let translateY := Transform.translateY (ImageData.transform selectedImage) in
  let displayScaleX :=
    (canvasWidth * num_lit 0.9) / ImageData.width selectedImage in
  let displayScaleY :=
    (canvasHeight * num_lit 0.9) / ImageData.height selectedImage in
  let displayScale := Math_min (Math_min displayScaleX displayScaleY) (num_lit 1.0) in
  let cos := Math_cos (- rotation * Math_PI / num_lit 180) in
  let sin := Math_sin (- rotation * Math_PI / num_lit 180) in
  let relativeX :=
    (Area.x currentSelection - canvasCenterX - translateX * displayScale)
    / (scale * displayScale) in
  let relativeY :=
    (Area.y currentSelection - canvasCenterY - translateY * displayScale)
    / (scale * displayScale) in
  let rotatedX := relativeX * cos - relativeY * sin in
  let rotatedY := relativeX * sin + relativeY * cos in
  Area.mk (rotatedX + ImageData.width selectedImage / num_lit 2)
          (rotatedY + ImageData.height selectedImage / num_lit 2)
          (Area.width currentSelection / (scale * displayScale))
          (Area.height currentSelection / (scale * displayScale)).
End ImageCanvas.

(** ** components/AlignmentControls.tsx *)

Section AlignmentControls.
Context {num : Type} {N : JSNumber num} {M : JSMath num}.
Local Open Scope js_scope.

(** [handleRotationInputChange]: the transform handed to
    [onTransformChange], if any. [parsed] is [parseFloat] of the text of the
    field, [None] for the empty text and for text that is not a number. *)
Definition handleRotationInputChange (transform : Transform num)
    (parsed : option num) : option (Transform num) :=
  match parsed with
  | None => None
  | Some rotation =>
      let clampedRotation :=
        Math_max (num_lit (-180)) (Math_min (num_lit 180) rotation) in
      Some (Transform.mk (Transform.scale transform) clampedRotation
                         (Transform.translateX transform)
                         (Transform.translateY transform))
  end.
End AlignmentControls.


(** ** App.tsx: the state of the application *)

(** [images], [originalImages] and [selectedImageId]. *)
Module AppState.
Record t (num : Type) : Type := mk {
  images : list (ImageData num);
  originalImages : list (ImageData num);
  selectedImageId : option string
}.
Arguments mk {num}.
Arguments images {num}.
Arguments originalImages {num}.
Arguments selectedImageId {num}.
End AppState.
Abbreviation AppState := AppState.t.

(** A file as [handleImageUpload] has read it: the [id] and the object URL
    it was given, and its dimensions. *)
Module Upload.
Record t (num : Type) : Type := mk {
  id : string;
  url : string;
  width : num;
  height : num
}.
Arguments mk {num}.
Arguments id {num}.
Arguments url {num}.
Arguments width {num}.
Arguments height {num}.
End Upload.
Abbreviation Upload := Upload.t.

Section AppHandlers.
Context {num : Type} {N : JSNumber num} {I : JSInfinity num}.
Context {Mat Descriptors : Type} (cv : OpenCV num Mat Descriptors).

(** [{ ...img, selectedArea: area }] *)
Definition withArea (image : ImageData num) (area : Area num) : ImageData num :=
  ImageData.mk (ImageData.id image) (ImageData.url image)
               (ImageData.width image) (ImageData.height image)
               (Some area) (ImageData.transform image).

(** The image [handleImageUpload] pushes for a file. *)
Definition newImage (file : Upload num) : ImageData num :=
  ImageData.mk (Upload.id file) (Upload.url file)
               (Upload.width file) (Upload.height file) None
               (Transform.mk (num_lit 1.0) (num_lit 0) (num_lit 0) (num_lit 0)).

(** The end of [handleImageUpload], [files] being the sorted files. *)
Definition handleImageUpload (files : list (Upload num)) (state : AppState num)
    : AppState num :=
  let newImages := map newImage files in
  AppState.mk
    (AppState.images state ++ newImages)
    (AppState.originalImages state ++ newImages)
    (match newImages, AppState.selectedImageId state with
     | first :: _, None => Some (ImageData.id first)
     | _, selected => selected
     end).

Definition handleAreaSelect (imageId : string) (area : Area num)
    (state : AppState num) : AppState num :=
  AppState.mk
    (map (fun img => if String.eqb (ImageData.id img) imageId
                     then withArea img area else img)
         (AppState.images state))
    (AppState.originalImages state)
    (AppState.selectedImageId state).

Definition handleTransformChange (imageId : string) (transform : Transform num)
    (state : AppState num) : AppState num :=
  AppState.mk
    (map (fun img => if String.eqb (ImageData.id img) imageId
                     then withTransform img transform else img)
         (AppState.images state))
    (AppState.originalImages state)
    (AppState.selectedImageId state).

Definition handleImageSelect (imageId : string) (state : AppState num)
    : AppState num :=
  AppState.mk (AppState.images state) (AppState.originalImages state)
              (Some imageId).

Definition handleRemoveImage (imageId : string) (state : AppState num)
    : AppState num :=
  let keep := fun img : ImageData num =>
                negb (String.eqb (ImageData.id img) imageId) in
  AppState.mk
    (filter keep (AppState.images state))
    (filter keep (AppState.originalImages state))
    (match AppState.selectedImageId state with
     | Some selected =>
         if String.eqb selected imageId then
           match filter keep (AppState.images state) with
           | first :: _ => Some (ImageData.id first)
           | [] => None
           end
         else Some selected
     | None => None
     end).

Definition handleResetImages (state : AppState num) : AppState num :=
  if Nat.eqb (length (AppState.originalImages state)) 0 then state
  else AppState.mk (AppState.originalImages state)
                   (AppState.originalImages state)
                   (AppState.selectedImageId state).

(** [setImages] with what an alignment handler leaves. *)
Definition setImages (images : list (ImageData num)) (state : AppState num)
    : AppState num :=
  AppState.mk images (AppState.originalImages state)
              (AppState.selectedImageId state).

(** What the user can do. An image is selected by a click on its entry in
    the list, so its [id] is that of an image of the state. *)
Inductive Action : Type :=
| UploadFiles (files : list (Upload num))
| SelectArea (imageId : string) (area : Area num)
| ChangeTransform (imageId : string) (transform : Transform num)
| SelectImage (imageId : string)
| RemoveImage (imageId : string)
| ResetImages
| AutoAlign
| AlignByArea
| AlignByRotation.

Definition perform (action : Action) (state : AppState num) : AppState num :=
  match action with
  | UploadFiles files => handleImageUpload files state
  | SelectArea imageId area => handleAreaSelect imageId area state
  | ChangeTransform imageId transform =>
      handleTransformChange imageId transform state
  | SelectImage imageId => handleImageSelect imageId state
  | RemoveImage imageId => handleRemoveImage imageId state
  | ResetImages => handleResetImages state
  | AutoAlign => setImages (fst (handleAutoAlign cv (AppState.images state))) state
  | AlignByArea => setImages (fst (handleAlignByArea (AppState.images state))) state
  | AlignByRotation =>
      setImages (fst (handleAlignByRotation cv (AppState.images state))) state
  end.

(** The states the application gets into from its empty start, its handlers
    run one after the other: an upload or an alignment has finished before
    the next event is handled. An image is selected by a click on it, so
    [handleImageSelect] is given the [id] of an image of the list. *)
Inductive reachable : AppState num -> Prop :=
| reachable_start : reachable (AppState.mk [] [] None)
| reachable_select (state : AppState num) (image : ImageData num) :
    reachable state -> In image (AppState.images state) ->
    reachable (perform (SelectImage (ImageData.id image)) state)
| reachable_perform (state : AppState num) (action : Action) :
    reachable state ->
    match action with SelectImage _ => False | _ => True end ->
    reachable (perform action state).

(** The image as it was uploaded: no area, the identity transform. *)
Definition asUploaded (image : ImageData num) : ImageData num :=
  ImageData.mk (ImageData.id image) (ImageData.url image)
               (ImageData.width image) (ImageData.height image) None
               (Transform.mk (num_lit 1.0) (num_lit 0) (num_lit 0) (num_lit 0)).
End AppHandlers.

(** What every reachable state satisfies: the backup holds the images as
    they were uploaded, and an image is selected exactly when there is
    one. *)
Definition consistent {num : Type} {N : JSNumber num} (state : AppState num)
    : Prop :=
  AppState.originalImages state = map asUploaded (AppState.images state)
  /\ match AppState.selectedImageId state with
     | Some selected => In selected (map ImageData.id (AppState.images state))
     | None => AppState.images state = []
     end.

(** Two files, uploaded and then worked on. *)
Definition sessionState : AppState F64.float :=
  let files :=
    [Upload.mk "image-1-0" "blob:1" (F64.of_Q 1000) (F64.of_Q 800);
     Upload.mk "image-1-1" "blob:2" (F64.of_Q 1000) (F64.of_Q 800)] in
  let N := Binary64 standInCos standInSin in
  perform (N := N) offlineCv
    (ChangeTransform "image-1-1"
       (Transform.mk (F64.of_Q 1) (F64.of_Q 12) (F64.of_Q 3) (F64.of_Q 4)))
    (perform (N := N) offlineCv
       (SelectArea "image-1-0"
          (Area.mk (F64.of_Q 100) (F64.of_Q 100) (F64.of_Q 50) (F64.of_Q 50)))
       (perform (N := N) offlineCv (UploadFiles files)
          (AppState.mk [] [] None))).


(** ** App.tsx: the order of the uploaded files *)

Section FileNames.
Import Ascii.
Local Open Scope char_scope.

(** [\d] *)
Definition isDigit (c : ascii) : bool :=
  Nat.leb 48 (nat_of_ascii c) && Nat.leb (nat_of_ascii c) 57.

(** [[^/.]*] to the end *)
Fixpoint noDotOrSlash (s : string) : bool :=
  match s with
  | EmptyString => true
  | String c rest =>
      negb (Ascii.eqb c ".") && negb (Ascii.eqb c "/") && noDotOrSlash rest
  end.

(** Whether [/\.[^/.]+$/] matches from the start of [s]. *)
Definition isExtension (s : string) : bool :=
  match s with
  | String c (String _ _ as rest) => Ascii.eqb c "." && noDotOrSlash rest
  | _ => false
  end.

(** [name.match(/\.[^/.]+$/)?.[0]]: the leftmost match. *)
Fixpoint extensionOf (name : string) : option string :=
  match name with
  | EmptyString => None
  | String c rest => if isExtension name then Some name else extensionOf rest
  end.

(** [name.replace(/\.[^/.]+$/, '')] *)
Fixpoint withoutExtension (name : string) : string :=
  match name with
  | EmptyString => EmptyString
  | String c rest =>
      if isExtension name then EmptyString else String c (withoutExtension rest)
  end.

(** [\d*] from the start of [s], as many digits as there are *)
Fixpoint takeDigits (s : string) : string :=
  match s with
  | String c rest => if isDigit c then String c (takeDigits rest) else EmptyString
  | EmptyString => EmptyString
  end.

(** Whether there is a digit in [s]. *)
Fixpoint hasDigit (s : string) : bool :=
  match s with
  | EmptyString => false
  | String c rest => isDigit c || hasDigit rest
  end.

Definition startsWithDigit (s : string) : bool :=
  match s with
  | String c _ => isDigit c
  | EmptyString => false
  end.

(** The group of [s.match(/(\d+)/)] *)
Fixpoint matchDigits (s : string) : option string :=
  match s with
  | EmptyString => None
  | String c rest => if isDigit c then Some (takeDigits s) else matchDigits rest
  end.

(** The group of [s.match(/[_-](\d+)/)] *)
Fixpoint matchSeparatorDigits (s : string) : option string :=
  match s with
  | EmptyString => None
  | String c rest =>
      if (Ascii.eqb c "_" || Ascii.eqb c "-") && startsWithDigit rest
      then Some (takeDigits rest)
      else matchSeparatorDigits rest
  end.

(** What follows the white space [\s+] that [s] starts with, if it starts
    with any. *)
Variable afterSpaces : string -> option string.

(** The group of [s.match(/\s+(\d+)/)] *)
Fixpoint matchSpaceDigits (s : string) : option string :=
  match s with
  | EmptyString => None
  | String c rest =>
      match afterSpaces s with
      | Some after =>
          if startsWithDigit after then Some (takeDigits after)
          else matchSpaceDigits rest
      | None => matchSpaceDigits rest
      end
  end.

Fixpoint allDigits (s : string) : bool :=
  match s with
  | EmptyString => true
  | String c rest => isDigit c && allDigits rest
  end.

(** The group of [s.match(/(\d+)$/)] *)
Fixpoint matchTrailingDigits (s : string) : option string :=
  match s with
  | EmptyString => None
  | String c rest =>
      if allDigits s then Some s else matchTrailingDigits rest
  end.

(** [parseInt(digits, 10)] of a string of digits, as the exact integer:
    what JavaScript returns for up to fifteen digits. *)
Fixpoint parseDigits (value : N) (digits : string) : N :=
  match digits with
  | EmptyString => value
  | String c rest => parseDigits (10 * value + (N_of_ascii c - 48)) rest
  end.

Definition parseInt (digits : string) : N := parseDigits 0 digits.

Definition extractNumberFromFileName (fileName : string) : N :=
  let nameWithoutExt := withoutExtension fileName in
  match matchDigits nameWithoutExt with
  | Some digits => parseInt digits
  | None =>
      match matchSeparatorDigits nameWithoutExt with
      | Some digits => parseInt digits
      | None =>
          match matchSpaceDigits nameWithoutExt with
          | Some digits => parseInt digits
          | None =>
              match matchTrailingDigits nameWithoutExt with
              | Some digits => parseInt digits
              | None => 0%N
              end
          end
      end
  end.

(** [fileArray.sort((a, b) => numA - numB)]: the sort is stable. *)
Fixpoint insertByNumber (fileName : string) (sorted : list string) : list string :=
  match sorted with
  | [] => [fileName]
  | other :: rest =>
      if N.leb (extractNumberFromFileName fileName)
               (extractNumberFromFileName other)
      then fileName :: sorted
      else other :: insertByNumber fileName rest
  end.

Definition sortByNumber (fileNames : list string) : list string :=
  fold_right insertByNumber [] fileNames.
End FileNames.

(** The ASCII white space. *)
Definition isAsciiSpace (c : Ascii.ascii) : bool :=
  let n := Ascii.nat_of_ascii c in
  Nat.eqb n 32 || (Nat.leb 9 n && Nat.leb n 13).

Fixpoint dropAsciiSpaces (s : string) : string :=
  match s with
  | String c rest => if isAsciiSpace c then dropAsciiSpaces rest else s
  | EmptyString => EmptyString
  end.

Definition afterAsciiSpaces (s : string) : option string :=
  match s with
  | String c rest => if isAsciiSpace c then Some (dropAsciiSpaces rest) else None
  | EmptyString => None
  end.


(** ** utils/imageExport.ts: the archive *)

(** [`${n}`] of a count. *)
Definition numberToString (n : nat) : string :=
  DecimalString.NilEmpty.string_of_uint (Nat.to_uint n).

(** The extension of the original name, or [.png]. *)
Definition extensionOrPng (originalName : string) : string :=
  match extensionOf originalName with
  | Some ext => ext
  | None => ".png"
  end.

(** The name of the entry of image [i] in the archive of
    [exportImagesAsZip]. *)
Definition exportFileName (originalName : string) (i : nat) : string :=
  (withoutExtension originalName ++ "_transformed_" ++ numberToString (i + 1)
   ++ extensionOrPng originalName)%string.

(** The name [downloadSingleImage] gives its file. *)
Definition downloadFileName (originalName : string) : string :=
  (withoutExtension originalName ++ "_transformed"
   ++ extensionOrPng originalName)%string.

(** An entry of the archive: a file with its data, or a folder. *)
Inductive ZipObject (Blob : Type) : Type :=
| ZipData (data : Blob)
| ZipDir.
Arguments ZipData {Blob}.
Arguments ZipDir {Blob}.

(** JSZip 3, [lib/object.js], as [zip.file(name, data)] runs it with the
    default options ([createFolders: true]). *)
Section JSZip.
Import Ascii.
Context {Blob : Type}.

(** [this.files[name]] is there. *)
Definition hasEntry (name : string) (files : list (string * ZipObject Blob)) : bool :=
  existsb (fun entry => String.eqb (fst entry) name) files.

(** [this.files[name] = object]: an entry of that name is replaced where it
    stands, a new one comes last. *)
Fixpoint setEntry (name : string) (object : ZipObject Blob)
    (files : list (string * ZipObject Blob)) : list (string * ZipObject Blob) :=
  match files with
  | [] => [(name, object)]
  | (other, old) :: rest =>
      if String.eqb other name then (name, object) :: rest
      else (other, old) :: setEntry name object rest
  end.

(** [path.slice(-1) === "/"] *)
Fixpoint endsWithSlash (path : string) : bool :=
  match path with
  | EmptyString => false
  | String c EmptyString => Ascii.eqb c "/"%char
  | String _ rest => endsWithSlash rest
  end.

(** [forceTrailingSlash] *)
Definition forceTrailingSlash (path : string) : string :=
  if endsWithSlash path then path else (path ++ String "/"%char EmptyString)%string.

(** [path.substring(0, path.length - 1)] *)
Fixpoint dropLast (path : string) : string :=
  match path with
  | EmptyString => EmptyString
  | String c EmptyString => EmptyString
  | String c rest => String c (dropLast rest)
  end.

(** [path.substring(0, path.lastIndexOf("/"))], for a path with a slash. *)
Fixpoint beforeLastSlash (path : string) : option string :=
  match path with
  | EmptyString => None
  | String c rest =>
      match beforeLastSlash rest with
      | Some parent => Some (String c parent)
      | None => if Ascii.eqb c "/"%char then Some EmptyString else None
      end
  end.

(** [parentFolder]: empty when the last slash is missing or leads the
    path. *)
Definition parentFolder (path : string) : string :=
  let path := if endsWithSlash path then dropLast path else path in
  match beforeLastSlash path with
  | Some parent => parent
  | None => EmptyString
  end.

Definition isEmpty (s : string) : bool :=
  match s with
  | EmptyString => true
  | String _ _ => false
  end.

(** [folderAdd(name, true)], with the [fileAdd] it calls for the folder:
    a folder that is there is left alone, a new one comes after its own
    parent. Every call is on a shorter name; [depth] bounds the calls, and
    the bound [fileAdd] gives is never reached ([fileAdd_depth]). *)
Fixpoint folderAdd (depth : nat) (name : string)
    (files : list (string * ZipObject Blob)) : list (string * ZipObject Blob) :=
  let name := forceTrailingSlash name in
  if hasEntry name files then files
  else
    let parent := parentFolder name in
    let files :=
      match depth with
      | S depth' => if isEmpty parent then files else folderAdd depth' parent files
      | O => files
      end in
    setEntry name ZipDir files.

(** [fileAdd(name, data)] for a file: its parent folder first. *)
Definition fileAdd (name : string) (data : Blob)
    (files : list (string * ZipObject Blob)) : list (string * ZipObject Blob) :=
  let parent := parentFolder name in
  let files :=
    if isEmpty parent then files else folderAdd (String.length name) parent files in
  setEntry name (ZipData data) files.

(** No [/] in the name. *)
Fixpoint noSlash (s : string) : bool :=
  match s with
  | EmptyString => true
  | String c rest => negb (Ascii.eqb c "/"%char) && noSlash rest
  end.

(** The files of an archive, its folders set aside. *)
Fixpoint fileEntries (files : list (string * ZipObject Blob)) : list (string * Blob) :=
  match files with
  | [] => []
  | (name, ZipData data) :: rest => (name, data) :: fileEntries rest
  | (_, ZipDir) :: rest => fileEntries rest
  end.

(** Folders are the entries whose name ends in a slash. *)
Definition tidy (files : list (string * ZipObject Blob)) : Prop :=
  Forall (fun entry =>
            endsWithSlash (fst entry)
            = match snd entry with ZipData _ => false | ZipDir => true end)
         files.
End JSZip.

Section ExportImagesAsZip.
Context {Image Blob : Type}.
(** [image.file.name], and the picture [applyTransformToImage] makes of an
    image, if it makes one. *)
Variable fileName : Image -> string.
Variable render : Image -> Exc Blob.

(** The loop of [exportImagesAsZip] from index [i] on: an image that cannot
    be rendered is logged and left out. *)
Fixpoint zipImages (images : list Image) (i : nat)
    (zip : list (string * ZipObject Blob)) : list (string * ZipObject Blob) :=
  match images with
  | [] => zip
  | image :: rest =>
      match render image with
      | Ok blob =>
          zipImages rest (S i) (fileAdd (exportFileName (fileName image) i) blob zip)
      | Throw _ => zipImages rest (S i) zip
      end
  end.

Definition exportImagesAsZip (images : list Image)
    : list (string * ZipObject Blob) :=
  zipImages images 0 [].

(** The images that can be rendered, each with its index. *)
Fixpoint rendered (images : list Image) (i : nat) : list (nat * Image * Blob) :=
  match images with
  | [] => []
  | image :: rest =>
      match render image with
      | Ok blob => (i, image, blob) :: rendered rest (S i)
      | Throw _ => rendered rest (S i)
      end
  end.
End ExportImagesAsZip.

(** Three files of which the second cannot be rendered; a file stands for
    its own picture. *)
Definition sampleFiles : list string :=
  ["left.png"; "broken.png"; "right.jpg"]%string.

Definition sampleRender (file : string) : Exc string :=
  if String.eqb file "broken.png" then Throw "Failed to load image"
  else Ok file.

(** An engine that knows the constructor of four arguments alone, and one
    that knows none. *)
Definition fourArgumentEngine : ORBEngine nat nat (nat * nat) :=
  ORBEngine.mk
    (fun method =>
       if Nat.eqb (length method) 4 then Ok (length method)
       else Throw "BindingError: ORB constructor")
    (fun orb mat => Ok (orb, mat)).

Definition noEngine : ORBEngine nat nat (nat * nat) :=
  ORBEngine.mk
    (fun method =>
       if Nat.eqb (length method) 9 then Throw "BindingError: nine arguments"
       else Throw "BindingError: ORB constructor")
    (fun orb mat => Ok (orb, mat)).

(** * Properties *)

(** ** Exact arithmetic: literals and comparisons *)

Section ExactLemmas.
Local Open Scope R_scope.

Lemma lit_int (z : Z) : num_lit (num := R) (z # 1) = IZR z.
Proof. cbn. unfold Q2R. cbn. field. Qed.

Lemma lit_one_point_zero : num_lit (num := R) 1.0 = 1.
Proof. cbn. unfold Q2R. cbn. field. Qed.

Lemma lit_decimal (z : Z) (d : positive) :
  num_lit (num := R) (z # d) = IZR z / IZR (Zpos d).
Proof. reflexivity. Qed.

Lemma Rltb_true (a b : R) : Rltb a b = true <-> a < b.
Proof. unfold Rltb. destruct (Rlt_dec a b); split; intros; try easy. Qed.

Lemma Rltb_false (a b : R) : Rltb a b = false <-> b <= a.
Proof. unfold Rltb. destruct (Rlt_dec a b); split; intros; try easy; lra. Qed.

Lemma Rleb_true (a b : R) : Rleb a b = true <-> a <= b.
Proof. unfold Rleb. destruct (Rle_dec a b); split; intros; try easy. Qed.

Lemma Rleb_false (a b : R) : Rleb a b = false <-> b < a.
Proof. unfold Rleb. destruct (Rle_dec a b); split; intros; try easy; lra. Qed.

Lemma degrees_zero : 0 * PI / 180 = 0.
Proof. lra. Qed.
End ExactLemmas.

(** Turns the interface operations at [ExactReal] into real arithmetic. *)
Ltac exact_arith :=
  rewrite ?lit_one_point_zero, ?lit_int;
  cbn [num_add num_sub num_mul num_div num_neg num_lt num_le num_of_nat
       Math_min Math_sqrt Math_cos Math_sin Math_PI ExactReal].

Ltac transform_fields :=
  cbn [Transform.scale Transform.rotation Transform.translateX
       Transform.translateY Point.x Point.y].

(** ** The translation solvers *)

Section TranslationSolvers.
Local Open Scope R_scope.

(** C1. For an image of size (W, H), a selected region and any current
    transform, [calculateCenterImageTransform] returns scale 1, the current
    rotation unchanged, and the translation -(region centre - image centre);
    hence region centre + translation = (W/2, H/2). *)
Theorem centerRegion_centers (W Hh : R) (cur : Transform R) (region : Area R) :
  let t := calculateCenterImageTransform W Hh cur (Some region) in
  let centerX := Area.x region + Area.width region / 2 in
  let centerY := Area.y region + Area.height region / 2 in
  Transform.scale t = 1
  /\ Transform.rotation t = Transform.rotation cur
  /\ Transform.translateX t = - (centerX - W / 2)
  /\ Transform.translateY t = - (centerY - Hh / 2)
  /\ centerX + Transform.translateX t = W / 2
  /\ centerY + Transform.translateY t = Hh / 2.
Proof.
  intros t centerX centerY. subst t centerX centerY.
  unfold calculateCenterImageTransform. transform_fields. exact_arith.
  repeat split; lra.
Qed.

Lemma canvasPoint_unrotated (ox oy w h : R) (t : Transform R) (p : Point R) :
  Transform.rotation t = 0 -> Transform.scale t = 1 ->
  canvasPoint ox oy w h t p
  = Point.mk (ox + Transform.translateX t + (Point.x p - w / 2))
             (oy + Transform.translateY t + (Point.y p - h / 2)).
Proof.
  intros Hr Hs. unfold canvasPoint. rewrite Hr, Hs. exact_arith.
  rewrite degrees_zero, cos_0, sin_0. f_equal; lra.
Qed.

(** C2 (amended). With both regions selected,
    [calculateAlignImagesTransform] returns scale 1, the current image's
    rotation, and the translation
    (ref translation + (ref region centre - ref centre))
      - (cur region centre - cur centre).
    Consequently, for three unrotated images of which image 0 is drawn at
    scale 1, aligning 1 to 0 and then 2 to 1 draws the three region centres
    at one canvas point. *)
Theorem alignToReference_chain :
  (forall (w1 h1 w2 h2 : R) (ref cur : Transform R) (a1 a2 : Area R),
      let t := calculateAlignImagesTransform w1 h1 ref w2 h2 cur (Some a1) (Some a2) in
      Transform.scale t = 1
      /\ Transform.rotation t = Transform.rotation cur
      /\ Transform.translateX t
         = (Transform.translateX ref + (Area.x a1 + Area.width a1 / 2 - w1 / 2))
           - (Area.x a2 + Area.width a2 / 2 - w2 / 2)
      /\ Transform.translateY t
         = (Transform.translateY ref + (Area.y a1 + Area.height a1 / 2 - h1 / 2))
           - (Area.y a2 + Area.height a2 / 2 - h2 / 2))
  /\ (forall (ox oy w0 h0 w1 h1 w2 h2 : R) (a0 a1 a2 : Area R)
             (t0 cur1 cur2 : Transform R),
      Transform.rotation t0 = 0 -> Transform.scale t0 = 1 ->
      Transform.rotation cur1 = 0 -> Transform.rotation cur2 = 0 ->
      let t1 := calculateAlignImagesTransform w0 h0 t0 w1 h1 cur1 (Some a0) (Some a1) in
      let t2 := calculateAlignImagesTransform w1 h1 t1 w2 h2 cur2 (Some a1) (Some a2) in
      canvasPoint ox oy w1 h1 t1 (calculateCenter a1)
      = canvasPoint ox oy w0 h0 t0 (calculateCenter a0)
      /\ canvasPoint ox oy w2 h2 t2 (calculateCenter a2)
         = canvasPoint ox oy w0 h0 t0 (calculateCenter a0)).
Proof.
  split.
  - intros w1 h1 w2 h2 ref cur a1 a2 t. subst t.
    unfold calculateAlignImagesTransform. transform_fields. exact_arith.
    repeat split; lra.
  - intros ox oy w0 h0 w1 h1 w2 h2 a0 a1 a2 t0 cur1 cur2 Hr0 Hs0 Hr1 Hr2 t1 t2.
    assert (Ht1 : Transform.rotation t1 = 0 /\ Transform.scale t1 = 1).
    { subst t1. unfold calculateAlignImagesTransform. transform_fields.
      exact_arith. split; [exact Hr1 | lra]. }
    assert (Ht2 : Transform.rotation t2 = 0 /\ Transform.scale t2 = 1).
    { subst t2. unfold calculateAlignImagesTransform. transform_fields.
      exact_arith. split; [exact Hr2 | lra]. }
    destruct Ht1 as [Hr1' Hs1']. destruct Ht2 as [Hr2' Hs2'].
    rewrite (canvasPoint_unrotated ox oy w1 h1 t1 _ Hr1' Hs1').
    rewrite (canvasPoint_unrotated ox oy w2 h2 t2 _ Hr2' Hs2').
    rewrite (canvasPoint_unrotated ox oy w0 h0 t0 _ Hr0 Hs0).
    subst t2 t1. unfold calculateAlignImagesTransform, calculateCenter.
    transform_fields. exact_arith.
    split; f_equal; lra.
Qed.
End TranslationSolvers.

(** The specification's end-to-end scenario, image 0 already centred. *)
Lemma alignToReference_chain_witness :
  let t0 := Transform.mk 1%R 0%R 375%R 275%R in
  let t1 := calculateAlignImagesTransform 1000%R 800%R t0 1000%R 800%R
              identityTransform (Some scenarioArea0) (Some scenarioArea1) in
  let t2 := calculateAlignImagesTransform 1000%R 800%R t1 1000%R 800%R
              identityTransform (Some scenarioArea1) (Some scenarioArea2) in
  canvasPoint 0%R 0%R 1000%R 800%R t1 (calculateCenter scenarioArea1)
  = canvasPoint 0%R 0%R 1000%R 800%R t0 (calculateCenter scenarioArea0)
  /\ canvasPoint 0%R 0%R 1000%R 800%R t2 (calculateCenter scenarioArea2)
     = canvasPoint 0%R 0%R 1000%R 800%R t0 (calculateCenter scenarioArea0).
Proof.
  cbv zeta.
  apply (proj2 alignToReference_chain);
    unfold identityTransform; transform_fields; exact_arith; reflexivity.
Defined.

Section ChainCounterexample.
Local Open Scope R_scope.

(** C2, as the specification words it, fails when image 0 is not drawn at
    scale 1: with image 0 at scale 2, unrotated and untranslated, the
    centre of its region is drawn at (-750, -550), and the centres of the
    regions of images 1 and 2, aligned 0 to 1 to 2, at (-375, -275). *)
Lemma reference_scale_breaks_chain :
  let t0 := Transform.mk 2 0 0 0 in
  let t1 := calculateAlignImagesTransform 1000 800 t0 1000 800
              identityTransform (Some scenarioArea0) (Some scenarioArea1) in
  let t2 := calculateAlignImagesTransform 1000 800 t1 1000 800
              identityTransform (Some scenarioArea1) (Some scenarioArea2) in
  Transform.rotation t0 = 0
  /\ canvasPoint 0 0 1000 800 t0 (calculateCenter scenarioArea0)
     = Point.mk (-750) (-550)
  /\ canvasPoint 0 0 1000 800 t1 (calculateCenter scenarioArea1)
     = Point.mk (-375) (-275)
  /\ canvasPoint 0 0 1000 800 t2 (calculateCenter scenarioArea2)
     = Point.mk (-375) (-275)
  /\ canvasPoint 0 0 1000 800 t1 (calculateCenter scenarioArea1)
     <> canvasPoint 0 0 1000 800 t0 (calculateCenter scenarioArea0).
Proof.
  cbv zeta.
  assert (H0 : canvasPoint 0 0 1000 800 (Transform.mk 2 0 0 0)
                 (calculateCenter scenarioArea0) = Point.mk (-750) (-550)).
  { unfold canvasPoint, calculateCenter, scenarioArea0.
    cbn [Area.x Area.y Area.width Area.height]. transform_fields. exact_arith.
    rewrite degrees_zero, cos_0, sin_0. f_equal; lra. }
  assert (H1 : canvasPoint 0 0 1000 800
                 (calculateAlignImagesTransform 1000 800 (Transform.mk 2 0 0 0)
                    1000 800 identityTransform
                    (Some scenarioArea0) (Some scenarioArea1))
                 (calculateCenter scenarioArea1) = Point.mk (-375) (-275)).
  { rewrite canvasPoint_unrotated.
    - unfold calculateAlignImagesTransform, calculateCenter, scenarioArea0,
        scenarioArea1.
      cbn [Area.x Area.y Area.width Area.height]. transform_fields. exact_arith.
      f_equal; lra.
    - unfold calculateAlignImagesTransform, identityTransform.
      transform_fields. exact_arith. reflexivity.
    - unfold calculateAlignImagesTransform. transform_fields. exact_arith.
      reflexivity. }
  repeat split.
  - exact H0.
  - exact H1.
  - rewrite canvasPoint_unrotated.
    + unfold calculateAlignImagesTransform, calculateCenter, scenarioArea0,
        scenarioArea1, scenarioArea2.
      cbn [Area.x Area.y Area.width Area.height]. transform_fields. exact_arith.
      f_equal; lra.
    + unfold calculateAlignImagesTransform, identityTransform.
      transform_fields. exact_arith. reflexivity.
    + unfold calculateAlignImagesTransform. transform_fields. exact_arith.
      reflexivity.
  - rewrite H0, H1. intros [= Hx _]. lra.
Qed.
End ChainCounterexample.

(** ** The transform algebra *)

Section TransformAlgebra.
Local Open Scope R_scope.

Lemma combineTransforms_single (t : Transform R) : combineTransforms [t] = t.
Proof.
  destruct t as [s r tx ty]. unfold combineTransforms, combineStep.
  cbn [fold_left]. transform_fields. exact_arith.
  rewrite degrees_zero, cos_0, sin_0. f_equal; lra.
Qed.

Lemma combineTransforms_pair (a b : Transform R) :
  combineTransforms [a; b] = combineStep a b.
Proof.
  change (combineTransforms [a; b])
    with (combineStep (combineTransforms [a]) b).
  now rewrite combineTransforms_single.
Qed.

(** C8. Composing with the identity transform on either side returns the
    other transform; [compose a b] adds the rotations, multiplies the scales
    and adds to [a]'s translation [b]'s translation turned by [a]'s
    rotation. *)
Theorem compose_identity :
  (forall T : Transform R,
      compose identityTransform T = T /\ compose T identityTransform = T)
  /\ (forall a b : Transform R,
      let rad := Transform.rotation a * PI / 180 in
      compose a b
      = Transform.mk
          (Transform.scale a * Transform.scale b)
          (Transform.rotation a + Transform.rotation b)
          (Transform.translateX a
           + (Transform.translateX b * cos rad - Transform.translateY b * sin rad))
          (Transform.translateY a
           + (Transform.translateX b * sin rad + Transform.translateY b * cos rad))).
Proof.
  split.
  - intros [s r tx ty]. unfold compose. rewrite !combineTransforms_pair.
    unfold combineStep, identityTransform. transform_fields. exact_arith.
    rewrite degrees_zero, cos_0, sin_0. split; f_equal; lra.
  - intros a b rad. unfold compose. rewrite combineTransforms_pair.
    unfold combineStep. subst rad. exact_arith. reflexivity.
Qed.
End TransformAlgebra.

(** ** Arrays and loops *)

Section Loops.
Context {A : Type}.

Lemma length_assignAt (i : nat) (v : A) (l : list A) :
  length (assignAt i v l) = length l.
Proof.
  revert i. induction l as [|a l IH]; intros [|i]; cbn; auto.
Qed.

Lemma nth_error_assignAt_eq (i : nat) (v : A) (l : list A) :
  i < length l -> nth_error (assignAt i v l) i = Some v.
Proof.
  revert i. induction l as [|a l IH]; intros [|i] Hi; cbn in *; try lia; auto.
  apply IH. lia.
Qed.

Lemma nth_error_assignAt_ne (i j : nat) (v : A) (l : list A) :
  i <> j -> nth_error (assignAt i v l) j = nth_error l j.
Proof.
  revert i j. induction l as [|a l IH]; intros [|i] [|j] Hij; cbn; auto;
    congruence.
Qed.

Lemma map_assignAt {B : Type} (f : A -> B) (i : nat) (v old : A) (l : list A) :
  nth_error l i = Some old -> f v = f old ->
  map f (assignAt i v l) = map f l.
Proof.
  revert i. induction l as [|a l IH]; intros [|i] Hold Hf; cbn in *; auto.
  - injection Hold as ->. now rewrite Hf.
  - f_equal. now apply IH.
Qed.
End Loops.

Section ForLoop.
Context {num : Type}.

(** A property of the index and the array that every turn carries on holds
    when the loop ends. *)
Lemma forLoop_invariant (body : list (ImageData num) -> nat -> list (ImageData num))
    (P : nat -> list (ImageData num) -> Prop) :
  (forall i l, P i l -> P (S i) (body l i)) ->
  forall turns start l, P start l -> P (start + turns) (forLoop body start turns l).
Proof.
  intros Hstep. induction turns as [|turns IH]; intros start l HP; cbn.
  - now rewrite Nat.add_0_r.
  - rewrite <- Nat.add_succ_comm. apply IH. now apply Hstep.
Qed.
End ForLoop.

(** ** The passes of the orchestrator *)

Section Orchestrator.
Context {num : Type} {N : JSNumber num} {I : JSInfinity num}.
Context {Mat Descriptors : Type} (cv : OpenCV num Mat Descriptors).

Lemma withTransform_same (image : ImageData num) :
  withTransform image (ImageData.transform image) = image.
Proof. now destruct image. Qed.

Lemma staticOf_withTransform (image : ImageData num) (t : Transform num) :
  staticOf (withTransform image t) = staticOf image.
Proof. reflexivity. Qed.

Lemma image_eq (a b : ImageData num) :
  staticOf a = staticOf b -> ImageData.transform a = ImageData.transform b -> a = b.
Proof.
  destruct a, b. unfold staticOf. cbn. intros Hs Ht.
  injection Hs as -> -> -> -> ->. now subst.
Qed.

Lemma transform_eq (t u : Transform num) :
  Transform.rotation t = Transform.rotation u ->
  (Transform.scale t, Transform.translateX t, Transform.translateY t)
  = (Transform.scale u, Transform.translateX u, Transform.translateY u) ->
  t = u.
Proof.
  destruct t, u. cbn. intros -> Hp. now injection Hp as -> -> ->.
Qed.

Lemma alignImagesTry_keeps (image1 image2 : ImageData num) (t : Transform num) :
  alignImagesTry cv image1 image2 = Ok t ->
  Transform.scale t = Transform.scale (ImageData.transform image2)
  /\ Transform.translateX t = Transform.translateX (ImageData.transform image2).
Proof.
  unfold alignImagesTry.
  destruct (negb (OpenCV.loaded cv)); [discriminate|].
  destruct (ImageData.selectedArea image1); [|discriminate].
  destruct (ImageData.selectedArea image2); [|discriminate].
  destruct (OpenCV.imageToMat cv (ImageData.url image1)); [|discriminate].
  destruct (OpenCV.imageToMat cv (ImageData.url image2)); [|discriminate].
  cbn [bindExc].
  destruct (OpenCV.extractORBFeatures cv a) as [f1|]; [|discriminate].
  destruct (OpenCV.extractORBFeatures cv a0) as [f2|]; [|discriminate].
  cbn [bindExc].
  destruct (Nat.ltb _ 3); [discriminate|].
  destruct (calculateOptimalRotation _ _ _ _ _); [|discriminate].
  cbn [bindExc]. intros [= <-]. now split.
Qed.

(** [alignImages] hands back the scale of the second image, whatever
    happens. *)
Lemma alignImages_scale (image1 image2 : ImageData num) :
  Transform.scale (AlignmentResult.transform (alignImages cv image1 image2))
  = Transform.scale (ImageData.transform image2).
Proof.
  unfold alignImages.
  destruct (alignImagesTry cv image1 image2) as [t|] eqn:Htry; [|reflexivity].
  cbn. now apply alignImagesTry_keeps in Htry.
Qed.

(** A turn of either loop writes at most the slot [i + 1], and there only
    the transform. *)
Lemma translationStep_shape (l : list (ImageData num)) (i : nat) :
  translationStep l i = l
  \/ exists next t, nth_error l (i + 1) = Some next
       /\ translationStep l i = assignAt (i + 1) (withTransform next t) l.
Proof.
  unfold translationStep.
  destruct (nth_error l i) as [cur|]; [|now left].
  destruct (nth_error l (i + 1)) as [next|] eqn:Hnext; [|now left].
  destruct (ImageData.selectedArea cur); [|now left].
  destruct (ImageData.selectedArea next); [|now left].
  right. eauto.
Qed.

Lemma rotationStep_shape (l : list (ImageData num)) (i : nat) :
  rotationStep cv l i = l
  \/ exists next r, nth_error l (i + 1) = Some next
       /\ rotationStep cv l i
          = assignAt (i + 1)
              (withTransform next
                 (Transform.mk (Transform.scale (ImageData.transform next)) r
                    (Transform.translateX (ImageData.transform next))
                    (Transform.translateY (ImageData.transform next)))) l.
Proof.
  unfold rotationStep.
  destruct (nth_error l i) as [cur|]; [|now left].
  destruct (nth_error l (i + 1)) as [next|] eqn:Hnext; [|now left].
  destruct (ImageData.selectedArea cur); [|now left].
  destruct (ImageData.selectedArea next); [|now left].
  destruct (AlignmentResult.success (alignImages cv cur next)); [|now left].
  right. eauto.
Qed.

Lemma translationStep_static (l : list (ImageData num)) (i : nat) :
  map staticOf (translationStep l i) = map staticOf l.
Proof.
  destruct (translationStep_shape l i) as [-> | (next & t & Hn & ->)]; auto.
  now apply map_assignAt with (old := next).
Qed.

Lemma rotationStep_static (l : list (ImageData num)) (i : nat) :
  map staticOf (rotationStep cv l i) = map staticOf l.
Proof.
  destruct (rotationStep_shape l i) as [-> | (next & r & Hn & ->)]; auto.
  now apply map_assignAt with (old := next).
Qed.

Lemma rotationStep_placement (l : list (ImageData num)) (i : nat) :
  map placementOf (rotationStep cv l i) = map placementOf l.
Proof.
  destruct (rotationStep_shape l i) as [-> | (next & r & Hn & ->)]; auto.
  now apply map_assignAt with (old := next).
Qed.

Lemma translationStep_elsewhere (l : list (ImageData num)) (i k : nat) :
  k <> i + 1 -> nth_error (translationStep l i) k = nth_error l k.
Proof.
  intros Hk.
  destruct (translationStep_shape l i) as [-> | (next & t & Hn & ->)]; auto.
  apply nth_error_assignAt_ne. congruence.
Qed.

Lemma rotationStep_elsewhere (l : list (ImageData num)) (i k : nat) :
  k <> i + 1 -> nth_error (rotationStep cv l i) k = nth_error l k.
Proof.
  intros Hk.
  destruct (rotationStep_shape l i) as [-> | (next & r & Hn & ->)]; auto.
  apply nth_error_assignAt_ne. congruence.
Qed.

Lemma rotationPass_placement (l : list (ImageData num)) :
  map placementOf (rotationPass cv l) = map placementOf l.
Proof.
  unfold rotationPass.
  apply (forLoop_invariant (rotationStep cv)
           (fun _ m => map placementOf m = map placementOf l)); auto.
  intros i m Hm. now rewrite rotationStep_placement.
Qed.

Lemma rotationPass_static (l : list (ImageData num)) :
  map staticOf (rotationPass cv l) = map staticOf l.
Proof.
  unfold rotationPass.
  apply (forLoop_invariant (rotationStep cv)
           (fun _ m => map staticOf m = map staticOf l)); auto.
  intros i m Hm. now rewrite rotationStep_static.
Qed.

Lemma translationPass_static (l : list (ImageData num)) :
  map staticOf (translationPass l) = map staticOf l.
Proof.
  unfold translationPass.
  apply (forLoop_invariant translationStep
           (fun _ m => map staticOf m = map staticOf l)); auto.
  intros i m Hm. now rewrite translationStep_static.
Qed.

Lemma centerFirst_static (l : list (ImageData num)) :
  map staticOf (centerFirst l) = map staticOf l.
Proof.
  unfold centerFirst. destruct (nth_error l 0) as [image0|] eqn:H0; auto.
  destruct (ImageData.selectedArea image0); auto.
  now apply map_assignAt with (old := image0).
Qed.

Lemma centerFirst_elsewhere (l : list (ImageData num)) (k : nat) :
  k <> 0 -> nth_error (centerFirst l) k = nth_error l k.
Proof.
  intros Hk. unfold centerFirst.
  destruct (nth_error l 0) as [image0|]; auto.
  destruct (ImageData.selectedArea image0); auto.
  apply nth_error_assignAt_ne. congruence.
Qed.

End Orchestrator.

Section SkippedPairs.
Context {num : Type} {N : JSNumber num} {I : JSInfinity num}.
Context {Mat Descriptors : Type} (cv : OpenCV num Mat Descriptors).

Lemma translationStep_length (l : list (ImageData num)) (i : nat) :
  length (translationStep l i) = length l.
Proof.
  destruct (translationStep_shape l i) as [-> | (next & t & Hn & ->)]; auto.
  apply length_assignAt.
Qed.

Lemma rotationStep_length (l : list (ImageData num)) (i : nat) :
  length (rotationStep cv l i) = length l.
Proof.
  destruct (rotationStep_shape cv l i) as [-> | (next & r & Hn & ->)]; auto.
  apply length_assignAt.
Qed.

(** Lists with the same image of [f] hold, slot by slot, elements with the
    same image of [f]. *)
Lemma nth_error_same_map {B : Type} (f : ImageData num -> B)
    (l m : list (ImageData num)) (k : nat) (a : ImageData num) :
  map f m = map f l -> nth_error l k = Some a ->
  exists b, nth_error m k = Some b /\ f b = f a.
Proof.
  intros Hmap Ha.
  assert (Hk : nth_error (map f m) k = Some (f a)).
  { rewrite Hmap. now apply map_nth_error. }
  rewrite nth_error_map in Hk.
  destruct (nth_error m k) as [b|]; [|discriminate].
  exists b. split; [reflexivity|]. now injection Hk.
Qed.

Lemma static_area (a b : ImageData num) :
  staticOf a = staticOf b ->
  ImageData.selectedArea a = ImageData.selectedArea b
  /\ ImageData.width a = ImageData.width b
  /\ ImageData.height a = ImageData.height b.
Proof. unfold staticOf. intros [= _ _ -> -> ->]. auto. Qed.

(** What the translation pass leaves in slot [j + 1]: the image found there,
    aligned to slot [j] as the pass left it when both have a region, and
    untouched otherwise. *)
Lemma translationPass_spec (l0 : list (ImageData num)) :
  length (translationPass l0) = length l0
  /\ nth_error (translationPass l0) 0 = nth_error l0 0
  /\ forall j cur next0,
       nth_error (translationPass l0) j = Some cur ->
       nth_error l0 (S j) = Some next0 ->
       nth_error (translationPass l0) (S j)
       = Some match ImageData.selectedArea cur, ImageData.selectedArea next0 with
              | Some _, Some _ =>
                  withTransform next0 (alignedTo cur (ImageData.transform cur) next0)
              | _, _ => next0
              end.
Proof.
  unfold translationPass.
  pose (P := fun (i : nat) (l : list (ImageData num)) =>
    length l = length l0
    /\ nth_error l 0 = nth_error l0 0
    /\ (forall k, i < k -> nth_error l k = nth_error l0 k)
    /\ forall j, j < i -> forall cur next0,
         nth_error l j = Some cur ->
         nth_error l0 (S j) = Some next0 ->
         nth_error l (S j)
         = Some match ImageData.selectedArea cur, ImageData.selectedArea next0 with
                | Some _, Some _ =>
                    withTransform next0 (alignedTo cur (ImageData.transform cur) next0)
                | _, _ => next0
                end).
  assert (HP : P (0 + (length l0 - 1))
                 (forLoop translationStep 0 (length l0 - 1) l0)).
  { apply forLoop_invariant.
    - intros i l (Hlen & H0 & Hafter & Hdone). repeat split.
      + now rewrite translationStep_length.
      + rewrite translationStep_elsewhere by lia. exact H0.
      + intros k Hk. rewrite translationStep_elsewhere by lia.
        apply Hafter. lia.
      + intros j Hj cur next0 Hcur Hnext0.
        destruct (Nat.eq_dec j i) as [->|Hne].
        * rewrite translationStep_elsewhere in Hcur by lia.
          assert (Hnext : nth_error l (i + 1) = Some next0).
          { rewrite Nat.add_1_r, Hafter by lia. exact Hnext0. }
          replace (S i) with (i + 1) by lia.
          unfold translationStep. rewrite Hcur, Hnext.
          destruct (ImageData.selectedArea cur) as [ca|] eqn:Hca.
          -- destruct (ImageData.selectedArea next0) as [na|] eqn:Hna; auto.
             rewrite nth_error_assignAt_eq.
             ++ unfold alignedTo. now rewrite Hca, Hna.
             ++ apply nth_error_Some. congruence.
          -- auto.
        * rewrite translationStep_elsewhere in Hcur by lia.
          rewrite translationStep_elsewhere by lia.
          apply Hdone; auto. lia.
    - repeat split; auto; intros j Hj; lia. }
  destruct HP as (Hlen & H0 & _ & Hdone).
  repeat split; auto.
  intros j cur next0 Hcur Hnext0. apply Hdone; auto.
  assert (S j < length l0) by (apply nth_error_Some; congruence). lia.
Qed.

(** The rotation pass leaves the second image of a pair alone when one of
    the two has no region. *)
Lemma rotationPass_skips (l1 : list (ImageData num)) :
  length (rotationPass cv l1) = length l1
  /\ forall j cur next,
       nth_error l1 j = Some cur -> nth_error l1 (S j) = Some next ->
       ImageData.selectedArea cur = None \/ ImageData.selectedArea next = None ->
       nth_error (rotationPass cv l1) (S j) = Some next.
Proof.
  unfold rotationPass.
  pose (P := fun (i : nat) (l : list (ImageData num)) =>
    length l = length l1
    /\ map staticOf l = map staticOf l1
    /\ (forall k, i < k -> nth_error l k = nth_error l1 k)
    /\ forall j, j < i -> forall cur next,
         nth_error l1 j = Some cur -> nth_error l1 (S j) = Some next ->
         ImageData.selectedArea cur = None \/ ImageData.selectedArea next = None ->
         nth_error l (S j) = Some next).
  assert (HP : P (0 + (length l1 - 1))
                 (forLoop (rotationStep cv) 0 (length l1 - 1) l1)).
  { apply forLoop_invariant.
    - intros i l (Hlen & Hstatic & Hafter & Hdone). repeat split.
      + now rewrite rotationStep_length.
      + now rewrite rotationStep_static.
      + intros k Hk. rewrite rotationStep_elsewhere by lia.
        apply Hafter. lia.
      + intros j Hj cur next Hcur Hnext Hnone.
        destruct (Nat.eq_dec j i) as [->|Hne].
        * destruct (@nth_error_same_map _ staticOf l1 l i cur Hstatic Hcur)
            as (cur' & Hcur' & Hsame).
          apply static_area in Hsame. destruct Hsame as (Harea & _).
          assert (Hnext' : nth_error l (i + 1) = Some next).
          { rewrite Nat.add_1_r, Hafter by lia. exact Hnext. }
          unfold rotationStep. rewrite Hcur', Hnext', Harea.
          rewrite Nat.add_1_r in Hnext'.
          destruct Hnone as [-> | ->]; [exact Hnext'|].
          destruct (ImageData.selectedArea cur); exact Hnext'.
        * rewrite rotationStep_elsewhere by lia. apply Hdone with (cur := cur); auto.
          lia.
    - repeat split; auto; intros j Hj; lia. }
  destruct HP as (Hlen & _ & _ & Hdone).
  split; auto.
  intros j cur next Hcur Hnext Hnone. apply Hdone with (cur := cur); auto.
  assert (S j < length l1) by (apply nth_error_Some; congruence). lia.
Qed.
(** What the rotation pass leaves in slot [j + 1]: the image found there,
    turned against slot [j] as the pass left it. *)
Lemma rotationPass_spec (l1 : list (ImageData num)) :
  length (rotationPass cv l1) = length l1
  /\ nth_error (rotationPass cv l1) 0 = nth_error l1 0
  /\ forall j cur next1,
       nth_error (rotationPass cv l1) j = Some cur ->
       nth_error l1 (S j) = Some next1 ->
       nth_error (rotationPass cv l1) (S j) = Some (turnedNext cv cur next1).
Proof.
  unfold rotationPass.
  pose (P := fun (i : nat) (l : list (ImageData num)) =>
    length l = length l1
    /\ nth_error l 0 = nth_error l1 0
    /\ (forall k, i < k -> nth_error l k = nth_error l1 k)
    /\ forall j, j < i -> forall cur next1,
         nth_error l j = Some cur ->
         nth_error l1 (S j) = Some next1 ->
         nth_error l (S j) = Some (turnedNext cv cur next1)).
  assert (HP : P (0 + (length l1 - 1))
                 (forLoop (rotationStep cv) 0 (length l1 - 1) l1)).
  { apply forLoop_invariant.
    - intros i l (Hlen & H0 & Hafter & Hdone). repeat split.
      + now rewrite rotationStep_length.
      + rewrite rotationStep_elsewhere by lia. exact H0.
      + intros k Hk. rewrite rotationStep_elsewhere by lia.
        apply Hafter. lia.
      + intros j Hj cur next1 Hcur Hnext1.
        destruct (Nat.eq_dec j i) as [->|Hne].
        * rewrite rotationStep_elsewhere in Hcur by lia.
          assert (Hnext : nth_error l (i + 1) = Some next1).
          { rewrite Nat.add_1_r, Hafter by lia. exact Hnext1. }
          replace (S i) with (i + 1) by lia.
          unfold rotationStep, turnedNext. rewrite Hcur, Hnext.
          destruct (ImageData.selectedArea cur); [|exact Hnext].
          destruct (ImageData.selectedArea next1); [|exact Hnext].
          cbv zeta.
          destruct (AlignmentResult.success (alignImages cv cur next1));
            [|exact Hnext].
          apply nth_error_assignAt_eq. apply nth_error_Some. congruence.
        * rewrite rotationStep_elsewhere in Hcur by lia.
          rewrite rotationStep_elsewhere by lia.
          apply Hdone; auto. lia.
    - repeat split; auto; intros j Hj; lia. }
  destruct HP as (Hlen & H0 & _ & Hdone).
  repeat split; auto.
  intros j cur next1 Hcur Hnext1. apply Hdone; auto.
  assert (S j < length l1) by (apply nth_error_Some; congruence). lia.
Qed.
End SkippedPairs.

Section GracefulDegradation.
Context {num : Type} {N : JSNumber num} {I : JSInfinity num}.
Context {Mat Descriptors : Type} (cv : OpenCV num Mat Descriptors).

(** The aligned transform depends on the reference through its static
    fields and its translation only. *)
Lemma alignedTo_reads (a a' b : ImageData num) (t t' : Transform num) :
  staticOf a' = staticOf a ->
  Transform.translateX t' = Transform.translateX t ->
  Transform.translateY t' = Transform.translateY t ->
  alignedTo a' t' b = alignedTo a t b.
Proof.
  intros Hs HX HY. apply static_area in Hs. destruct Hs as (Ha & Hw & Hh).
  unfold alignedTo, calculateAlignImagesTransform.
  now rewrite Ha, Hw, Hh, HX, HY.
Qed.

Lemma placement_translation (a b : ImageData num) :
  placementOf a = placementOf b ->
  Transform.translateX (ImageData.transform a)
  = Transform.translateX (ImageData.transform b)
  /\ Transform.translateY (ImageData.transform a)
     = Transform.translateY (ImageData.transform b).
Proof. unfold placementOf. intros [= _ -> ->]. auto. Qed.

(** The guard of the handlers: an image without a region stops them. *)
Lemma guard_needs_every_area (images : list (ImageData num))
    (image : ImageData num) :
  In image images -> ImageData.selectedArea image = None ->
  Nat.ltb 0 (length (imagesWithoutArea images)) = true.
Proof.
  intros Hin Hnone. apply Nat.ltb_lt.
  assert (Hin' : In image (imagesWithoutArea images)).
  { apply filter_In. split; [exact Hin|]. now rewrite Hnone. }
  destruct (imagesWithoutArea images); [destruct Hin' | cbn; lia].
Qed.

(** C6 (amended). When an image of a pair has no region, [alignAllImages]
    still returns the whole list and the second image of that pair comes
    back exactly as it went in (translation and rotation untouched). Every
    pair whose images both have a region is processed in both passes: its
    second image gets the translation of [calculateAlignImagesTransform]
    against the first, and then, when [alignImages] succeeds on the two,
    the rotation [alignImages] returns, scale and translation kept. Image 0
    is centred when it has a region. The handlers [handleAutoAlign] and
    [handleAlignByArea] never start such a run: they alert and leave the
    images as they are. *)
Theorem missing_region_pair_skipped (images : list (ImageData num)) (i : nat)
    (cur next : ImageData num) :
  nth_error images i = Some cur ->
  nth_error images (S i) = Some next ->
  ImageData.selectedArea cur = None \/ ImageData.selectedArea next = None ->
  length (alignAllImages cv images) = length images
  /\ nth_error (alignAllImages cv images) (S i) = Some next
  /\ (forall j a b,
        nth_error images j = Some a -> nth_error images (S j) = Some b ->
        ImageData.selectedArea a <> None -> ImageData.selectedArea b <> None ->
        exists a',
          nth_error (alignAllImages cv images) j = Some a'
          /\ let placed :=
               withTransform b (alignedTo a (ImageData.transform a') b) in
             let alignmentResult := alignImages cv a' placed in
             nth_error (alignAllImages cv images) (S j)
             = Some (if AlignmentResult.success alignmentResult
                     then withTransform placed
                            (Transform.mk
                               (Transform.scale (ImageData.transform placed))
                               (Transform.rotation
                                  (AlignmentResult.transform alignmentResult))
                               (Transform.translateX (ImageData.transform placed))
                               (Transform.translateY (ImageData.transform placed)))
                     else placed))
  /\ (forall image0,
        nth_error images 0 = Some image0 ->
        ImageData.selectedArea image0 <> None ->
        nth_error (alignAllImages cv images) 0
        = Some (withTransform image0 (centered image0)))
  /\ handleAutoAlign cv images = (images, AlertNeedEveryArea)
  /\ handleAlignByArea images = (images, AlertNeedEveryArea).
Proof.
  intros Hcur Hnext Hnone.
  assert (Hlen2 : Nat.ltb (length images) 2 = false).
  { apply Nat.ltb_ge.
    assert (S i < length images) by (apply nth_error_Some; congruence). lia. }
  assert (Hguard : Nat.ltb 0 (length (imagesWithoutArea images)) = true).
  { destruct Hnone as [Hnone | Hnone].
    - apply (guard_needs_every_area images cur); [|exact Hnone].
      now apply nth_error_In with (n := i).
    - apply (guard_needs_every_area images next); [|exact Hnone].
      now apply nth_error_In with (n := S i). }
  unfold handleAutoAlign, handleAlignByArea. rewrite Hguard.
  unfold alignAllImages. rewrite Hlen2.
  set (l0 := centerFirst images).
  set (l1 := translationPass l0).
  assert (Hs0 : map staticOf l0 = map staticOf images)
    by apply centerFirst_static.
  assert (Hs1 : map staticOf l1 = map staticOf images).
  { unfold l1. now rewrite translationPass_static. }
  destruct (translationPass_spec l0) as (Hlen1 & Hfirst1 & Hpair1).
  fold l1 in Hlen1, Hfirst1, Hpair1.
  destruct (rotationPass_skips cv l1) as (Hlen & Hskip).
  destruct (rotationPass_spec cv l1) as (_ & Hfirst & Hpair).
  assert (Hsm := rotationPass_static cv l1).
  assert (Hpm := rotationPass_placement cv l1).
  repeat split.
  - rewrite Hlen, Hlen1.
    apply (f_equal (@length _)) in Hs0. now rewrite !length_map in Hs0.
  - destruct (@nth_error_same_map _ _ staticOf images l1 i cur Hs1 Hcur)
      as (cur1 & Hcur1 & Hsame).
    apply static_area in Hsame. destruct Hsame as (Harea & _).
    assert (Hnext0 : nth_error l0 (S i) = Some next).
    { unfold l0. now rewrite centerFirst_elsewhere by lia. }
    apply Hskip with (cur := cur1); auto.
    + rewrite (Hpair1 i cur1 next Hcur1 Hnext0). rewrite Harea.
      destruct Hnone as [-> | ->]; auto.
      now destruct (ImageData.selectedArea cur).
    + now rewrite Harea.
  - intros j a b Ha Hb Haa Hab.
    destruct (@nth_error_same_map _ _ staticOf images l1 j a Hs1 Ha)
      as (a1 & Ha1 & Hsame1).
    assert (Hb0 : nth_error l0 (S j) = Some b).
    { unfold l0. now rewrite centerFirst_elsewhere by lia. }
    assert (Hb1 := Hpair1 j a1 b Ha1 Hb0).
    destruct (static_area Hsame1) as (Harea1 & _).
    rewrite Harea1 in Hb1.
    destruct (ImageData.selectedArea a) as [areaA|] eqn:HareaA; [|congruence].
    destruct (ImageData.selectedArea b) as [areaB|] eqn:HareaB; [|congruence].
    destruct (@nth_error_same_map _ _ placementOf l1 _ j a1 Hpm Ha1)
      as (a' & Ha' & Hplace).
    destruct (@nth_error_same_map _ _ staticOf l1 _ j a1 Hsm Ha1)
      as (a'' & Ha'' & Hstatic').
    rewrite Ha' in Ha''. injection Ha'' as <-.
    exists a'. split; [exact Ha'|]. cbv zeta.
    destruct (placement_translation Hplace) as (HX & HY).
    rewrite (@alignedTo_reads a a1 b (ImageData.transform a')
               (ImageData.transform a1) Hsame1 (eq_sym HX) (eq_sym HY)) in Hb1.
    rewrite (Hpair j a' _ Ha' Hb1). unfold turnedNext.
    destruct (static_area Hstatic') as (Harea' & _).
    rewrite Harea', Harea1. cbn [withTransform ImageData.selectedArea].
    rewrite HareaB. reflexivity.
  - intros image0 H0 Harea0.
    rewrite Hfirst, Hfirst1.
    unfold l0, centerFirst, centered. rewrite H0.
    destruct (ImageData.selectedArea image0) as [area|]; [|congruence].
    apply nth_error_assignAt_eq.
    apply nth_error_Some. congruence.
Qed.

(** C7. With fewer than three correspondences [calculateOptimalRotation]
    returns, without throwing, the rotation it was handed; and a pair that
    yields fewer than three filtered correspondences leaves the array as it
    is, the rotation loop going on with the next pair. *)
Theorem insufficient_correspondences :
  (forall (keypoints1 keypoints2 : list (KeyPoint num))
          (matches : list (DMatch num)) (currentRotation : num)
          (selectedAreaCenter : option (Point num)),
      length matches < 3 ->
      calculateOptimalRotation keypoints1 keypoints2 matches currentRotation
        selectedAreaCenter
      = Ok (RotationResult.mk currentRotation (num_lit 0)))
  /\ (forall (l : list (ImageData num)) (i : nat) (cur next : ImageData num),
      nth_error l i = Some cur -> nth_error l (i + 1) = Some next ->
      fewCorrespondences cv cur next ->
      AlignmentResult.success (alignImages cv cur next) = false
      /\ AlignmentResult.transform (alignImages cv cur next)
         = ImageData.transform next
      /\ rotationStep cv l i = l
      /\ forall turns,
           forLoop (rotationStep cv) i (S turns) l
           = forLoop (rotationStep cv) (S i) turns l).
Proof.
  split.
  - intros keypoints1 keypoints2 matches currentRotation center Hfew.
    unfold calculateOptimalRotation.
    apply Nat.ltb_lt in Hfew. now rewrite Hfew.
  - intros l i cur next Hcur Hnext Hfew.
    assert (Hthrow : exists message, alignImagesTry cv cur next = Throw message).
    { unfold alignImagesTry.
      destruct (negb (OpenCV.loaded cv)); [eauto|].
      destruct (ImageData.selectedArea cur); [|eauto].
      destruct (ImageData.selectedArea next); [|eauto].
      destruct (OpenCV.imageToMat cv (ImageData.url cur)) as [mat1|] eqn:Hm1;
        [|cbn; eauto].
      destruct (OpenCV.imageToMat cv (ImageData.url next)) as [mat2|] eqn:Hm2;
        [|cbn; eauto].
      cbn [bindExc].
      destruct (OpenCV.extractORBFeatures cv mat1) as [f1|] eqn:Hf1;
        [|cbn; eauto].
      destruct (OpenCV.extractORBFeatures cv mat2) as [f2|] eqn:Hf2;
        [|cbn; eauto].
      cbn [bindExc].
      specialize (Hfew mat1 mat2 f1 f2 Hm1 Hm2 Hf1 Hf2).
      apply Nat.ltb_lt in Hfew. rewrite Hfew. eauto. }
    destruct Hthrow as (message & Hthrow).
    assert (Hfail : AlignmentResult.success (alignImages cv cur next) = false).
    { unfold alignImages. now rewrite Hthrow. }
    assert (Hstep : rotationStep cv l i = l).
    { unfold rotationStep. rewrite Hcur, Hnext.
      destruct (ImageData.selectedArea cur); auto.
      destruct (ImageData.selectedArea next); auto.
      now rewrite Hfail. }
    repeat split; auto.
    + unfold alignImages. now rewrite Hthrow.
    + intros turns. cbn [forLoop]. now rewrite Hstep.
Qed.
End GracefulDegradation.

(** ** The scale *)

Section ScaleInvariant.
Context {num : Type} {N : JSNumber num} {I : JSInfinity num}.
Context {Mat Descriptors : Type} (cv : OpenCV num Mat Descriptors).

(** What the translation pass leaves of a scale: the scale itself, or the
    literal 1.0 of a translation solver. *)
Lemma translationPass_scale (images : list (ImageData num)) (k : nat)
    (image : ImageData num) :
  nth_error images k = Some image ->
  exists image',
    nth_error (translationPass (centerFirst images)) k = Some image'
    /\ (scaleOf image' = scaleOf image \/ scaleOf image' = num_lit 1.0).
Proof.
  intros Hk.
  destruct (translationPass_spec (centerFirst images)) as (Hlen & Hfirst & Hpair).
  destruct k as [|j].
  - rewrite Hfirst. unfold centerFirst. rewrite Hk.
    destruct (ImageData.selectedArea image) as [area|].
    + rewrite nth_error_assignAt_eq by (apply nth_error_Some; congruence).
      eexists. split; [reflexivity|]. right.
      unfold scaleOf, withTransform, calculateCenterImageTransform.
      reflexivity.
    + eexists. split; [exact Hk|]. now left.
  - assert (Hnext : nth_error (centerFirst images) (S j) = Some image).
    { now rewrite centerFirst_elsewhere by lia. }
    assert (Hj : j < length (translationPass (centerFirst images))).
    { rewrite Hlen. apply Nat.lt_succ_l. apply nth_error_Some. congruence. }
    destruct (nth_error (translationPass (centerFirst images)) j)
      as [cur|] eqn:Hcur; [|apply nth_error_Some in Hj; congruence].
    rewrite (Hpair j cur image Hcur Hnext).
    eexists. split; [reflexivity|].
    destruct (ImageData.selectedArea cur); [|now left].
    destruct (ImageData.selectedArea image); [|now left].
    right. unfold scaleOf, withTransform, alignedTo,
             calculateAlignImagesTransform.
    cbn [ImageData.transform].
    now destruct (ImageData.selectedArea cur), (ImageData.selectedArea image).
Qed.

(** C9 (amended). Both translation solvers return the scale 1.0 for every
    input, whatever the scale of the current transform, and the rotation
    solver leaves the scale alone: [alignImages] hands back the second
    image's scale, and the rotation pass leaves every image's scale as it
    was. So the core does change a scale that is not 1.0; after
    [alignAllImages] every image has the scale it came with or the scale
    1.0. *)
Theorem solvers_fix_scale :
  (forall (width height : num) (currentTransform : Transform num)
          (selectedArea : option (Area num)),
      Transform.scale
        (calculateCenterImageTransform width height currentTransform selectedArea)
      = num_lit 1.0)
  /\ (forall (w1 h1 w2 h2 : num) (t1 t2 : Transform num)
             (a1 a2 : option (Area num)),
      Transform.scale (calculateAlignImagesTransform w1 h1 t1 w2 h2 t2 a1 a2)
      = num_lit 1.0)
  /\ (forall image1 image2 : ImageData num,
      Transform.scale (AlignmentResult.transform (alignImages cv image1 image2))
      = scaleOf image2)
  /\ (forall images : list (ImageData num),
      map scaleOf (rotationPass cv images) = map scaleOf images)
  /\ (forall (images : list (ImageData num)) (k : nat) (image : ImageData num),
      nth_error images k = Some image ->
      exists image',
        nth_error (alignAllImages cv images) k = Some image'
        /\ (scaleOf image' = scaleOf image \/ scaleOf image' = num_lit 1.0)).
Proof.
  assert (Hrot : forall images : list (ImageData num),
             map scaleOf (rotationPass cv images) = map scaleOf images).
  { intros images.
    assert (Hp := rotationPass_placement cv images).
    apply (f_equal (map (fun p : num * num * num => fst (fst p)))) in Hp.
    now rewrite !map_map in Hp. }
  repeat split.
  - intros. unfold calculateCenterImageTransform.
    now destruct selectedArea.
  - intros. unfold calculateAlignImagesTransform.
    now destruct a1, a2.
  - intros. apply alignImages_scale.
  - exact Hrot.
  - intros images k image Hk. unfold alignAllImages.
    destruct (Nat.ltb (length images) 2).
    + exists image. split; [exact Hk | now left].
    + destruct (translationPass_scale images k Hk) as (mid & Hmid & Hscale).
      destruct (@nth_error_same_map _ _ scaleOf _ _ k mid
                  (Hrot (translationPass (centerFirst images))) Hmid)
        as (image' & Himage' & Hsame).
      exists image'. split; [exact Himage'|]. now rewrite Hsame.
Qed.
End ScaleInvariant.

(** C9, as the specification words it, fails: the core changes a scale.
    Two images at scale 2.5, each with a region, come back at scale 1.0
    from [alignAllImages] and from [alignImagesByAreaOnly], and
    [calculateCenterImageTransform] answers a current scale of 2.5 with
    1.0. *)
Lemma core_resets_scale :
  Transform.scale
    (calculateCenterImageTransform (N := Float64) (F64.of_Q 1000) (F64.of_Q 800)
       (Transform.mk (F64.of_Q 2.5) (F64.of_Q 0) (F64.of_Q 0) (F64.of_Q 0))
       (Some (Area.mk (F64.of_Q 100) (F64.of_Q 100) (F64.of_Q 50) (F64.of_Q 50))))
  = F64.of_Q 1
  /\ map scaleOf enlargedImages = [F64.of_Q 2.5; F64.of_Q 2.5]
  /\ map scaleOf (alignAllImages (N := Float64) offlineCv enlargedImages)
     = [F64.of_Q 1; F64.of_Q 1]
  /\ map scaleOf (alignImagesByAreaOnly (N := Float64) enlargedImages)
     = [F64.of_Q 1; F64.of_Q 1]
  /\ Floats.PrimFloat.eqb (F64.of_Q 2.5) (F64.of_Q 1) = false.
Proof. repeat split; vm_compute; reflexivity. Qed.

(** The second of the two images at scale 2.5. *)
Lemma solvers_fix_scale_witness :
  exists image',
    nth_error (alignAllImages (N := Float64) offlineCv enlargedImages) 1
    = Some image'
    /\ (scaleOf image' = F64.of_Q 2.5 \/ scaleOf image' = F64.of_Q 1.0).
Proof.
  exact (proj2 (proj2 (proj2 (proj2
           (@solvers_fix_scale F64.float Float64 Binary64Infinity unit unit
              offlineCv))))
           enlargedImages 1
           (withTransform
              (float64Image "image-1"
                 (Some (Area.mk (F64.of_Q 120) (F64.of_Q 90)
                                (F64.of_Q 50) (F64.of_Q 50))))
              (Transform.mk (F64.of_Q 2.5) (F64.of_Q 0) (F64.of_Q 0)
                            (F64.of_Q 0)))
           eq_refl).
Defined.

(** ** The correspondence filter *)

Section SortedDistances.
Local Open Scope R_scope.

Lemma insertAscending_perm (d : R) (l : list R) :
  Permutation (insertAscending d l) (d :: l).
Proof.
  induction l as [|h rest IH]; cbn; auto.
  destruct (Rleb d h); auto.
  rewrite IH. apply perm_swap.
Qed.

Lemma sortAscending_perm (l : list R) : Permutation (sortAscending l) l.
Proof.
  induction l as [|d l IH]; cbn; auto.
  rewrite insertAscending_perm. now constructor.
Qed.

Lemma insertAscending_sorted (d : R) (l : list R) :
  StronglySorted Rle l -> StronglySorted Rle (insertAscending d l).
Proof.
  induction 1 as [|h rest Hrest IH Hh]; cbn.
  - repeat constructor.
  - destruct (Rleb d h) eqn:Hdh.
    + apply Rleb_true in Hdh. constructor.
      * now constructor.
      * constructor; auto.
        eapply Forall_impl; [|exact Hh]. intros x Hx. cbn in Hx. lra.
    + apply Rleb_false in Hdh. constructor; auto.
      apply Forall_forall. intros x Hx.
      apply (Permutation_in _ (insertAscending_perm d rest)) in Hx.
      destruct Hx as [<- | Hx]; [lra|].
      rewrite Forall_forall in Hh. now apply Hh.
Qed.

Lemma sortAscending_sorted (l : list R) : StronglySorted Rle (sortAscending l).
Proof.
  induction l as [|d l IH]; cbn.
  - constructor.
  - now apply insertAscending_sorted.
Qed.

Lemma filter_length_perm (f : R -> bool) (l l' : list R) :
  Permutation l l' -> length (filter f l) = length (filter f l').
Proof.
  induction 1 as [|x l l' _ IH|x y l|l l' l'' _ IH1 _ IH2]; cbn; auto.
  - destruct (f x); cbn; auto.
  - destruct (f x), (f y); cbn; auto.
  - congruence.
Qed.

(** In an ascending list the element at index [k] has rank [k]. *)
Lemma sorted_rank (s : list R) :
  StronglySorted Rle s ->
  forall k d, (k < length s)%nat ->
    (countBelow (nth k s d) s <= k < countAtMost (nth k s d) s)%nat.
Proof.
  unfold countBelow, countAtMost.
  induction 1 as [|a s Hs IH Ha]; intros k d Hk; cbn in Hk; [lia|].
  rewrite Forall_forall in Ha.
  destruct k as [|k]; cbn [nth filter].
  - assert (Hfalse : Forall (fun x => Rltb x a = false) s).
    { apply Forall_forall. intros x Hx. apply Rltb_false. now apply Ha. }
    assert (Hnone : filter (fun x => Rltb x a) s = []).
    { clear - Hfalse. induction Hfalse as [|x s Hx _ IH]; cbn; auto.
      now rewrite Hx. }
    rewrite Hnone.
    rewrite (proj2 (Rltb_false a a)) by lra.
    rewrite (proj2 (Rleb_true a a)) by lra. cbn. lia.
  - assert (Hk' : (k < length s)%nat) by lia.
    specialize (IH k d Hk').
    assert (Ham : a <= nth k s d) by (apply Ha, nth_In, Hk').
    rewrite (proj2 (Rleb_true _ _) Ham).
    destruct (Rltb a (nth k s d)); cbn [length]; lia.
Qed.

(** [distances[Math.floor(distances.length / 2)]] of the sorted distances
    is the distance of that rank. *)
Lemma median_hasRank (c : R) (rest : list R) (d : R) :
  let distances := c :: rest in
  hasRank (length distances / 2) distances
          (nth (length distances / 2) (sortAscending distances) d).
Proof.
  intros distances.
  assert (Hperm := sortAscending_perm distances).
  assert (Hlen : length (sortAscending distances) = length distances)
    by now apply Permutation_length.
  assert (Hk : (length distances / 2 < length (sortAscending distances))%nat).
  { rewrite Hlen. apply Nat.div_lt; cbn; lia. }
  split.
  - apply (Permutation_in _ Hperm). now apply nth_In.
  - unfold countBelow, countAtMost.
    rewrite <- !(filter_length_perm _ Hperm).
    now apply sorted_rank; [apply sortAscending_sorted|].
Qed.
End SortedDistances.

Section FilterExact.
Local Open Scope R_scope.

Lemma reduceSum_exact (f : R -> R) (ds : list R) :
  reduceSum f ds = fold_right Rplus 0 (map f ds).
Proof.
  unfold reduceSum. rewrite lit_int. cbn [num_add ExactReal].
  assert (Hgen : forall a, fold_left (fun sum d => sum + f d) ds a
                           = a + fold_right Rplus 0 (map f ds)).
  { induction ds as [|d ds IH]; intros a; cbn.
    - lra.
    - rewrite IH. lra. }
  rewrite Hgen. lra.
Qed.

Lemma threshold_exact (m : R) :
  Math_min (num_lit 50) (num_mul m (num_lit 0.8)) = Rmin 50 (0.8 * m).
Proof.
  rewrite lit_int, lit_decimal. cbn [Math_min num_mul ExactReal].
  f_equal. lra.
Qed.

Lemma mean_exact (ds : list R) :
  (reduceSum (fun d => d) ds / num_of_nat (length ds))%js = mean ds.
Proof.
  rewrite reduceSum_exact, map_id. reflexivity.
Qed.

Lemma stdDev_exact (ds : list R) :
  Math_sqrt (reduceSum (fun d => Math_pow2 (d - mean ds)%js) ds
             / num_of_nat (length ds))%js
  = populationStdDev ds.
Proof.
  rewrite reduceSum_exact. reflexivity.
Qed.

(** Over the reals the body of [matchFeatures] is the two-step filter with
    step 2 reserved to four or more survivors, around the middle element of
    the sorted distances. *)
Lemma filterMatches_exact (ratio : list (DMatch R) -> list (DMatch R))
    (c : DMatch R) (rest : list (DMatch R)) :
  let l := c :: rest in
  filterMatches ratio l
  = shippedFilter (nth (length l / 2) (sortAscending (distancesOf l)) 0) l.
Proof.
  intros l. subst l.
  unfold filterMatches. cbv beta iota zeta. set (l := c :: rest).
  unfold enableRatioTest. cbn [andb].
  rewrite (lit_int 0).
  assert (Hlen : length (sortAscending (map DMatch.distance l)) = length l).
  { rewrite (Permutation_length (sortAscending_perm _)). apply length_map. }
  rewrite Hlen, threshold_exact.
  unfold shippedFilter, belowThreshold. fold (distancesOf l).
  cbn [num_lt ExactReal].
  set (kept := filter _ l).
  destruct (4 <=? length kept)%nat; [|reflexivity].
  unfold withoutOutliers. fold (distancesOf kept).
  rewrite mean_exact, stdDev_exact, lit_int. cbn [num_add num_mul ExactReal].
  apply filter_ext. intros m.
  set (t := mean _ + _).
  destruct (Rltb (DMatch.distance m) t) eqn:Hlt.
  - apply Rltb_true in Hlt. symmetry. apply negb_true_iff, Rleb_false. lra.
  - apply Rltb_false in Hlt. symmetry. apply negb_false_iff, Rleb_true. lra.
Qed.

Lemma median_of_matches (c : DMatch R) (rest : list (DMatch R)) :
  let l := c :: rest in
  hasRank (length l / 2) (distancesOf l)
          (nth (length l / 2) (sortAscending (distancesOf l)) 0).
Proof.
  intros l. subst l. unfold distancesOf.
  rewrite <- (length_map DMatch.distance (c :: rest)).
  apply (median_hasRank (DMatch.distance c) (map DMatch.distance rest) 0).
Qed.

Lemma count_le (f g : R -> bool) (l : list R) :
  (forall x, f x = true -> g x = true) ->
  (length (filter f l) <= length (filter g l))%nat.
Proof.
  intros Hfg. induction l as [|x l IH]; cbn; auto.
  destruct (f x) eqn:Hf.
  - rewrite (Hfg x Hf). cbn. lia.
  - destruct (g x); cbn; lia.
Qed.

(** Only one distance has a given rank. *)
Lemma hasRank_unique (k : nat) (ds : list R) (m m' : R) :
  hasRank k ds m -> hasRank k ds m' -> m = m'.
Proof.
  assert (Hlt : forall a b, hasRank k ds a -> hasRank k ds b -> ~ a < b).
  { intros a b (_ & _ & Ha) (_ & Hb & _) Hab.
    assert (countAtMost a ds <= countBelow b ds)%nat; [|lia].
    apply count_le. intros x Hx. apply Rleb_true in Hx. apply Rltb_true. lra. }
  intros Hm Hm'.
  destruct (Rtotal_order m m') as [H | [H | H]]; auto.
  - now apply Hlt in H.
  - now apply Hlt in H.
Qed.

(** Equal distances never pass step 1. *)
Lemma identical_distances_filtered (ratio : list (DMatch R) -> list (DMatch R))
    (l : list (DMatch R)) (d : R) :
  0 <= d -> Forall (fun c => DMatch.distance c = d) l ->
  filterMatches ratio l = [].
Proof.
  intros Hd Hall. destruct l as [|c rest]; [reflexivity|].
  rewrite filterMatches_exact.
  destruct (median_of_matches c rest) as (Hin & _).
  set (m := nth _ _ _) in *.
  assert (Hm : m = d).
  { unfold distancesOf in Hin. apply in_map_iff in Hin.
    destruct Hin as (x & <- & Hx).
    rewrite Forall_forall in Hall. now apply Hall. }
  rewrite Hm. unfold shippedFilter.
  assert (Hkept : belowThreshold d (c :: rest) = []).
  { unfold belowThreshold. clear - Hd Hall.
    induction Hall as [|x l Hx _ IH]; cbn; auto.
    rewrite Hx, IH.
    assert (Hmin := Rmin_r 50 (0.8 * d)).
    rewrite (proj2 (Rltb_false d _)); [reflexivity|lra]. }
  now rewrite Hkept.
Qed.

Lemma length_filter_le {A : Type} (f : A -> bool) (l : list A) :
  (length (filter f l) <= length l)%nat.
Proof.
  induction l as [|x l IH]; cbn; auto. destruct (f x); cbn; lia.
Qed.

(** Over the reals: on no correspondences [matchFeatures] returns none. On
    some, with [m] the distance at index floor(n/2) of the ascending
    distances, it keeps those strictly below min(50, 0.8 m); when at least
    four are kept it then drops those at or above mean + 2 sigma of the
    kept distances (population standard deviation), and when fewer are kept
    it returns them as they are. *)
Lemma matchFeatures_two_stage_exact {Mat Descriptors : Type}
    (cv : OpenCV R Mat Descriptors) (descriptors1 descriptors2 : Descriptors) :
  match OpenCV.BFMatcher_match cv descriptors1 descriptors2 with
  | [] => matchFeatures cv descriptors1 descriptors2 = []
  | c :: rest =>
      exists m,
        hasRank (length (c :: rest) / 2) (distancesOf (c :: rest)) m
        /\ matchFeatures cv descriptors1 descriptors2
           = shippedFilter m (c :: rest)
  end.
Proof.
  unfold matchFeatures.
  destruct (OpenCV.BFMatcher_match cv descriptors1 descriptors2) as [|c rest].
  - reflexivity.
  - eexists. split.
    + apply median_of_matches.
    + apply filterMatches_exact.
Qed.

(** C5 (amended). The filter never returns more than it was given; and
    given correspondences that all carry one non-negative distance it
    returns none of them. *)
Theorem filter_output_bounded :
  (forall (num : Type) (N : JSNumber num)
          (ratio : list (DMatch num) -> list (DMatch num))
          (l : list (DMatch num)),
      (length (filterMatches ratio l) <= length l)%nat)
  /\ (forall (ratio : list (DMatch R) -> list (DMatch R))
             (l : list (DMatch R)) (d : R),
      0 <= d -> Forall (fun c => DMatch.distance c = d) l ->
      filterMatches ratio l = []).
Proof.
  split.
  - intros num N ratio l. unfold filterMatches.
    destruct l as [|c rest]; [cbn; lia|].
    cbv zeta. unfold enableRatioTest. cbn [andb].
    set (kept := filter _ (c :: rest)).
    assert (Hkept : (length kept <= length (c :: rest))%nat)
      by apply length_filter_le.
    destruct (4 <=? length kept)%nat; auto.
    etransitivity; [apply length_filter_le | exact Hkept].
  - apply identical_distances_filtered.
Qed.
End FilterExact.

(** ** The rotation search *)

Section Scan.
Context {num : Type} {N : JSNumber num} {I : JSInfinity num}.
Variable total : num -> num.
Local Open Scope js_scope.

Lemma scan_best_in (candidates : list num) (state : num * num) :
  snd (fold_left (scanStep total) candidates state) = snd state
  \/ In (snd (fold_left (scanStep total) candidates state)) candidates.
Proof.
  revert state. induction candidates as [|a rest IH]; intros state; cbn.
  - now left.
  - destruct (IH (scanStep total state a)) as [Hsame | Hin]; [|now right; right].
    rewrite Hsame. unfold scanStep.
    destruct (total a <? fst state); cbn; auto.
Qed.

(** Once a candidate's total is below [Infinity], what the search started
    from is forgotten. *)
Lemma scan_independent (candidates : list num) (r1 r2 : num) :
  (exists a, In a candidates /\ (total a <? Infinity) = true) ->
  fold_left (scanStep total) candidates (Infinity, r1)
  = fold_left (scanStep total) candidates (Infinity, r2)
  /\ In (snd (fold_left (scanStep total) candidates (Infinity, r1))) candidates.
Proof.
  induction candidates as [|c rest IH]; intros (a & Ha & Hfinite).
  - destruct Ha.
  - cbn [fold_left].
    change (scanStep total (Infinity, r1) c)
      with (if total c <? Infinity then (total c, c) else (Infinity, r1)).
    change (scanStep total (Infinity, r2) c)
      with (if total c <? Infinity then (total c, c) else (Infinity, r2)).
    destruct (total c <? Infinity) eqn:Hc.
    + split; [reflexivity|].
      destruct (scan_best_in rest (total c, c)) as [Hsame | Hin].
      * rewrite Hsame. now left.
      * now right.
    + destruct Ha as [-> | Ha]; [congruence|].
      destruct IH as (Heq & Hin); [eauto|].
      split; [exact Heq | now right].
Qed.

(** No candidate beats [Infinity]: the rotation handed in comes back. *)
Lemma scan_nothing_finite (candidates : list num) (r : num) :
  (forall a, In a candidates -> (total a <? Infinity) = false) ->
  fold_left (scanStep total) candidates (Infinity, r) = (Infinity, r).
Proof.
  induction candidates as [|c rest IH]; intros Hall; cbn [fold_left]; auto.
  change (scanStep total (Infinity, r) c)
    with (if total c <? Infinity then (total c, c) else (Infinity, r)).
  rewrite (Hall c) by now left.
  apply IH. intros a Ha. apply Hall. now right.
Qed.

Hypothesis lt_trans : forall x y z : num,
  (x <? y) = true -> (y <? z) = true -> (x <? z) = true.
Hypothesis lt_below : forall x y m : num,
  (x <? m) = true -> (y <? m) = false -> (y <? Infinity) = true ->
  (x <? y) = true.

Lemma scan_invariant (rest processed : list num) (best : num) :
  firstMinimum total processed best ->
  (forall a, In a processed -> (total a <? Infinity) = true) ->
  (forall a, In a rest -> (total a <? Infinity) = true) ->
  let state := fold_left (scanStep total) rest (total best, best) in
  fst state = total (snd state)
  /\ firstMinimum total (processed ++ rest) (snd state).
Proof.
  revert processed best.
  induction rest as [|c rest IH]; intros processed best Hmin Hdone Hrest.
  - cbn. rewrite app_nil_r. auto.
  - cbn [fold_left].
    change (scanStep total (total best, best) c)
      with (if total c <? total best then (total c, c) else (total best, best)).
    assert (Hdone' : forall a, In a (processed ++ [c]) ->
                               (total a <? Infinity) = true).
    { intros a Ha. apply in_app_or in Ha. destruct Ha as [Ha | [<- | []]].
      - now apply Hdone.
      - apply Hrest. now left. }
    assert (Hrest' : forall a, In a rest -> (total a <? Infinity) = true).
    { intros a Ha. apply Hrest. now right. }
    replace (processed ++ c :: rest) with ((processed ++ [c]) ++ rest)
      by now rewrite <- app_assoc.
    destruct Hmin as (before & after & -> & Hbefore & Hafter).
    destruct (total c <? total best) eqn:Hc.
    + apply IH; auto.
      exists (before ++ best :: after), []. repeat split.
      * intros a Ha. apply in_app_or in Ha. destruct Ha as [Ha | [<- | Ha]].
        -- eapply lt_trans; [exact Hc | now apply Hbefore].
        -- exact Hc.
        -- eapply lt_below; [exact Hc | now apply Hafter |].
           apply Hdone. apply in_or_app. right. now right.
      * intros a [].
    + apply IH; auto.
      exists before, (after ++ [c]). repeat split.
      * now rewrite <- app_assoc.
      * exact Hbefore.
      * intros a Ha. apply in_app_or in Ha. destruct Ha as [Ha | [<- | []]]; auto.
Qed.

(** When every total is below [Infinity] the search ends on the first
    candidate of the least total. *)
Lemma scan_firstMinimum (candidates : list num) (r : num) :
  candidates <> [] ->
  (forall a, In a candidates -> (total a <? Infinity) = true) ->
  firstMinimum total candidates
    (snd (fold_left (scanStep total) candidates (Infinity, r))).
Proof.
  destruct candidates as [|c rest]; [congruence|]. intros _ Hall.
  cbn [fold_left].
  change (scanStep total (Infinity, r) c)
    with (if total c <? Infinity then (total c, c) else (Infinity, r)).
  rewrite (Hall c) by now left.
  refine (proj2 (@scan_invariant rest [c] c _ _ _)).
  - exists [], []. repeat split; intros a [].
  - intros a [<- | []]. apply Hall. now left.
  - intros a Ha. apply Hall. now right.
Qed.

Hypothesis lt_irrefl : forall x : num, (x <? x) = false.
Hypothesis lt_asym : forall x y : num, (x <? y) = true -> (y <? x) = false.

(** No candidate has a total below that of a first minimum. *)
Lemma firstMinimum_least (candidates : list num) (best : num) :
  firstMinimum total candidates best ->
  forall a, In a candidates -> (total a <? total best) = false.
Proof.
  intros (before & after & -> & Hbefore & Hafter) a Ha.
  apply in_app_or in Ha. destruct Ha as [Ha | [<- | Ha]].
  - apply lt_asym. now apply Hbefore.
  - apply lt_irrefl.
  - now apply Hafter.
Qed.
End Scan.

(** ** Binary64 *)

Module F64Order.
Import Floats.
Import SpecFloat.

Lemma SFltb_trans (x y z : spec_float) :
  SFltb x y = true -> SFltb y z = true -> SFltb x z = true.
Proof.
  unfold SFltb, SFcompare.
  destruct x as [sx|sx| |sx mx ex], y as [sy|sy| |sy my ey],
           z as [sz|sz| |sz mz ez];
    try destruct sx; try destruct sy; try destruct sz;
    try discriminate; try reflexivity.
  all: rewrite ?Pos.compare_cont_spec; unfold CompOpp, Pos.switch_Eq.
  all: destruct (Z.compare_spec ex ey), (Z.compare_spec ey ez),
                (Z.compare_spec ex ez);
       try lia; try discriminate; try reflexivity.
  all: subst.
  all: destruct (Pos.compare_spec mx my), (Pos.compare_spec my mz),
                (Pos.compare_spec mx mz);
       try lia; try discriminate; try reflexivity.
Qed.

(** [y] is a number (it is below +infinity) and not below [m], which [x]
    is: then [x] is below [y]. *)
Lemma SFltb_below (x y m : spec_float) :
  SFltb x m = true -> SFltb y m = false ->
  SFltb y (S754_infinity false) = true ->
  SFltb x y = true.
Proof.
  unfold SFltb, SFcompare.
  destruct x as [sx|sx| |sx mx ex], y as [sy|sy| |sy my ey],
           m as [sz|sz| |sz mz ez];
    try destruct sx; try destruct sy; try destruct sz;
    try discriminate; try reflexivity.
  all: rewrite ?Pos.compare_cont_spec; unfold CompOpp, Pos.switch_Eq.
  all: destruct (Z.compare_spec ex ey), (Z.compare_spec ey ez),
                (Z.compare_spec ex ez);
       try lia; try discriminate; try reflexivity.
  all: subst.
  all: destruct (Pos.compare_spec mx my), (Pos.compare_spec my mz),
                (Pos.compare_spec mx mz);
       try lia; try discriminate; try reflexivity.
Qed.

Lemma SFltb_asym (x y : spec_float) : SFltb x y = true -> SFltb y x = false.
Proof.
  unfold SFltb, SFcompare.
  destruct x as [sx|sx| |sx mx ex], y as [sy|sy| |sy my ey];
    try destruct sx; try destruct sy; try discriminate; try reflexivity.
  all: rewrite ?Pos.compare_cont_spec; unfold CompOpp, Pos.switch_Eq.
  all: destruct (Z.compare_spec ex ey), (Z.compare_spec ey ex);
       try lia; try discriminate; try reflexivity.
  all: subst.
  all: destruct (Pos.compare_spec mx my), (Pos.compare_spec my mx);
       try lia; try discriminate; try reflexivity.
Qed.

Lemma SFltb_irrefl (x : spec_float) : SFltb x x = false.
Proof.
  unfold SFltb, SFcompare.
  destruct x as [sx|sx| |sx mx ex]; try destruct sx; try reflexivity.
  all: rewrite ?Pos.compare_cont_spec; unfold CompOpp, Pos.switch_Eq.
  all: rewrite Z.compare_refl, Pos.compare_refl; reflexivity.
Qed.

Lemma ltb_trans (x y z : float) :
  ltb x y = true -> ltb y z = true -> ltb x z = true.
Proof. rewrite !ltb_spec. apply SFltb_trans. Qed.

Lemma ltb_asym (x y : float) : ltb x y = true -> ltb y x = false.
Proof. rewrite !ltb_spec. apply SFltb_asym. Qed.

Lemma ltb_irrefl (x : float) : ltb x x = false.
Proof. rewrite ltb_spec. apply SFltb_irrefl. Qed.

Lemma ltb_below (x y m : float) :
  ltb x m = true -> ltb y m = false -> ltb y infinity = true ->
  ltb x y = true.
Proof. rewrite !ltb_spec. apply SFltb_below. Qed.
End F64Order.

Section Binary64Search.
Variables mcos msin : F64.float -> F64.float.
Let engine : JSNumber F64.float := Binary64 mcos msin.
#[local] Existing Instance engine.
Local Open Scope js_scope.

(** In binary64 the loop visits 600 angles, from -30 to 29.900000000000315:
    the 601st sum of tenths is above 30. *)
Lemma scanAngles_binary64 :
  length (scanAngles (num := F64.float)) = 600
  /\ hd_error (scanAngles (num := F64.float)) = Some (num_lit (-30))
  /\ forallb (fun a => (num_lit (-30) <=? a) && (a <=? num_lit 30))
             (scanAngles (num := F64.float)) = true
  /\ forallb (fun a => a <? num_lit 29.95) (scanAngles (num := F64.float)) = true.
Proof. vm_compute. auto. Qed.

Lemma scanAngles_in_range (a : F64.float) :
  In a (scanAngles (num := F64.float)) ->
  (num_lit (-30) <=? a) = true /\ (a <=? num_lit 30) = true.
Proof.
  intros Ha.
  destruct scanAngles_binary64 as (_ & _ & Hrange & _).
  rewrite forallb_forall in Hrange. apply Hrange in Ha.
  now apply andb_true_iff in Ha.
Qed.

(** The inner loop computes the specification's residual. *)
Lemma residual_is_total (points1 points2 : list (Point F64.float))
    (center : Point F64.float) (angle : F64.float) :
  totalDistanceAt points1 points2 center angle
  = residual points1 points2 center angle.
Proof. reflexivity. Qed.

Lemma calculateOptimalRotation_scan
    (keypoints1 keypoints2 : list (KeyPoint F64.float))
    (matches : list (DMatch F64.float)) (currentRotation : F64.float)
    (selectedAreaCenter : option (Point F64.float))
    (points1 points2 : list (Point F64.float)) :
  3 <= length matches ->
  matchedPoints keypoints1 keypoints2 matches = Ok (points1, points2) ->
  calculateOptimalRotation keypoints1 keypoints2 matches currentRotation
    selectedAreaCenter
  = Ok (RotationResult.mk
          (snd (fold_left
                  (scanStep (residual points1 points2
                               (match selectedAreaCenter with
                                | Some c => c
                                | None => origin
                                end)))
                  scanAngles (Infinity, currentRotation)))
          (num_lit 0)).
Proof.
  intros Hlen Hpoints. unfold calculateOptimalRotation.
  assert (Hge : Nat.ltb (length matches) 3 = false) by now apply Nat.ltb_ge.
  rewrite Hge, Hpoints. reflexivity.
Qed.


(** C10 (amended). With at least three correspondences between key points
    that exist, and some scanned angle whose total distance is below
    Infinity, the returned angle lies in [-30, 30] and is the same whatever
    current rotation was handed in. *)
Theorem rotation_independent_of_current
    (keypoints1 keypoints2 : list (KeyPoint F64.float))
    (matches : list (DMatch F64.float)) (rotationA rotationB : F64.float)
    (selectedAreaCenter : option (Point F64.float))
    (points1 points2 : list (Point F64.float)) :
  let rotationCenter :=
    match selectedAreaCenter with Some c => c | None => origin end in
  3 <= length matches ->
  matchedPoints keypoints1 keypoints2 matches = Ok (points1, points2) ->
  (exists a, In a scanAngles
     /\ (residual points1 points2 rotationCenter a <? Infinity) = true) ->
  exists best,
    calculateOptimalRotation keypoints1 keypoints2 matches rotationA
      selectedAreaCenter
    = Ok (RotationResult.mk best (num_lit 0))
    /\ calculateOptimalRotation keypoints1 keypoints2 matches rotationB
         selectedAreaCenter
       = Ok (RotationResult.mk best (num_lit 0))
    /\ (num_lit (-30) <=? best) = true
    /\ (best <=? num_lit 30) = true.
Proof.
  intros rotationCenter Hlen Hpoints Hsome.
  destruct (scan_independent (residual points1 points2 rotationCenter)
              scanAngles rotationA rotationB Hsome) as (Heq & Hin).
  eexists. split; [|split].
  - apply calculateOptimalRotation_scan
      with (points1 := points1) (points2 := points2); assumption.
  - rewrite calculateOptimalRotation_scan
      with (points1 := points1) (points2 := points2) by assumption.
    fold rotationCenter. now rewrite <- Heq.
  - now apply scanAngles_in_range.
Qed.
End Binary64Search.

(** ** Overflow in the rotation search *)

Module F64Overflow.
Import Floats.
Import SpecFloat.
Import F64Class.
Local Open Scope float_scope.

Lemma zero_zeroOrNaN : zeroOrNaN (F64.of_Q 0).
Proof. exact I. Qed.

Lemma mul_zeroOrNaN (z c : float) : zeroOrNaN z -> zeroOrNaN (z * c).
Proof.
  unfold zeroOrNaN. rewrite mul_spec.
  destruct (Prim2SF z) as [sz|sz| |sz mz ez]; try easy;
    destruct (Prim2SF c) as [sc|sc| |sc mc ec]; easy.
Qed.

Lemma sub_zeroOrNaN (a b : float) :
  zeroOrNaN a -> zeroOrNaN b -> zeroOrNaN (a - b).
Proof.
  unfold zeroOrNaN. rewrite sub_spec.
  destruct (Prim2SF a) as [sa|sa| |sa ma ea]; try easy;
    destruct (Prim2SF b) as [sb|sb| |sb mb eb]; try easy.
  intros _ _. cbn. destruct sa, sb; easy.
Qed.

Lemma add_zeroOrNaN (a b : float) :
  zeroOrNaN a -> zeroOrNaN b -> zeroOrNaN (a + b).
Proof.
  unfold zeroOrNaN. rewrite add_spec.
  destruct (Prim2SF a) as [sa|sa| |sa ma ea]; try easy;
    destruct (Prim2SF b) as [sb|sb| |sb mb eb]; try easy.
  intros _ _. cbn. destruct sa, sb; easy.
Qed.

Local Abbreviation far := farCoordinate.

(** The far coordinate less a zero is itself; less NaN, NaN. *)
Lemma far_sub (u : float) : zeroOrNaN u -> far - u = far \/ Prim2SF (far - u) = S754_nan.
Proof.
  unfold zeroOrNaN. intros Hu.
  destruct (Prim2SF u) as [su|su| |su mu eu] eqn:Hsu; try easy.
  - left. apply Prim2SF_inj. rewrite sub_spec, Hsu. reflexivity.
  - right. rewrite sub_spec, Hsu. reflexivity.
Qed.

Lemma far_square (d : float) :
  d = far \/ Prim2SF d = S754_nan -> infOrNaN (d * d).
Proof.
  unfold infOrNaN. intros [-> | Hd].
  - vm_compute. exact I.
  - rewrite mul_spec, Hd. exact I.
Qed.

Lemma square_zeroOrNaN (d : float) : zeroOrNaN d -> zeroOrNaN (d * d).
Proof. apply mul_zeroOrNaN. Qed.

Lemma add_inf_zero (a b : float) : infOrNaN a -> zeroOrNaN b -> infOrNaN (a + b).
Proof.
  unfold infOrNaN, zeroOrNaN. rewrite add_spec.
  destruct (Prim2SF a) as [sa|[|]| |sa ma ea]; try easy;
    destruct (Prim2SF b) as [sb|sb| |sb mb eb]; easy.
Qed.

Lemma sqrt_infOrNaN (a : float) : infOrNaN a -> infOrNaN (sqrt a).
Proof.
  unfold infOrNaN. rewrite sqrt_spec.
  destruct (Prim2SF a) as [sa|[|]| |sa ma ea]; easy.
Qed.

Lemma add_infOrNaN (a b : float) :
  infOrNaN b -> zeroOrNaN a \/ infOrNaN a -> infOrNaN (a + b).
Proof.
  unfold infOrNaN, zeroOrNaN. rewrite add_spec.
  destruct (Prim2SF b) as [sb|[|]| |sb mb eb]; try easy;
    destruct (Prim2SF a) as [sa|[|]| |sa ma ea]; intros _ [H|H]; easy.
Qed.

Lemma infOrNaN_not_below (a : float) : infOrNaN a -> ltb a infinity = false.
Proof.
  unfold infOrNaN. rewrite ltb_spec.
  destruct (Prim2SF a) as [sa|[|]| |sa ma ea]; easy.
Qed.

(** Far from the origin every total is +Infinity or NaN, whatever
    [Math.cos] and [Math.sin] return. *)
Lemma far_residual (mcos msin : float -> float) (angle : float) :
  let farPoint := Point.mk far (F64.of_Q 0) in
  let zeroPoint := Point.mk (F64.of_Q 0) (F64.of_Q 0) in
  infOrNaN
    (residual (N := Binary64 mcos msin)
       [farPoint; farPoint; farPoint] [zeroPoint; zeroPoint; zeroPoint]
       (origin (N := Binary64 mcos msin)) angle).
Proof.
  intros farPoint zeroPoint.
  unfold residual, euclideanDistance, rotateAbout, origin, farPoint, zeroPoint.
  cbn [combine fold_left fst snd Point.x Point.y
       num_add num_sub num_mul num_div num_lit Math_sqrt Math_cos Math_sin
       Math_PI Binary64].
  set (c := mcos _). set (s := msin _).
  assert (Hz : zeroOrNaN (F64.of_Q 0 - F64.of_Q 0)) by exact I.
  set (x' := (F64.of_Q 0 - F64.of_Q 0) * c - (F64.of_Q 0 - F64.of_Q 0) * s
             + F64.of_Q 0).
  set (y' := (F64.of_Q 0 - F64.of_Q 0) * s + (F64.of_Q 0 - F64.of_Q 0) * c
             + F64.of_Q 0).
  assert (Hx : zeroOrNaN x').
  { apply add_zeroOrNaN; [|exact I].
    apply sub_zeroOrNaN; now apply mul_zeroOrNaN. }
  assert (Hy : zeroOrNaN y').
  { apply add_zeroOrNaN; [|exact I].
    apply add_zeroOrNaN; now apply mul_zeroOrNaN. }
  set (d := sqrt ((far - x') * (far - x')
                  + (F64.of_Q 0 - y') * (F64.of_Q 0 - y'))).
  assert (Hd : infOrNaN d).
  { apply sqrt_infOrNaN, add_inf_zero.
    - now apply far_square, far_sub.
    - apply mul_zeroOrNaN, sub_zeroOrNaN; [exact I | exact Hy]. }
  apply add_infOrNaN; [exact Hd | right].
  apply add_infOrNaN; [exact Hd | right].
  apply add_infOrNaN; [exact Hd | left; exact I].
Qed.
End F64Overflow.

Section FarPoints.
Variables mcos msin : F64.float -> F64.float.
Let engine : JSNumber F64.float := Binary64 mcos msin.
#[local] Existing Instance engine.
Local Open Scope js_scope.

(** Three correspondences, finite coordinates: every total overflows and
    the rotation handed in is returned. *)
Lemma far_points_keep_current (currentRotation : F64.float) :
  calculateOptimalRotation farKeypoints originKeypoints threeMatches
    currentRotation None
  = Ok (RotationResult.mk currentRotation (num_lit 0)).
Proof.
  rewrite calculateOptimalRotation_scan
    with (mcos := mcos) (msin := msin)
         (points1 := [Point.mk farCoordinate (F64.of_Q 0);
                      Point.mk farCoordinate (F64.of_Q 0);
                      Point.mk farCoordinate (F64.of_Q 0)])
         (points2 := [Point.mk (F64.of_Q 0) (F64.of_Q 0);
                      Point.mk (F64.of_Q 0) (F64.of_Q 0);
                      Point.mk (F64.of_Q 0) (F64.of_Q 0)]);
    [|cbn; lia|reflexivity].
  rewrite scan_nothing_finite; [reflexivity|].
  intros a _. apply F64Overflow.infOrNaN_not_below, F64Overflow.far_residual.
Qed.

Lemma not_scanned (a : F64.float) :
  (a <=? num_lit 30) = false -> ~ In a (scanAngles (num := F64.float)).
Proof.
  intros Ha Hin. apply (@scanAngles_in_range mcos msin) in Hin.
  destruct Hin as (_ & Hle). subst engine. rewrite Ha in Hle. discriminate.
Qed.
End FarPoints.

(** ** The documented variants *)

Section DocumentedFilter.
Local Open Scope R_scope.

(** Over the reals the filter printed in the implementation document is the
    two-step filter of the specification around the distance at index
    floor(n/2): there step 2 runs on every non-empty kept set. *)
Lemma documented_filter_exact (c : DMatch R) (rest : list (DMatch R)) :
  let l := c :: rest in
  Documented.filterMatches l
  = claimedFilter (nth (length l / 2) (sortAscending (distancesOf l)) 0) l.
Proof.
  intros l. subst l.
  unfold Documented.filterMatches. cbv beta iota zeta. set (l := c :: rest).
  rewrite (lit_int 0).
  assert (Hlen : length (sortAscending (map DMatch.distance l)) = length l).
  { rewrite (Permutation_length (sortAscending_perm _)). apply length_map. }
  rewrite Hlen, threshold_exact.
  unfold claimedFilter, belowThreshold. fold (distancesOf l).
  cbn [num_lt ExactReal].
  set (kept := filter _ l).
  destruct kept as [|k kept'] eqn:Hkept; [reflexivity|].
  rewrite <- Hkept. replace (0 <? length kept)%nat with true
    by (rewrite Hkept; reflexivity).
  unfold withoutOutliers. fold (distancesOf kept).
  rewrite mean_exact, stdDev_exact, lit_int. cbn [num_add num_mul ExactReal].
  apply filter_ext. intros m.
  set (t := mean _ + _).
  destruct (Rltb (DMatch.distance m) t) eqn:Hlt.
  - apply Rltb_true in Hlt. symmetry. apply negb_true_iff, Rleb_false. lra.
  - apply Rltb_false in Hlt. symmetry. apply negb_false_iff, Rleb_true. lra.
Qed.

(** The documented variant, too, returns nothing on equal distances. *)
Lemma documented_identical_distances (l : list (DMatch R)) (d : R) :
  0 <= d -> Forall (fun c => DMatch.distance c = d) l ->
  Documented.filterMatches l = [].
Proof.
  intros Hd Hall. destruct l as [|c rest]; [reflexivity|].
  rewrite documented_filter_exact.
  destruct (median_of_matches c rest) as (Hin & _).
  set (m := nth _ _ _) in *.
  assert (Hm : m = d).
  { unfold distancesOf in Hin. apply in_map_iff in Hin.
    destruct Hin as (x & <- & Hx).
    rewrite Forall_forall in Hall. now apply Hall. }
  rewrite Hm. unfold claimedFilter.
  assert (Hkept : belowThreshold d (c :: rest) = []).
  { unfold belowThreshold. clear - Hd Hall.
    induction Hall as [|x l Hx _ IH]; cbn; auto.
    rewrite Hx, IH.
    assert (Hmin := Rmin_r 50 (0.8 * d)).
    rewrite (proj2 (Rltb_false d _)); [reflexivity|lra]. }
  now rewrite Hkept.
Qed.
End DocumentedFilter.

Section DocumentedSearch.
Variables mcos msin : F64.float -> F64.float.
Let engine : JSNumber F64.float := Binary64 mcos msin.
#[local] Existing Instance engine.
Local Open Scope js_scope.

(** In steps of 0.5, every sum exact in binary64, the loop visits 121
    angles and ends on 30. *)
Lemma documented_scanAngles_binary64 :
  length (Documented.scanAngles (num := F64.float)) = 121
  /\ hd_error (Documented.scanAngles (num := F64.float)) = Some (num_lit (-30))
  /\ last (Documented.scanAngles (num := F64.float)) (num_lit 0) = num_lit 30
  /\ forallb (fun a => (num_lit (-30) <=? a) && (a <=? num_lit 30))
             (Documented.scanAngles (num := F64.float)) = true.
Proof. vm_compute. auto. Qed.

Lemma documented_scan
    (keypoints1 keypoints2 : list (KeyPoint F64.float))
    (matches : list (DMatch F64.float)) (currentRotation : F64.float)
    (selectedAreaCenter : option (Point F64.float))
    (points1 points2 : list (Point F64.float)) :
  3 <= length matches ->
  matchedPoints keypoints1 keypoints2 matches = Ok (points1, points2) ->
  Documented.calculateOptimalRotation keypoints1 keypoints2 matches
    currentRotation selectedAreaCenter
  = Ok (RotationResult.mk
          (snd (fold_left
                  (scanStep (residual points1 points2
                               (match selectedAreaCenter with
                                | Some c => c
                                | None => origin
                                end)))
                  Documented.scanAngles (Infinity, currentRotation)))
          (num_lit 0)).
Proof.
  intros Hlen Hpoints. unfold Documented.calculateOptimalRotation.
  assert (Hge : Nat.ltb (length matches) 3 = false) by now apply Nat.ltb_ge.
  rewrite Hge, Hpoints. reflexivity.
Qed.

(** The amended C3 and C10 on the documented variant: the same search over
    the 121 angles. *)
Lemma documented_rotation_search
    (keypoints1 keypoints2 : list (KeyPoint F64.float))
    (matches : list (DMatch F64.float)) (rotationA rotationB : F64.float)
    (selectedAreaCenter : option (Point F64.float))
    (points1 points2 : list (Point F64.float)) :
  let rotationCenter :=
    match selectedAreaCenter with Some c => c | None => origin end in
  3 <= length matches ->
  matchedPoints keypoints1 keypoints2 matches = Ok (points1, points2) ->
  (forall a, In a Documented.scanAngles ->
     (residual points1 points2 rotationCenter a <? Infinity) = true) ->
  exists best,
    Documented.calculateOptimalRotation keypoints1 keypoints2 matches
      rotationA selectedAreaCenter
    = Ok (RotationResult.mk best (num_lit 0))
    /\ Documented.calculateOptimalRotation keypoints1 keypoints2 matches
         rotationB selectedAreaCenter
       = Ok (RotationResult.mk best (num_lit 0))
    /\ firstMinimum (residual points1 points2 rotationCenter)
         Documented.scanAngles best
    /\ (num_lit (-30) <=? best) = true
    /\ (best <=? num_lit 30) = true.
Proof.
  intros rotationCenter Hlen Hpoints Hfinite.
  destruct documented_scanAngles_binary64 as (Hl & Hhd & _ & Hrange).
  assert (Hsome : exists a, In a Documented.scanAngles
            /\ (residual points1 points2 rotationCenter a <? Infinity) = true).
  { destruct (Documented.scanAngles (num := F64.float)) as [|a0 l] eqn:Hs;
      [discriminate|].
    exists a0. split; [now left|]. apply Hfinite. now left. }
  destruct (scan_independent (residual points1 points2 rotationCenter)
              Documented.scanAngles rotationA rotationB Hsome) as (Heq & Hin).
  eexists. split; [|split; [|split]].
  - apply documented_scan
      with (points1 := points1) (points2 := points2); assumption.
  - rewrite documented_scan
      with (points1 := points1) (points2 := points2) by assumption.
    fold rotationCenter. now rewrite <- Heq.
  - apply scan_firstMinimum; auto.
    + apply F64Order.ltb_trans.
    + apply F64Order.ltb_below.
    + intros Hnil. now rewrite Hnil in Hl.
  - rewrite forallb_forall in Hrange. apply Hrange in Hin.
    now apply andb_true_iff in Hin.
Qed.

(** The overflow run on the documented variant: the rotation handed in is
    returned there as well. *)
Lemma documented_far_points_keep_current (currentRotation : F64.float) :
  Documented.calculateOptimalRotation farKeypoints originKeypoints threeMatches
    currentRotation None
  = Ok (RotationResult.mk currentRotation (num_lit 0)).
Proof.
  rewrite documented_scan
    with (points1 := [Point.mk farCoordinate (F64.of_Q 0);
                      Point.mk farCoordinate (F64.of_Q 0);
                      Point.mk farCoordinate (F64.of_Q 0)])
         (points2 := [Point.mk (F64.of_Q 0) (F64.of_Q 0);
                      Point.mk (F64.of_Q 0) (F64.of_Q 0);
                      Point.mk (F64.of_Q 0) (F64.of_Q 0)]);
    [|cbn; lia|reflexivity].
  rewrite scan_nothing_finite; [reflexivity|].
  intros a _. apply F64Overflow.infOrNaN_not_below, F64Overflow.far_residual.
Qed.
End DocumentedSearch.

(** ** Concrete runs *)


(** C10, as stated, fails: the coordinates are finite, yet the result is
    whatever current rotation was handed in, inside [-30, 30] or not. *)
Lemma current_rotation_leaks :
  Floats.PrimFloat.is_finite farCoordinate = true
  /\ (forall mcos msin : F64.float -> F64.float,
      calculateOptimalRotation (N := Binary64 mcos msin)
        farKeypoints originKeypoints threeMatches (F64.of_Q 5) None
      = Ok (RotationResult.mk (F64.of_Q 5) (F64.of_Q 0))
      /\ calculateOptimalRotation (N := Binary64 mcos msin)
           farKeypoints originKeypoints threeMatches (F64.of_Q 7) None
         = Ok (RotationResult.mk (F64.of_Q 7) (F64.of_Q 0))
      /\ calculateOptimalRotation (N := Binary64 mcos msin)
           farKeypoints originKeypoints threeMatches (F64.of_Q 45) None
         = Ok (RotationResult.mk (F64.of_Q 45) (F64.of_Q 0)))
  /\ Floats.PrimFloat.eqb (F64.of_Q 5) (F64.of_Q 7) = false
  /\ Floats.PrimFloat.leb (F64.of_Q 45) (F64.of_Q 30) = false.
Proof.
  repeat split; try reflexivity; apply far_points_keep_current.
Qed.

Lemma near_totals_finite (a : F64.float) :
  In a (scanAngles (N := Float64)) ->
  @num_lt _ Float64
    (residual (N := Float64) (map KeyPoint.pt nearKeypoints1)
       (map KeyPoint.pt nearKeypoints2) (origin (N := Float64)) a)
    Infinity = true.
Proof.
  revert a. apply forallb_forall. vm_compute. reflexivity.
Qed.


Lemma rotation_independent_of_current_witness :
  exists best,
    calculateOptimalRotation (N := Float64) nearKeypoints1 nearKeypoints2
      nearMatches (F64.of_Q 45) None
    = Ok (RotationResult.mk best (F64.of_Q 0))
    /\ calculateOptimalRotation (N := Float64) nearKeypoints1 nearKeypoints2
         nearMatches (F64.of_Q (-3)) None
       = Ok (RotationResult.mk best (F64.of_Q 0))
    /\ @num_le _ Float64 (F64.of_Q (-30)) best = true
    /\ @num_le _ Float64 best (F64.of_Q 30) = true.
Proof.
  apply (@rotation_independent_of_current standInCos standInSin
           nearKeypoints1 nearKeypoints2 nearMatches
           (F64.of_Q 45) (F64.of_Q (-3)) None
           (map KeyPoint.pt nearKeypoints1) (map KeyPoint.pt nearKeypoints2)).
  - cbn. lia.
  - reflexivity.
  - exists (F64.of_Q (-30)). split.
    + left. reflexivity.
    + vm_compute. reflexivity.
Defined.

(** Decides the comparisons of closed real numbers. *)
Ltac decide_reals :=
  repeat match goal with
  | |- context [Rltb ?a ?b] =>
      first [ rewrite (proj2 (Rltb_true a b)) by lra
            | rewrite (proj2 (Rltb_false a b)) by lra ]
  | |- context [Rleb ?a ?b] =>
      first [ rewrite (proj2 (Rleb_true a b)) by lra
            | rewrite (proj2 (Rleb_false a b)) by lra ]
  end.

Section ConcreteFilters.
Local Open Scope R_scope.

(** The distances 1, 1, 5, 5, 5: the median is 5, the threshold 4, and two
    correspondences survive step 1. *)
Lemma small_set_rank : hasRank 2 [1; 1; 5; 5; 5] 5.
Proof.
  unfold hasRank, countBelow, countAtMost. split; [cbn; auto 6|].
  cbn [filter]. decide_reals. cbn. lia.
Qed.

Lemma small_set_median :
  let raw := matchesWithDistances [1; 1; 5; 5; 5] in
  nth (length raw / 2) (sortAscending (distancesOf raw)) 0 = 5.
Proof.
  cbv zeta.
  change (matchesWithDistances [1; 1; 5; 5; 5])
    with (DMatch.mk 0%nat 0%nat 1
          :: [DMatch.mk 1%nat 1%nat 1; DMatch.mk 2%nat 2%nat 5;
              DMatch.mk 3%nat 3%nat 5; DMatch.mk 4%nat 4%nat 5]).
  set (c := DMatch.mk 0%nat 0%nat 1).
  set (rest := [DMatch.mk 1%nat 1%nat 1; _; _; _]).
  apply (hasRank_unique (median_of_matches c rest)).
  exact small_set_rank.
Qed.

Lemma small_set_kept :
  belowThreshold 5 (matchesWithDistances [1; 1; 5; 5; 5])
  = [DMatch.mk 0%nat 0%nat 1; DMatch.mk 1%nat 1%nat 1].
Proof.
  assert (Hthr : Rmin 50 (0.8 * 5) = 4).
  { rewrite Rmin_right; lra. }
  unfold belowThreshold. rewrite Hthr. cbn. decide_reals. reflexivity.
Qed.

(** Mean 1 and deviation 0 put the outlier bound at 1: step 2 keeps
    neither survivor. *)
Lemma small_set_claimed :
  claimedFilter 5 (matchesWithDistances [1; 1; 5; 5; 5]) = [].
Proof.
  unfold claimedFilter. rewrite small_set_kept.
  assert (Hmean : mean [1; 1] = 1).
  { unfold mean. cbn. lra. }
  assert (Hsd : populationStdDev [1; 1] = 0).
  { unfold populationStdDev. rewrite Hmean. cbn [map fold_right length].
    replace ((Rsqr (1 - 1) + (Rsqr (1 - 1) + 0)) / INR 2) with 0.
    - apply sqrt_0.
    - unfold Rsqr. cbn. lra. }
  unfold withoutOutliers, distancesOf. cbn [map DMatch.distance].
  rewrite Hmean, Hsd. cbn [filter DMatch.distance]. decide_reals.
  reflexivity.
Qed.

(** Of the distances 1, 1, 5, 5, 5 the median is 5 and the threshold 4;
    two correspondences survive step 1 and are returned, where
    mean + 2 sigma = 1 would drop both. *)
Lemma outliers_kept_below_four :
  let raw := matchesWithDistances [1; 1; 5; 5; 5] in
  hasRank (length raw / 2) (distancesOf raw) 5
  /\ filterMatches (fun g => g) raw
     = [DMatch.mk 0%nat 0%nat 1; DMatch.mk 1%nat 1%nat 1]
  /\ claimedFilter 5 raw = [].
Proof.
  cbv zeta. split; [exact small_set_rank|]. split.
  - transitivity
      (shippedFilter
         (nth (length (matchesWithDistances [1; 1; 5; 5; 5]) / 2)
              (sortAscending (distancesOf (matchesWithDistances [1; 1; 5; 5; 5])))
              0)
         (matchesWithDistances [1; 1; 5; 5; 5])).
    + exact (filterMatches_exact (fun g => g) (DMatch.mk 0%nat 0%nat 1)
               [DMatch.mk 1%nat 1%nat 1; DMatch.mk 2%nat 2%nat 5;
                DMatch.mk 3%nat 3%nat 5; DMatch.mk 4%nat 4%nat 5]).
    + rewrite small_set_median.
      unfold shippedFilter. now rewrite small_set_kept.
  - exact small_set_claimed.
Qed.

(** On the same input the variant of the implementation document runs
    step 2 and returns nothing. *)
Lemma documented_small_set :
  Documented.filterMatches (matchesWithDistances [1; 1; 5; 5; 5]) = [].
Proof.
  transitivity
    (claimedFilter
       (nth (length (matchesWithDistances [1; 1; 5; 5; 5]) / 2)
            (sortAscending (distancesOf (matchesWithDistances [1; 1; 5; 5; 5])))
            0)
       (matchesWithDistances [1; 1; 5; 5; 5])).
  - exact (documented_filter_exact (DMatch.mk 0%nat 0%nat 1)
             [DMatch.mk 1%nat 1%nat 1; DMatch.mk 2%nat 2%nat 5;
                DMatch.mk 3%nat 3%nat 5; DMatch.mk 4%nat 4%nat 5]).
  - rewrite small_set_median. exact small_set_claimed.
Qed.

(** For an even count the code's median is the upper of the two middle
    distances: of 10, 12.5, 16, 30 it is 16, the threshold 12.8 keeps two
    correspondences, where the midpoint 14.25 of the middle pair would
    keep one. *)
Lemma median_is_upper_middle :
  let raw := matchesWithDistances [10; 12.5; 16; 30] in
  hasRank (length raw / 2) (distancesOf raw) 16
  /\ filterMatches (fun g => g) raw
     = [DMatch.mk 0%nat 0%nat 10; DMatch.mk 1%nat 1%nat 12.5]
  /\ belowThreshold ((12.5 + 16) / 2) raw = [DMatch.mk 0%nat 0%nat 10].
Proof.
  cbv zeta.
  assert (Hrank : hasRank 2 [10; 12.5; 16; 30] 16).
  { unfold hasRank, countBelow, countAtMost. split; [cbn; auto 6|].
    cbn [filter]. decide_reals. cbn. lia. }
  split; [exact Hrank|]. split.
  - change (matchesWithDistances [10; 12.5; 16; 30])
      with (DMatch.mk 0%nat 0%nat 10
            :: [DMatch.mk 1%nat 1%nat 12.5; DMatch.mk 2%nat 2%nat 16;
                DMatch.mk 3%nat 3%nat 30]).
    set (c := DMatch.mk 0%nat 0%nat 10).
    set (rest := [DMatch.mk 1%nat 1%nat 12.5; _; _]).
    rewrite filterMatches_exact.
    rewrite (hasRank_unique (median_of_matches c rest) Hrank).
    subst c rest. unfold shippedFilter, belowThreshold.
    rewrite Rmin_right by lra. cbn. decide_reals. reflexivity.
  - unfold belowThreshold. rewrite Rmin_right by lra. cbn. decide_reals.
    reflexivity.
Qed.



(** C5, as stated, fails: three correspondences of distance 10 go in and
    none comes out. *)
Lemma identical_distances_all_dropped :
  let raw := matchesWithDistances [10; 10; 10] in
  Forall (fun c => DMatch.distance c = 10) raw
  /\ filterMatches (fun g => g) raw = []
  /\ filterMatches (fun g => g) raw <> raw.
Proof.
  cbv zeta.
  assert (Hall : Forall (fun c : DMatch R => DMatch.distance c = 10)
                        (matchesWithDistances [10; 10; 10])).
  { repeat constructor. }
  assert (Hnone : filterMatches (fun g => g)
                    (matchesWithDistances [10; 10; 10]) = []).
  { apply identical_distances_filtered with (d := 10); [lra | exact Hall]. }
  repeat split; auto. rewrite Hnone. discriminate.
Qed.

Lemma filter_output_bounded_witness :
  filterMatches (fun g => g) (matchesWithDistances [10; 10; 10]) = [].
Proof.
  apply (proj2 filter_output_bounded) with (d := 10).
  - lra.
  - repeat constructor.
Defined.

(** Over the reals the loop visits the 601 angles -30, -29.9, ..., 30. *)
Lemma scanAngles_exact :
  scanAngles (N := ExactReal)
  = map (fun k => -30 + INR k / 10) (seq 0 601).
Proof.
  assert (Hgen : forall n k fuel, (k + n = 601)%nat -> (n < fuel)%nat ->
            scanAnglesFrom (N := ExactReal) fuel (-30 + INR k / 10)
            = map (fun k => -30 + INR k / 10) (seq k n)).
  { induction n as [|n IH]; intros k fuel Hk Hfuel;
      (destruct fuel as [|fuel]; [lia|]); cbn [scanAnglesFrom seq map].
    - assert (Hik : INR k = 601).
      { replace k with 601%nat by lia. rewrite INR_IZR_INZ. reflexivity. }
      rewrite lit_int. cbn [num_le ExactReal].
      rewrite (proj2 (Rleb_false _ _)); [reflexivity|]. rewrite Hik. lra.
    - assert (Hik : INR k <= 600).
      { replace 600 with (INR 600) by (rewrite INR_IZR_INZ; reflexivity).
        apply le_INR. lia. }
      rewrite lit_int, lit_decimal. cbn [num_le num_add ExactReal].
      rewrite (proj2 (Rleb_true _ _)) by lra.
      f_equal.
      replace (-30 + INR k / 10 + 1 / 10) with (-30 + INR (S k) / 10)
        by (rewrite S_INR; lra).
      apply IH; lia. }
  assert (Hstart : num_lit (num := R) (-30) = -30 + INR 0 / 10).
  { rewrite lit_int. cbn. lra. }
  unfold scanAngles. rewrite Hstart. apply Hgen; lia.
Qed.
End ConcreteFilters.

(** ** The filter in every number type *)

Section TwoStage.
Context {num : Type} {N : JSNumber num}.

Lemma comparableb_spec (distances : list num) :
  comparableb distances = true -> comparable distances.
Proof.
  unfold comparableb, comparable. intros H.
  rewrite forallb_forall in H. split.
  - intros a b Ha Hb. specialize (H a Ha). rewrite forallb_forall in H.
    specialize (H b Hb). apply andb_true_iff in H. destruct H as (H & _).
    now apply orb_true_iff in H.
  - intros a b c Ha Hb Hc Hab Hbc. specialize (H a Ha).
    rewrite forallb_forall in H. specialize (H b Hb).
    apply andb_true_iff in H. destruct H as (_ & H).
    rewrite forallb_forall in H. specialize (H c Hc).
    now rewrite Hab, Hbc in H.
Qed.

Lemma comparable_incl (shorter longer : list num) :
  incl shorter longer -> comparable longer -> comparable shorter.
Proof.
  intros Hincl (Htotal & Htrans). split.
  - intros a b Ha Hb. apply Htotal; now apply Hincl.
  - intros a b c Ha Hb Hc. apply Htrans; now apply Hincl.
Qed.

Lemma insertAscending_permutes (d : num) (l : list num) :
  Permutation (insertAscending d l) (d :: l).
Proof.
  induction l as [|h rest IH]; cbn; auto.
  destruct (num_le d h); auto.
  rewrite IH. apply perm_swap.
Qed.

Lemma sortAscending_permutes (l : list num) : Permutation (sortAscending l) l.
Proof.
  induction l as [|d l IH]; cbn; auto.
  rewrite insertAscending_permutes. now constructor.
Qed.

Lemma insertAscending_ordered (d : num) (l : list num) :
  comparable (d :: l) ->
  StronglySorted (fun a b => num_le a b = true) l ->
  StronglySorted (fun a b => num_le a b = true) (insertAscending d l).
Proof.
  intros Hcomp Hsorted. revert Hcomp.
  induction Hsorted as [|h rest Hrest IH Hh]; intros Hcomp; cbn.
  - repeat constructor.
  - destruct Hcomp as (Htotal & Htrans).
    pose proof (proj1 (Forall_forall _ _) Hh) as Hin.
    destruct (num_le d h) eqn:Hdh.
    + constructor; [now constructor|].
      constructor; [exact Hdh|].
      apply Forall_forall. intros x Hx.
      apply (Htrans d h x); cbn; auto.
    + constructor.
      * apply IH. apply comparable_incl with (longer := d :: h :: rest).
        -- intros x [<- | Hx]; cbn; auto.
        -- now split.
      * apply Forall_forall. intros x Hx.
        apply (Permutation_in _ (insertAscending_permutes d rest)) in Hx.
        destruct Hx as [<- | Hx]; [|now apply Hin].
        destruct (Htotal d h) as [Hle | Hle]; cbn; auto. congruence.
Qed.

Lemma sortAscending_ordered (l : list num) :
  comparable l ->
  StronglySorted (fun a b => num_le a b = true) (sortAscending l).
Proof.
  induction l as [|d l IH]; intros Hcomp; cbn.
  - constructor.
  - apply insertAscending_ordered.
    + apply comparable_incl with (longer := d :: l); [|exact Hcomp].
      intros x [<- | Hx]; [now left|]. right.
      now apply (Permutation_in _ (sortAscending_permutes l)).
    + apply IH. apply comparable_incl with (longer := d :: l); [|exact Hcomp].
      intros x Hx. now right.
Qed.

Lemma length_sortAscending (l : list num) :
  length (sortAscending l) = length l.
Proof. apply Permutation_length, sortAscending_permutes. Qed.

(** The shipped body is the two steps, step 2 from four survivors on. *)
Lemma filterMatches_two_stage (ratio : list (DMatch num) -> list (DMatch num))
    (c : DMatch num) (rest : list (DMatch num)) :
  let l := c :: rest in
  filterMatches ratio l
  = twoStageFilter 4
      (nth (length l / 2) (sortAscending (map DMatch.distance l)) (num_lit 0)) l.
Proof.
  intros l. subst l. unfold filterMatches, twoStageFilter, keptBelow,
    computedMean, computedStdDev.
  cbv beta iota zeta. unfold enableRatioTest. cbn [andb].
  rewrite length_sortAscending, length_map. reflexivity.
Qed.

(** The printed body is the two steps, step 2 always. *)
Lemma documented_two_stage (c : DMatch num) (rest : list (DMatch num)) :
  let l := c :: rest in
  Documented.filterMatches l
  = twoStageFilter 0
      (nth (length l / 2) (sortAscending (map DMatch.distance l)) (num_lit 0)) l.
Proof.
  intros l. subst l. unfold Documented.filterMatches, twoStageFilter, keptBelow,
    computedMean, computedStdDev.
  cbv beta iota zeta. rewrite length_sortAscending, length_map.
  cbn [Nat.leb].
  set (kept := filter _ (c :: rest)).
  destruct kept as [|k kept']; reflexivity.
Qed.

(** C4 (amended). For every number type, binary64 among them: on no
    correspondences both the shipped [matchFeatures] and the variant printed
    in the implementation document return none. On some, the distances are
    put in a list [sorted], a permutation of them that is ascending when the
    distances compare (none is NaN), and with [m] its entry at index
    floor(n/2) both keep the correspondences strictly below
    min(50, m * 0.8). The shipped function then, when at least four are
    kept, keeps of these the ones strictly below mean + 2 sigma, mean and
    deviation computed as the code computes them (running sums in list
    order, divided by the count), and returns fewer than four as they are;
    the printed variant runs this second step on whatever is kept. *)
Theorem matchFeatures_two_stage {Mat Descriptors : Type}
    (cv : OpenCV num Mat Descriptors) (descriptors1 descriptors2 : Descriptors) :
  let raw := OpenCV.BFMatcher_match cv descriptors1 descriptors2 in
  (raw = [] ->
   matchFeatures cv descriptors1 descriptors2 = []
   /\ Documented.matchFeatures cv descriptors1 descriptors2 = [])
  /\ (raw <> [] ->
      exists sorted,
        Permutation sorted (map DMatch.distance raw)
        /\ (comparable (map DMatch.distance raw) ->
            StronglySorted (fun a b => num_le a b = true) sorted)
        /\ let m := nth (length raw / 2) sorted (num_lit 0) in
           matchFeatures cv descriptors1 descriptors2 = twoStageFilter 4 m raw
           /\ Documented.matchFeatures cv descriptors1 descriptors2
              = twoStageFilter 0 m raw).
Proof.
  intros raw. unfold matchFeatures, Documented.matchFeatures. fold raw.
  split.
  - intros ->. split; reflexivity.
  - intros Hraw. destruct raw as [|c rest]; [congruence|].
    exists (sortAscending (map DMatch.distance (c :: rest))).
    split; [apply sortAscending_permutes|].
    split; [apply sortAscending_ordered|].
    split; [apply filterMatches_two_stage | apply documented_two_stage].
Qed.
End TwoStage.

Section TwoStageExact.
Local Open Scope R_scope.

(** Over the reals the computed mean and deviation are the mean and the
    population standard deviation, and the two steps are the filters in
    the specification's words. *)
Lemma twoStageFilter_exact (m : R) (l : list (DMatch R)) :
  twoStageFilter 4 m l = shippedFilter m l
  /\ twoStageFilter 0 m l = claimedFilter m l.
Proof.
  assert (Hstep2 : forall kept : list (DMatch R),
    keptBelow
      (num_add (computedMean (map DMatch.distance kept))
               (num_mul (num_lit 2) (computedStdDev (map DMatch.distance kept))))
      kept
    = withoutOutliers kept).
  { intros kept. unfold keptBelow, withoutOutliers, computedStdDev, computedMean.
    fold (distancesOf kept).
    rewrite mean_exact, stdDev_exact, lit_int. cbn [num_add num_mul num_lt ExactReal].
    apply filter_ext. intros c.
    set (t := mean _ + _).
    destruct (Rltb (DMatch.distance c) t) eqn:Hlt.
    - apply Rltb_true in Hlt. symmetry. apply negb_true_iff, Rleb_false. lra.
    - apply Rltb_false in Hlt. symmetry. apply negb_false_iff, Rleb_true. lra. }
  unfold twoStageFilter, shippedFilter, claimedFilter. cbv zeta.
  rewrite threshold_exact.
  change (keptBelow (Rmin 50 (0.8 * m)) l) with (belowThreshold m l).
  rewrite Hstep2. split; reflexivity.
Qed.

(** The two middle distances of 10, 12.5, 16, 30. *)
Lemma even_set_rank : hasRank 2 [10; 12.5; 16; 30] 16.
Proof.
  unfold hasRank, countBelow, countAtMost. split; [cbn; auto 6|].
  cbn [filter]. decide_reals. cbn. lia.
Qed.

Lemma even_set_lower_rank : hasRank 1 [10; 12.5; 16; 30] 12.5.
Proof.
  unfold hasRank, countBelow, countAtMost. split; [cbn; auto 6|].
  cbn [filter]. decide_reals. cbn. lia.
Qed.

(** The midpoint 14.25 of the two middle distances keeps one
    correspondence in step 1, and step 2 (mean 10, deviation 0) drops it. *)
Lemma even_set_claimed :
  claimedFilter ((12.5 + 16) / 2) (matchesWithDistances [10; 12.5; 16; 30]) = [].
Proof.
  unfold claimedFilter.
  assert (Hkept : belowThreshold ((12.5 + 16) / 2)
                    (matchesWithDistances [10; 12.5; 16; 30])
                  = [DMatch.mk 0%nat 0%nat 10]).
  { unfold belowThreshold. rewrite Rmin_right by lra. cbn. decide_reals.
    reflexivity. }
  rewrite Hkept.
  assert (Hmean : mean [10] = 10).
  { unfold mean. cbn. lra. }
  assert (Hsd : populationStdDev [10] = 0).
  { unfold populationStdDev. rewrite Hmean. cbn [map fold_right length].
    replace ((Rsqr (10 - 10) + 0) / INR 1) with 0.
    - apply sqrt_0.
    - unfold Rsqr. cbn. lra. }
  unfold withoutOutliers, distancesOf. cbn [map DMatch.distance].
  rewrite Hmean, Hsd. cbn [filter DMatch.distance]. decide_reals.
  reflexivity.
Qed.

(** Around the upper middle 16 step 1 keeps two correspondences, and
    step 2 (mean 11.25, deviation 1.25) keeps both. *)
Lemma even_set_documented :
  Documented.filterMatches (matchesWithDistances [10; 12.5; 16; 30])
  = [DMatch.mk 0%nat 0%nat 10; DMatch.mk 1%nat 1%nat 12.5].
Proof.
  change (matchesWithDistances [10; 12.5; 16; 30])
    with (DMatch.mk 0%nat 0%nat 10
          :: [DMatch.mk 1%nat 1%nat 12.5; DMatch.mk 2%nat 2%nat 16;
              DMatch.mk 3%nat 3%nat 30]).
  set (c := DMatch.mk 0%nat 0%nat 10).
  set (rest := [DMatch.mk 1%nat 1%nat 12.5; _; _]).
  rewrite documented_filter_exact.
  rewrite (hasRank_unique (median_of_matches c rest) even_set_rank).
  subst c rest. unfold claimedFilter.
  assert (Hkept : belowThreshold 16
                    [DMatch.mk 0%nat 0%nat 10; DMatch.mk 1%nat 1%nat 12.5;
                     DMatch.mk 2%nat 2%nat 16; DMatch.mk 3%nat 3%nat 30]
                  = [DMatch.mk 0%nat 0%nat 10; DMatch.mk 1%nat 1%nat 12.5]).
  { unfold belowThreshold. rewrite Rmin_right by lra. cbn. decide_reals.
    reflexivity. }
  rewrite Hkept.
  assert (Hmean : mean [10; 12.5] = 11.25).
  { unfold mean. cbn. lra. }
  assert (Hsd : populationStdDev [10; 12.5] = 1.25).
  { unfold populationStdDev. rewrite Hmean. cbn [map fold_right length].
    replace ((Rsqr (10 - 11.25) + (Rsqr (12.5 - 11.25) + 0)) / INR 2)
      with (1.25 * 1.25).
    - apply sqrt_square. lra.
    - unfold Rsqr. cbn. lra. }
  unfold withoutOutliers, distancesOf. cbn [map DMatch.distance].
  rewrite Hmean, Hsd. cbn [filter DMatch.distance]. decide_reals.
  reflexivity.
Qed.

Lemma boundary_rank :
  hasRank 5 [0; 0; 0; 0; 9; 62; 62; 62; 62; 62; 62] 62.
Proof.
  unfold hasRank, countBelow, countAtMost. split; [cbn; auto 12|].
  cbn [filter]. decide_reals. cbn. lia.
Qed.

(** Of the distances 0, 0, 0, 0, 9 and six times 62, step 1 keeps the
    first five; their mean is 1.8 and their deviation 3.6, so that
    mean + 2 sigma = 9 and step 2, as the specification words it, drops
    the distance 9. *)
Lemma boundary_claimed :
  claimedFilter 62
    (matchesWithDistances [0; 0; 0; 0; 9; 62; 62; 62; 62; 62; 62])
  = [DMatch.mk 0%nat 0%nat 0; DMatch.mk 1%nat 1%nat 0;
     DMatch.mk 2%nat 2%nat 0; DMatch.mk 3%nat 3%nat 0].
Proof.
  unfold claimedFilter.
  assert (Hkept : belowThreshold 62
                    (matchesWithDistances [0; 0; 0; 0; 9; 62; 62; 62; 62; 62; 62])
                  = [DMatch.mk 0%nat 0%nat 0; DMatch.mk 1%nat 1%nat 0;
                     DMatch.mk 2%nat 2%nat 0; DMatch.mk 3%nat 3%nat 0;
                     DMatch.mk 4%nat 4%nat 9]).
  { unfold belowThreshold. rewrite Rmin_right by lra. cbn. decide_reals.
    reflexivity. }
  rewrite Hkept.
  assert (Hmean : mean [0; 0; 0; 0; 9] = 1.8).
  { unfold mean. cbn. lra. }
  assert (Hsd : populationStdDev [0; 0; 0; 0; 9] = 3.6).
  { unfold populationStdDev. rewrite Hmean. cbn [map fold_right length].
    replace ((Rsqr (0 - 1.8) + (Rsqr (0 - 1.8) + (Rsqr (0 - 1.8)
               + (Rsqr (0 - 1.8) + (Rsqr (9 - 1.8) + 0))))) / INR 5)
      with (3.6 * 3.6).
    - apply sqrt_square. lra.
    - unfold Rsqr. cbn. lra. }
  unfold withoutOutliers, distancesOf. cbn [map DMatch.distance].
  rewrite Hmean, Hsd. cbn [filter DMatch.distance]. decide_reals.
  reflexivity.
Qed.
End TwoStageExact.

(** In binary64 the computed mean + 2 sigma of 0, 0, 0, 0, 9 is the next
    number above 9, and both variants keep the distance 9. *)
Lemma rounding_keeps_boundary :
  let raw := matchesWithDistances (map F64.of_Q boundaryDistances) in
  let kept := map F64.of_Q [0; 0; 0; 0; 9]%Q in
  filterMatches (N := Float64) (fun g => g) raw = firstn 5 raw
  /\ Documented.filterMatches (N := Float64) raw = firstn 5 raw
  /\ @num_lt _ Float64 (F64.of_Q 9)
       (@num_add _ Float64 (computedMean (N := Float64) kept)
          (@num_mul _ Float64 (F64.of_Q 2) (computedStdDev (N := Float64) kept)))
     = true.
Proof. repeat split; vm_compute; reflexivity. Qed.

(** C4, as the specification words it, fails in three ways.

    Of the distances 10, 12.5, 16, 30 the middle pair is 12.5 and 16 and
    the median their midpoint 14.25; around it step 1 keeps one
    correspondence and step 2 drops it. The shipped function and the
    printed variant both return two correspondences, over the reals and in
    binary64: they take the upper middle distance 16.

    Of 1, 1, 5, 5, 5 the median is 5; the shipped function returns the two
    survivors of step 1, which step 2 would drop: it runs step 2 only from
    four survivors on.

    Of 0, 0, 0, 0, 9 and six times 62 the median is 62 and
    mean + 2 sigma of the five kept distances is 9, so that the distance 9
    is to be dropped; in binary64 both variants keep it: the computed bound
    is the next number above 9. *)
Lemma claimed_filter_fails :
  (let raw := matchesWithDistances [10; 12.5; 16; 30]%R in
   let raw64 := matchesWithDistances (map F64.of_Q [10; 12.5; 16; 30]%Q) in
   hasRank (length raw / 2 - 1) (distancesOf raw) 12.5%R
   /\ hasRank (length raw / 2) (distancesOf raw) 16%R
   /\ claimedFilter ((12.5 + 16) / 2)%R raw = []
   /\ filterMatches (fun g => g) raw = firstn 2 raw
   /\ Documented.filterMatches raw = firstn 2 raw
   /\ filterMatches (N := Float64) (fun g => g) raw64 = firstn 2 raw64
   /\ Documented.filterMatches (N := Float64) raw64 = firstn 2 raw64)
  /\ (let raw := matchesWithDistances [1; 1; 5; 5; 5]%R in
      let raw64 := matchesWithDistances (map F64.of_Q [1; 1; 5; 5; 5]%Q) in
      hasRank (length raw / 2) (distancesOf raw) 5%R
      /\ claimedFilter 5%R raw = []
      /\ filterMatches (fun g => g) raw = firstn 2 raw
      /\ filterMatches (N := Float64) (fun g => g) raw64 = firstn 2 raw64)
  /\ (let raw := matchesWithDistances
                   [0; 0; 0; 0; 9; 62; 62; 62; 62; 62; 62]%R in
      let raw64 := matchesWithDistances (map F64.of_Q boundaryDistances) in
      hasRank (length raw / 2) (distancesOf raw) 62%R
      /\ claimedFilter 62%R raw = firstn 4 raw
      /\ filterMatches (N := Float64) (fun g => g) raw64 = firstn 5 raw64
      /\ Documented.filterMatches (N := Float64) raw64 = firstn 5 raw64).
Proof.
  split; [|split].
  - cbv zeta. split; [exact even_set_lower_rank|].
    split; [exact even_set_rank|]. split; [exact even_set_claimed|].
    split; [exact (proj1 (proj2 median_is_upper_middle))|].
    split; [exact even_set_documented|].
    split; vm_compute; reflexivity.
  - cbv zeta. destruct outliers_kept_below_four as (Hrank & Hshipped & Hclaimed).
    split; [exact Hrank|]. split; [exact Hclaimed|].
    split; [exact Hshipped|]. vm_compute. reflexivity.
  - cbv zeta. split; [exact boundary_rank|].
    split; [exact boundary_claimed|].
    split; [exact (proj1 rounding_keeps_boundary)|].
    exact (proj1 (proj2 rounding_keeps_boundary)).
Qed.

(** A run in binary64: the distances 0, 0, 0, 0, 9 and six times 62
    compare, and both variants are the two steps around the middle of
    their sorted list. *)
Lemma matchFeatures_two_stage_witness :
  let raw := matchesWithDistances (map F64.of_Q boundaryDistances) in
  exists sorted,
    Permutation sorted (map DMatch.distance raw)
    /\ StronglySorted (fun a b => @num_le _ Float64 a b = true) sorted
    /\ let m := nth (length raw / 2) sorted (F64.of_Q 0) in
       matchFeatures (N := Float64) (matcherCv raw) tt tt
       = twoStageFilter (N := Float64) 4 m raw
       /\ Documented.matchFeatures (N := Float64) (matcherCv raw) tt tt
          = twoStageFilter (N := Float64) 0 m raw.
Proof.
  intros raw.
  destruct (proj2 (@matchFeatures_two_stage F64.float Float64 unit unit
                     (matcherCv raw) tt tt))
    as (sorted & Hperm & Hsorted & Hequations).
  - discriminate.
  - exists sorted. split; [exact Hperm|]. split; [|exact Hequations].
    apply Hsorted. apply comparableb_spec. vm_compute. reflexivity.
Defined.


(** Four images of which the third has no region, and a detector that
    works: image 2 comes back as it went in, the pair of images 0 and 1 is
    processed in both passes, and the handler refuses the list. *)
Lemma missing_region_pair_skipped_witness :
  let final := alignAllImages (N := Float64) detectorCv pairedImages in
  length final = length pairedImages
  /\ nth_error final 2 = nth_error pairedImages 2
  /\ (exists a' b,
        nth_error pairedImages 1 = Some b
        /\ nth_error final 0 = Some a'
        /\ let placed :=
             withTransform b
               (alignedTo (N := Float64)
                  (float64Image "image-0"
                     (Some (Area.mk (F64.of_Q 100) (F64.of_Q 100)
                                    (F64.of_Q 50) (F64.of_Q 50))))
                  (ImageData.transform a') b) in
           let alignmentResult := alignImages (N := Float64) detectorCv a' placed in
           nth_error final 1
           = Some (if AlignmentResult.success alignmentResult
                   then withTransform placed
                          (Transform.mk
                             (Transform.scale (ImageData.transform placed))
                             (Transform.rotation
                                (AlignmentResult.transform alignmentResult))
                             (Transform.translateX (ImageData.transform placed))
                             (Transform.translateY (ImageData.transform placed)))
                   else placed))
  /\ handleAutoAlign (N := Float64) detectorCv pairedImages
     = (pairedImages, AlertNeedEveryArea).
Proof.
  cbv zeta.
  destruct (@missing_region_pair_skipped F64.float Float64 Binary64Infinity
              _ unit detectorCv pairedImages 1
              (float64Image "image-1"
                 (Some (Area.mk (F64.of_Q 120) (F64.of_Q 90)
                                (F64.of_Q 50) (F64.of_Q 50))))
              (float64Image "image-2" None)
              eq_refl eq_refl (or_intror eq_refl))
    as (Hlength & Hskipped & Hpairs & _ & Hhandler & _).
  split; [exact Hlength|]. split; [exact Hskipped|]. split; [|exact Hhandler].
  destruct (Hpairs 0 _ _ eq_refl eq_refl) as (a' & Ha' & Hb'); try discriminate.
  exists a'. eexists. split; [reflexivity|]. split; [exact Ha' | exact Hb'].
Defined.

(** The run of the witness, in binary64: image 0 is centred, image 1 is
    moved onto it and turned by the angle of the scan that is nearest to
    1.1 degrees, and images 2 and 3 are as they were. *)
Lemma paired_run :
  let final := alignAllImages (N := Float64) detectorCv pairedImages in
  map placementOf final
  = [ (F64.of_Q 1, F64.of_Q 375, F64.of_Q 275);
      (F64.of_Q 1, F64.of_Q 355, F64.of_Q 285);
      (F64.of_Q 1, F64.of_Q 0, F64.of_Q 0);
      (F64.of_Q 1, F64.of_Q 0, F64.of_Q 0) ]
  /\ (exists turn,
        map (fun image => Transform.rotation (ImageData.transform image)) final
        = [F64.of_Q 0; turn; F64.of_Q 0; F64.of_Q 0]
        /\ Floats.PrimFloat.ltb (F64.of_Q 1.09) turn = true
        /\ Floats.PrimFloat.ltb turn (F64.of_Q 1.11) = true)
  /\ map staticOf final = map staticOf pairedImages.
Proof.
  cbv zeta. split; [vm_compute; reflexivity|]. split; [|vm_compute; reflexivity].
  eexists. split; [vm_compute; reflexivity|].
  split; vm_compute; reflexivity.
Qed.

(** C6, as the specification words it, fails on the handlers it is read
    from: given the four images of which the third has no region,
    [handleAutoAlign] and [handleAlignByArea] alert and leave every image
    where it was, image 0 at the translation 0, where the passes themselves
    give it the translation 375: the run does not go on, and the pair before
    the image without a region is not processed. *)
Lemma handlers_refuse_missing_region :
  handleAutoAlign (N := Float64) detectorCv pairedImages
  = (pairedImages, AlertNeedEveryArea)
  /\ handleAlignByArea (N := Float64) pairedImages
     = (pairedImages, AlertNeedEveryArea)
  /\ map (fun image => Transform.translateX (ImageData.transform image))
         pairedImages
     = [F64.of_Q 0; F64.of_Q 0; F64.of_Q 0; F64.of_Q 0]
  /\ map (fun image => Transform.translateX (ImageData.transform image))
         (alignAllImages (N := Float64) detectorCv pairedImages)
     = [F64.of_Q 375; F64.of_Q 355; F64.of_Q 0; F64.of_Q 0]
  /\ Floats.PrimFloat.eqb (F64.of_Q 375) (F64.of_Q 0) = false.
Proof. repeat split; vm_compute; reflexivity. Qed.

(** One correspondence, pointing at key points that do not exist. *)
Lemma insufficient_correspondences_witness :
  calculateOptimalRotation (N := Float64) [] []
    [DMatch.mk 7 9 (F64.of_Q 12)] (F64.of_Q 12.5) None
  = Ok (RotationResult.mk (F64.of_Q 12.5) (F64.of_Q 0)).
Proof.
  apply (proj1 (@insufficient_correspondences F64.float Float64
                  Binary64Infinity unit unit offlineCv)).
  cbn. lia.
Defined.

(** ** The button handlers *)

Section HandlerGuards.
Context {num : Type} {N : JSNumber num} {I : JSInfinity num}.
Context {Mat Descriptors : Type} (cv : OpenCV num Mat Descriptors).

(** The handlers of [App.tsx] never start a run on a list in which an image
    has no region: the pair skipping of the passes is met only by callers of
    the orchestrator itself. *)
Lemma handlers_require_every_area (images : list (ImageData num))
    (image : ImageData num) :
  2 <= length images -> In image images ->
  ImageData.selectedArea image = None ->
  handleAutoAlign cv images = (images, AlertNeedEveryArea)
  /\ handleAlignByArea images = (images, AlertNeedEveryArea)
  /\ handleAlignByRotation cv images = (images, AlertNeedEveryArea).
Proof.
  intros Hlen Hin Hnone.
  assert (Hge : Nat.ltb (length images) 2 = false) by now apply Nat.ltb_ge.
  assert (Hwithout : Nat.ltb 0 (length (imagesWithoutArea images)) = true).
  { apply Nat.ltb_lt.
    assert (Hin' : In image (imagesWithoutArea images)).
    { apply filter_In. split; [exact Hin|]. now rewrite Hnone. }
    destruct (imagesWithoutArea images); [destruct Hin' | cbn; lia]. }
  unfold handleAutoAlign, handleAlignByArea, handleAlignByRotation.
  now rewrite Hge, Hwithout.
Qed.
End HandlerGuards.


(** ** The texture atlas *)

Section AdjustImageListFacts.
Context {A : Type}.
Variable undefined : A.

Lemma ceilHalf_bounds (n : nat) : n <= 2 * ceilHalf n <= n + 1.
Proof.
  unfold ceilHalf.
  pose proof (Nat.div_mod_eq (n + 1) 2) as H.
  pose proof (Nat.mod_upper_bound (n + 1) 2) as Hm. lia.
Qed.

Lemma ceilHalf_le (n : nat) : ceilHalf n <= n.
Proof. pose proof (ceilHalf_bounds n). destruct n; [reflexivity|lia]. Qed.

Lemma ceilHalf_floor (n : nat) : n - ceilHalf n = n / 2.
Proof.
  unfold ceilHalf.
  pose proof (Nat.div_mod_eq (n + 1) 2) as H1.
  pose proof (Nat.mod_upper_bound (n + 1) 2) as Hm1.
  pose proof (Nat.div_mod_eq n 2) as H2.
  pose proof (Nat.mod_upper_bound n 2) as Hm2.
  lia.
Qed.

Lemma unshiftTimes_repeat (n : nat) (v : A) (l : list A) :
  unshiftTimes n v l = repeat v n ++ l.
Proof.
  revert l. induction n as [|n IH]; intros l; cbn; auto.
  rewrite IH. change (v :: l) with ([v] ++ l). rewrite app_assoc.
  f_equal. rewrite <- repeat_cons. reflexivity.
Qed.

Lemma pushTimes_repeat (n : nat) (v : A) (l : list A) :
  pushTimes n v l = l ++ repeat v n.
Proof.
  revert l. induction n as [|n IH]; intros l; cbn.
  - now rewrite app_nil_r.
  - rewrite IH, <- app_assoc. reflexivity.
Qed.

Lemma length_adjustImageList (images : list A) (requiredCount : nat) :
  length (adjustImageList undefined images requiredCount) = requiredCount.
Proof.
  unfold adjustImageList.
  destruct (Nat.eqb_spec (length images) requiredCount) as [Heq | Hne]; auto.
  destruct (Nat.ltb_spec requiredCount (length images)) as [Hlt | Hge].
  - cbv zeta. unfold slice.
    pose proof (ceilHalf_le (length images - requiredCount)).
    rewrite length_firstn, length_skipn. lia.
  - cbv zeta. pose proof (ceilHalf_le (requiredCount - length images)).
    rewrite pushTimes_repeat, unshiftTimes_repeat.
    rewrite !length_app, !repeat_length. lia.
Qed.

(** The adjusted list has exactly the required number of entries, whatever
    went in; adjusting it again changes nothing. *)
Theorem adjustImageList_length (images : list A) (requiredCount : nat) :
  length (adjustImageList undefined images requiredCount) = requiredCount
  /\ adjustImageList undefined
       (adjustImageList undefined images requiredCount) requiredCount
     = adjustImageList undefined images requiredCount.
Proof.
  pose proof (length_adjustImageList images requiredCount) as Hlen.
  split; [exact Hlen|].
  set (r := adjustImageList undefined images requiredCount) in *.
  unfold adjustImageList at 1. now rewrite Hlen, Nat.eqb_refl.
Qed.

(** Too many images: as many are dropped at the end as at the start, one
    more at the start when the excess is odd; what is kept is kept in
    order. *)
Theorem adjustImageList_excess (images : list A) (requiredCount : nat) :
  requiredCount <= length images ->
  let excess := length images - requiredCount in
  exists dropped_first dropped_last,
    images = dropped_first ++ adjustImageList undefined images requiredCount
             ++ dropped_last
    /\ length dropped_first = ceilHalf excess
    /\ length dropped_last = excess / 2.
Proof.
  intros Hle excess. unfold adjustImageList.
  destruct (Nat.eqb_spec (length images) requiredCount) as [Heq | Hne].
  - exists [], []. subst excess. rewrite Heq, Nat.sub_diag.
    cbn. now rewrite app_nil_r.
  - assert (Hlt : (requiredCount <? length images) = true)
      by (apply Nat.ltb_lt; lia).
    rewrite Hlt. cbv zeta. fold excess. unfold slice.
    pose proof (ceilHalf_le excess) as Hc.
    pose proof (ceilHalf_floor excess) as Hf.
    set (a := ceilHalf excess) in *.
    exists (firstn a images),
           (skipn (length images - (excess - a) - a) (skipn a images)).
    split; [|split].
    + rewrite firstn_skipn. now rewrite firstn_skipn.
    + rewrite length_firstn. lia.
    + rewrite !length_skipn. lia.
Qed.

(** Too few images: the first image is repeated in front and the last one
    behind, one more in front when the shortage is odd; no entry of the
    result is foreign to the list. *)
Theorem adjustImageList_shortage (images : list A) (requiredCount : nat)
    (first last : A) :
  length images < requiredCount ->
  hd_error images = Some first ->
  nth_error images (length images - 1) = Some last ->
  let shortage := requiredCount - length images in
  adjustImageList undefined images requiredCount
  = repeat first (ceilHalf shortage) ++ images ++ repeat last (shortage / 2)
  /\ (forall image, In image (adjustImageList undefined images requiredCount) ->
        In image images).
Proof.
  intros Hlt Hfirst Hlast shortage.
  assert (Heq : adjustImageList undefined images requiredCount
                = repeat first (ceilHalf shortage) ++ images
                  ++ repeat last (shortage / 2)).
  { unfold adjustImageList.
    destruct (Nat.eqb_spec (length images) requiredCount) as [Heq | Hne]; [lia|].
    destruct (Nat.ltb_spec requiredCount (length images)) as [Hlt' | Hge]; [lia|].
    cbv zeta. fold shortage.
    rewrite pushTimes_repeat, unshiftTimes_repeat, ceilHalf_floor.
    rewrite (nth_error_nth _ _ _ Hlast).
    destruct images as [|i0 rest]; [discriminate|].
    cbn in Hfirst. injection Hfirst as ->. cbn [nth].
    now rewrite <- app_assoc. }
  split; [exact Heq|].
  intros image Hin. rewrite Heq in Hin.
  apply in_app_or in Hin. destruct Hin as [Hin | Hin].
  - apply repeat_spec in Hin. subst image.
    destruct images; [discriminate|]. cbn in Hfirst. injection Hfirst as ->.
    now left.
  - apply in_app_or in Hin. destruct Hin as [Hin | Hin]; auto.
    apply repeat_spec in Hin. subst image.
    eapply nth_error_In. exact Hlast.
Qed.
End AdjustImageListFacts.

Lemma adjustImageList_excess_witness :
  exists dropped_first dropped_last,
    [1; 2; 3; 4; 5; 6; 7]
    = dropped_first ++ adjustImageList 0 [1; 2; 3; 4; 5; 6; 7] 4 ++ dropped_last
    /\ length dropped_first = ceilHalf 3
    /\ length dropped_last = 3 / 2.
Proof.
  apply (@adjustImageList_excess nat 0 [1; 2; 3; 4; 5; 6; 7] 4). cbn. lia.
Defined.

Lemma adjustImageList_shortage_witness :
  adjustImageList 0 [1; 2] 5 = repeat 1 (ceilHalf 3) ++ [1; 2] ++ repeat 2 (3 / 2)
  /\ (forall image, In image (adjustImageList 0 [1; 2] 5) -> In image [1; 2]).
Proof.
  apply (@adjustImageList_shortage nat 0 [1; 2] 5 1 2).
  - cbn. lia.
  - reflexivity.
  - reflexivity.
Defined.

Section AdjustImageListMaps.
Context {A B : Type}.

(** A list with an image in it is adjusted without ever reading outside
    it. *)
Lemma adjustImageList_defined (u u' : A) (images : list A) (requiredCount : nat) :
  images <> [] ->
  adjustImageList u images requiredCount = adjustImageList u' images requiredCount.
Proof.
  intros Hne. unfold adjustImageList.
  destruct (length images =? requiredCount); auto.
  destruct (requiredCount <? length images); auto.
  cbv zeta.
  destruct images as [|i0 rest]; [congruence|].
  assert (Hlast : length (i0 :: rest) - 1 < length (i0 :: rest)) by (cbn; lia).
  rewrite (nth_indep _ u u' Hlast). reflexivity.
Qed.

Lemma adjustImageList_map (f : A -> B) (u : A) (images : list A)
    (requiredCount : nat) :
  adjustImageList (f u) (map f images) requiredCount
  = map f (adjustImageList u images requiredCount).
Proof.
  unfold adjustImageList. rewrite length_map.
  destruct (length images =? requiredCount); auto.
  destruct (requiredCount <? length images).
  - cbv zeta. unfold slice. now rewrite <- firstn_map, <- skipn_map.
  - cbv zeta. rewrite !pushTimes_repeat, !unshiftTimes_repeat.
    rewrite !map_app, !map_repeat, !map_nth. reflexivity.
Qed.
End AdjustImageListMaps.

Section AtlasTiles.
Context {num : Type} {N : JSNumber num}.

(** With every entry an image the loops run to the end: one tile per
    entry, in order. *)
Lemma atlasTiles_defined (cols : nat) (tileSize : num) (k : nat)
    (images : list (ImageData num)) :
  atlasTiles cols tileSize k (map Some images)
  = Ok (map (fun p => tileOf cols tileSize (fst p) (snd p))
            (combine (seq k (length images)) images)).
Proof.
  revert k. induction images as [|image0 rest IH]; intros k; cbn; auto.
  now rewrite IH.
Qed.

Lemma nth_error_tiles (cols : nat) (tileSize : num)
    (images : list (ImageData num)) (n i : nat) :
  length images = n ->
  nth_error (map (fun p => tileOf cols tileSize (fst p) (snd p))
               (combine (seq 0 n) images)) i
  = option_map (tileOf cols tileSize i) (nth_error images i).
Proof.
  intros <-.
  assert (Hgen : forall k,
    nth_error (map (fun p => tileOf cols tileSize (fst p) (snd p))
                 (combine (seq k (length images)) images)) i
    = option_map (tileOf cols tileSize (k + i)) (nth_error images i)).
  { revert i. induction images as [|image0 rest IH]; intros i k.
    - destruct i; reflexivity.
    - destruct i as [|i]; cbn.
      + now rewrite Nat.add_0_r.
      + rewrite IH. now replace (S k + i) with (k + S i) by lia. }
  apply (Hgen 0).
Qed.
End AtlasTiles.

Section AtlasLayout.
Local Open Scope R_scope.

Lemma tile_fits (outputSize : R) (rows k : nat) :
  0 < outputSize -> (1 <= rows)%nat ->
  let tileSize := outputSize / INR rows in
  0 < tileSize
  /\ 0 <= INR k * tileSize
  /\ (INR k * tileSize + tileSize <= outputSize <-> (k < rows)%nat).
Proof.
  intros Hos Hrows tileSize.
  assert (Hr : 0 < INR rows) by (apply lt_0_INR; lia).
  assert (Ht : 0 < tileSize) by (apply Rdiv_lt_0_compat; assumption).
  assert (Hos' : outputSize = INR rows * tileSize).
  { unfold tileSize. field. lra. }
  assert (Hk : 0 <= INR k) by apply pos_INR.
  split; [exact Ht|]. split; [nra|].
  rewrite Hos' at 1.
  replace (INR k * tileSize + tileSize) with (INR (S k) * tileSize)
    by (rewrite S_INR; ring).
  split.
  - intros Hle. apply Rmult_le_reg_r in Hle; [|exact Ht].
    apply INR_le in Hle. lia.
  - intros Hlt. apply Rmult_le_compat_r; [lra|]. apply le_INR. lia.
Qed.

Lemma tiles_of_images (images : list (ImageData R)) (first : ImageData R)
    (outputSize : R) (rows cols : nat) :
  hd_error images = Some first ->
  generateTextureAtlas images outputSize rows cols
  = Ok (map (fun p => tileOf cols (outputSize / INR rows) (fst p) (snd p))
          (combine (seq 0 (rows * cols))
                   (adjustImageList first images (rows * cols)))).
Proof.
  intros Hfirst. unfold generateTextureAtlas. cbv zeta.
  rewrite (@adjustImageList_defined _ None (Some first)).
  2:{ destruct images; [discriminate|]. cbn. congruence. }
  rewrite adjustImageList_map, atlasTiles_defined.
  now rewrite (length_adjustImageList first images (rows * cols)).
Qed.

(** The atlas of a list with an image in it has one tile for every cell of
    the grid; every tile is a square of side outputSize / rows that lies
    within the canvas from top to bottom, and from left to right exactly
    when its column index is below [rows]: in a grid that is not wider than
    high no tile leaves the canvas. *)
Theorem atlas_tiles_within_canvas (images : list (ImageData R))
    (outputSize : R) (rows cols : nat) :
  images <> [] -> 0 < outputSize -> (1 <= rows)%nat -> (1 <= cols)%nat ->
  exists tiles,
    generateTextureAtlas images outputSize rows cols = Ok tiles
    /\ length tiles = (rows * cols)%nat
    /\ forall i tile, nth_error tiles i = Some tile ->
         let d := Tile.destination tile in
         Area.width d = outputSize / INR rows
         /\ Area.height d = outputSize / INR rows
         /\ 0 <= Area.x d /\ 0 <= Area.y d
         /\ Area.y d + Area.height d <= outputSize
         /\ (Area.x d + Area.width d <= outputSize <-> (i mod cols < rows)%nat).
Proof.
  intros Hne Hos Hrows Hcols.
  destruct images as [|first rest] eqn:Himages; [congruence|].
  rewrite <- Himages. clear Hne.
  assert (Hfirst : hd_error images = Some first) by now rewrite Himages.
  clear Himages rest.
  eexists. split; [apply tiles_of_images; exact Hfirst|].
  pose proof (length_adjustImageList first images (rows * cols)) as Hlen.
  split.
  { rewrite length_map, length_combine, length_seq, Hlen. lia. }
  intros i tile Hi.
  assert (Hlt : (i < rows * cols)%nat).
  { assert (Hsome : nth_error
              (map (fun p => tileOf cols (outputSize / INR rows) (fst p) (snd p))
                 (combine (seq 0 (rows * cols))
                    (adjustImageList first images (rows * cols)))) i <> None)
      by congruence.
    apply nth_error_Some in Hsome.
    rewrite length_map, length_combine, length_seq, Hlen in Hsome. lia. }
  rewrite (nth_error_tiles _ _ _ i Hlen) in Hi.
  destruct (nth_error _ i) as [image|]; [|discriminate].
  cbn in Hi. injection Hi as <-.
  cbn [Tile.destination tileOf Area.x Area.y Area.width Area.height
       num_of_nat num_mul num_div ExactReal].
  destruct (tile_fits (i mod cols) Hos Hrows) as (Ht & Hx & Hfx).
  destruct (tile_fits (i / cols) Hos Hrows) as (_ & Hy & Hfy).
  repeat split; auto.
  - apply Hfy. apply Nat.Div0.div_lt_upper_bound. lia.
  - apply Hfx.
  - apply Hfx.
Qed.

End AtlasLayout.

Lemma atlas_tiles_within_canvas_witness :
  exists tiles,
    generateTextureAtlas
      [ImageData.mk "a" "blob:a" 640%R 480%R None
         (Transform.mk 1%R 0%R 0%R 0%R)] 2048%R 4 4 = Ok tiles
    /\ length tiles = (4 * 4)%nat
    /\ forall i tile, nth_error tiles i = Some tile ->
         let d := Tile.destination tile in
         (Area.width d = 2048 / INR 4
          /\ Area.height d = 2048 / INR 4
          /\ 0 <= Area.x d /\ 0 <= Area.y d
          /\ Area.y d + Area.height d <= 2048
          /\ (Area.x d + Area.width d <= 2048 <-> (i mod 4 < 4)%nat))%R.
Proof.
  apply atlas_tiles_within_canvas; [discriminate | lra | lia | lia].
Defined.


Section AtlasInputs.
Context {num : Type} {N : JSNumber num} {I : JSInfinity num}.
Context {Mat Descriptors : Type} (cv : OpenCV num Mat Descriptors).

Lemma atlasTiles_reads (cols : nat) (tileSize : num)
    (entries entries' : list (option (ImageData num))) (k : nat) :
  map (option_map atlasInput) entries = map (option_map atlasInput) entries' ->
  atlasTiles cols tileSize k entries = atlasTiles cols tileSize k entries'.
Proof.
  revert entries' k.
  induction entries as [|e rest IH]; intros [|e' rest'] k Heq;
    try discriminate; auto.
  cbn in Heq. injection Heq as He Hrest.
  cbn [atlasTiles]. rewrite (IH rest' (S k) Hrest).
  destruct e as [image|], e' as [image'|]; try discriminate; auto.
  cbn in He. injection He as Hurl Hw Hh.
  cbn [atlasTile]. unfold tileOf. now rewrite Hurl, Hw, Hh.
Qed.

Lemma generateTextureAtlas_reads (images images' : list (ImageData num))
    (outputSize : num) (rows cols : nat) :
  map atlasInput images' = map atlasInput images ->
  generateTextureAtlas images' outputSize rows cols
  = generateTextureAtlas images outputSize rows cols.
Proof.
  intros Heq. unfold generateTextureAtlas. cbv zeta.
  apply atlasTiles_reads.
  change (@None (string * num * num))
    with (option_map atlasInput (@None (ImageData num))).
  rewrite <- !adjustImageList_map. cbn [option_map].
  rewrite !map_map. cbn [option_map].
  rewrite <- (map_map atlasInput Some images'), Heq, map_map. reflexivity.
Qed.

Lemma alignAllImages_static (images : list (ImageData num)) :
  map staticOf (alignAllImages cv images) = map staticOf images.
Proof.
  unfold alignAllImages. destruct (length images <? 2); auto.
  now rewrite rotationPass_static, translationPass_static, centerFirst_static.
Qed.

(** The atlas is made of what the images are, not of how they were aligned:
    it reads the address and the size of each image and nothing else, so it
    is the same before and after [alignAllImages]. *)
Theorem atlas_ignores_alignment (images : list (ImageData num))
    (outputSize : num) (rows cols : nat) :
  (forall images',
      map atlasInput images' = map atlasInput images ->
      generateTextureAtlas images' outputSize rows cols
      = generateTextureAtlas images outputSize rows cols)
  /\ generateTextureAtlas (alignAllImages cv images) outputSize rows cols
     = generateTextureAtlas images outputSize rows cols.
Proof.
  split; [intros images'; apply generateTextureAtlas_reads|].
  apply generateTextureAtlas_reads.
  pose proof (alignAllImages_static images) as Hs.
  apply (f_equal (map (fun s : string * string * num * num * option (Area num) =>
                         let '(_, url, w, h, _) := s in (url, w, h)))) in Hs.
  rewrite !map_map in Hs. exact Hs.
Qed.

(** Without images every entry of the adjusted list is [undefined], and the
    first of them stops the atlas with a [TypeError]; a grid without cells
    gives an atlas without tiles. *)
Theorem atlas_of_no_images (outputSize : num) (rows cols : nat) :
  generateTextureAtlas [] outputSize rows cols
  = if Nat.eqb (rows * cols) 0 then Ok []
    else Throw "TypeError: Cannot read properties of undefined (reading 'file')".
Proof.
  unfold generateTextureAtlas. cbv zeta. cbn [map].
  destruct (rows * cols) as [|n] eqn:Hn; [reflexivity|].
  unfold adjustImageList. cbn [length Nat.eqb Nat.ltb Nat.leb].
  cbv zeta. rewrite pushTimes_repeat, unshiftTimes_repeat. cbn [nth].
  rewrite app_nil_r.
  assert (Hc : (1 <= ceilHalf (S n - 0))%nat).
  { pose proof (ceilHalf_bounds (S n - 0)). lia. }
  destruct (ceilHalf (S n - 0)); [lia|]. reflexivity.
Qed.
End AtlasInputs.

Section Crop.
Local Open Scope R_scope.

(** The crop is the largest centred square of the image: it lies within
    the image, its middle is the middle of the image, and it spans the
    shorter side. *)
Theorem cropToSquare_centred (width height : R) :
  let crop := cropToSquare width height in
  Area.width crop = Area.height crop
  /\ 0 <= Area.x crop /\ Area.x crop + Area.width crop <= width
  /\ 0 <= Area.y crop /\ Area.y crop + Area.height crop <= height
  /\ Area.x crop + Area.width crop / 2 = width / 2
  /\ Area.y crop + Area.height crop / 2 = height / 2
  /\ (Area.width crop = width \/ Area.height crop = height).
Proof.
  unfold cropToSquare. cbv zeta.
  cbn [Area.x Area.y Area.width Area.height].
  rewrite lit_int. cbn [Math_min num_sub num_div ExactReal].
  pose proof (Rmin_l width height). pose proof (Rmin_r width height).
  repeat split; try lra.
  unfold Rmin. destruct (Rle_dec width height); auto.
Qed.
End Crop.


(** ** The transform algebra, continued *)

Section TransformMonoid.
Local Open Scope R_scope.

Lemma degrees_plus (a b : R) : (a + b) * PI / 180 = a * PI / 180 + b * PI / 180.
Proof. lra. Qed.

Lemma combineStep_assoc (x y z : Transform R) :
  combineStep (combineStep x y) z = combineStep x (combineStep y z).
Proof.
  destruct x as [sx rx xx yx], y as [sy ry xy yy], z as [sz rz xz yz].
  unfold combineStep. transform_fields. exact_arith.
  rewrite degrees_plus, cos_plus, sin_plus.
  f_equal; ring.
Qed.

Lemma combineStep_identity_l (x : Transform R) :
  combineStep (Transform.mk (num_lit 1) (num_lit 0) (num_lit 0) (num_lit 0)) x = x.
Proof.
  destruct x as [s r tx ty]. unfold combineStep. transform_fields. exact_arith.
  rewrite degrees_zero, cos_0, sin_0. f_equal; lra.
Qed.

Lemma combineStep_identity_r (x : Transform R) :
  combineStep x (Transform.mk (num_lit 1) (num_lit 0) (num_lit 0) (num_lit 0)) = x.
Proof.
  destruct x as [s r tx ty]. unfold combineStep. transform_fields. exact_arith.
  f_equal; lra.
Qed.

Lemma fold_combineStep (transforms : list (Transform R)) (combined : Transform R) :
  fold_left combineStep transforms combined
  = combineStep combined (combineTransforms transforms).
Proof.
  unfold combineTransforms. revert combined.
  induction transforms as [|t rest IH]; intros combined; cbn [fold_left].
  - now rewrite combineStep_identity_r.
  - rewrite IH, (IH (combineStep _ t)), combineStep_identity_l.
    apply combineStep_assoc.
Qed.

(** Combining is associative: a list of transforms may be combined in
    groups, and the groups combined, with the same result; no transforms
    combine to the identity. *)
Theorem combineTransforms_groups :
  combineTransforms (num := R) [] = identityTransform
  /\ (forall first second : list (Transform R),
        combineTransforms (first ++ second)
        = compose (combineTransforms first) (combineTransforms second))
  /\ (forall a b c : Transform R,
        compose (compose a b) c = compose a (compose b c)).
Proof.
  split; [reflexivity|]. split.
  - intros first second. unfold compose. rewrite combineTransforms_pair.
    unfold combineTransforms at 1. rewrite fold_left_app.
    apply fold_combineStep.
  - intros a b c. unfold compose. rewrite !combineTransforms_pair.
    apply combineStep_assoc.
Qed.
End TransformMonoid.

(** ** The translation pass, continued *)

Section TranslationOnly.
Context {num : Type} {N : JSNumber num}.

Lemma assignAt_same {A : Type} (i : nat) (v : A) (l : list A) :
  nth_error l i = Some v -> assignAt i v l = l.
Proof.
  revert i. induction l as [|a l IH]; intros [|i] Hi; cbn in *; auto.
  - now injection Hi as ->.
  - f_equal. now apply IH.
Qed.

(** The pass is the only list that starts as the input does and carries
    each image on from its predecessor. *)
Lemma translationPass_unique (l0 m : list (ImageData num)) :
  length m = length l0 ->
  nth_error m 0 = nth_error l0 0 ->
  (forall j cur next0,
      nth_error m j = Some cur -> nth_error l0 (S j) = Some next0 ->
      nth_error m (S j) = Some (alignedNext cur next0)) ->
  translationPass l0 = m.
Proof.
  intros Hlen H0 Hstep.
  destruct (translationPass_spec l0) as (Hplen & Hp0 & Hpstep).
  apply nth_error_ext. intros k.
  induction k as [|k IH].
  - now rewrite Hp0, H0.
  - destruct (nth_error l0 (S k)) as [next0|] eqn:Hnext.
    + assert (Hk : k < length l0).
      { assert (Hs : nth_error l0 (S k) <> None) by congruence.
        apply nth_error_Some in Hs. lia. }
      destruct (nth_error m k) as [cur|] eqn:Hcur.
      2:{ apply nth_error_None in Hcur. lia. }
      rewrite (Hstep k cur next0 Hcur Hnext).
      rewrite (Hpstep k cur next0 IH Hnext). reflexivity.
    + apply nth_error_None in Hnext.
      rewrite (proj2 (nth_error_None _ _)) by lia.
      rewrite (proj2 (nth_error_None _ _)) by lia. reflexivity.
Qed.

Lemma alignedNext_again (cur next : ImageData num) :
  alignedNext cur (alignedNext cur next) = alignedNext cur next.
Proof.
  destruct (ImageData.selectedArea cur) as [ac|] eqn:Hc.
  - destruct (ImageData.selectedArea next) as [an|] eqn:Hn.
    + assert (Hnext : alignedNext cur next
                      = withTransform next
                          (alignedTo cur (ImageData.transform cur) next)).
      { unfold alignedNext. now rewrite Hc, Hn. }
      rewrite Hnext. unfold alignedNext.
      cbn [withTransform ImageData.selectedArea]. rewrite Hc, Hn.
      unfold alignedTo, calculateAlignImagesTransform.
      cbn [withTransform ImageData.selectedArea ImageData.width
           ImageData.height ImageData.transform ImageData.id ImageData.url].
      rewrite Hc, Hn. reflexivity.
    + assert (Hnext : alignedNext cur next = next).
      { unfold alignedNext. now rewrite Hc, Hn. }
      now rewrite !Hnext.
  - assert (Hnext : forall n, alignedNext cur n = n).
    { intros n. unfold alignedNext. now rewrite Hc. }
    now rewrite !Hnext.
Qed.

Lemma centerFirst_again (l : list (ImageData num)) :
  centerFirst (centerFirst l) = centerFirst l.
Proof.
  destruct (nth_error l 0) as [image0|] eqn:H0.
  2:{ assert (E : centerFirst l = l) by (unfold centerFirst; now rewrite H0).
      now rewrite !E. }
  destruct (ImageData.selectedArea image0) as [area|] eqn:Ha.
  2:{ assert (E : centerFirst l = l) by (unfold centerFirst; now rewrite H0, Ha).
      now rewrite !E. }
  set (c0 := withTransform image0
               (calculateCenterImageTransform (ImageData.width image0)
                  (ImageData.height image0) (ImageData.transform image0)
                  (Some area))).
  assert (E : centerFirst l = assignAt 0 c0 l)
    by (unfold centerFirst; now rewrite H0, Ha).
  rewrite E.
  assert (Hc0 : nth_error (assignAt 0 c0 l) 0 = Some c0).
  { apply nth_error_assignAt_eq.
    assert (Hs : nth_error l 0 <> None) by congruence.
    now apply nth_error_Some in Hs. }
  unfold centerFirst. rewrite Hc0.
  assert (Hca : ImageData.selectedArea c0 = Some area) by exact Ha.
  rewrite Hca. apply assignAt_same. rewrite Hc0. reflexivity.
Qed.

Lemma length_centerFirst (l : list (ImageData num)) :
  length (centerFirst l) = length l.
Proof.
  rewrite <- (length_map staticOf (centerFirst l)), centerFirst_static.
  apply length_map.
Qed.

Lemma length_translationPass (l : list (ImageData num)) :
  length (translationPass l) = length l.
Proof. apply translationPass_spec. Qed.

(** Aligning by area a second time changes nothing, whichever images lack
    a region. *)
Theorem area_alignment_idempotent (images : list (ImageData num)) :
  alignImagesByAreaOnly (alignImagesByAreaOnly images)
  = alignImagesByAreaOnly images.
Proof.
  unfold alignImagesByAreaOnly at 2.
  destruct (length images <? 2) eqn:Hshort.
  { unfold alignImagesByAreaOnly. now rewrite Hshort. }
  unfold alignImagesByAreaOnly.
  rewrite length_translationPass, length_centerFirst, Hshort.
  set (l0 := centerFirst images).
  destruct (translationPass_spec l0) as (Hplen & Hp0 & Hpstep).
  assert (Hc : centerFirst (translationPass l0) = translationPass l0).
  { unfold centerFirst at 1. rewrite Hp0.
    destruct (nth_error l0 0) as [c0|] eqn:Hc0; auto.
    destruct (ImageData.selectedArea c0) as [area|] eqn:Ha; auto.
    apply assignAt_same. rewrite Hp0; rewrite ?Hc0.
    pose proof (centerFirst_again images) as Hagain. fold l0 in Hagain.
    unfold centerFirst in Hagain at 1. rewrite Hc0, Ha in Hagain.
    assert (Hn : nth_error (assignAt 0
                   (withTransform c0
                      (calculateCenterImageTransform (ImageData.width c0)
                         (ImageData.height c0) (ImageData.transform c0)
                         (Some area))) l0) 0 = nth_error l0 0)
      by now rewrite Hagain.
    rewrite nth_error_assignAt_eq in Hn.
    - now rewrite Hn, Hc0.
    - assert (Hs : nth_error l0 0 <> None) by congruence.
      now apply nth_error_Some in Hs. }
  rewrite Hc. apply translationPass_unique; auto.
  intros j cur next1 Hcur Hnext1.
  destruct (nth_error l0 (S j)) as [next0|] eqn:Hnext0.
  2:{ apply nth_error_None in Hnext0.
      assert (Hs : nth_error (translationPass l0) (S j) <> None) by congruence.
      apply nth_error_Some in Hs. lia. }
  pose proof (Hpstep j cur next0 Hcur Hnext0) as Hp.
  change (nth_error (translationPass l0) (S j) = Some (alignedNext cur next0))
    in Hp.
  rewrite Hp in Hnext1. injection Hnext1 as <-.
  rewrite Hp. now rewrite alignedNext_again.
Qed.
End TranslationOnly.

Section PassesCompose.
Context {num : Type} {N : JSNumber num} {I : JSInfinity num}.
Context {Mat Descriptors : Type} (cv : OpenCV num Mat Descriptors).

(** The automatic alignment is the alignment by area followed by the
    alignment by rotation. *)
Theorem auto_align_is_area_then_rotation (images : list (ImageData num)) :
  alignAllImages cv images
  = alignImagesByRotationOnly cv (alignImagesByAreaOnly images).
Proof.
  unfold alignAllImages, alignImagesByRotationOnly, alignImagesByAreaOnly.
  destruct (length images <? 2) eqn:Hshort.
  - now rewrite Hshort.
  - now rewrite length_translationPass, length_centerFirst, Hshort.
Qed.
End PassesCompose.

Section AreaAlignmentExact.
Local Open Scope R_scope.

Lemma aligned_to_centred (cur next : ImageData R) (ac an : Area R) :
  ImageData.selectedArea cur = Some ac ->
  ImageData.selectedArea next = Some an ->
  alignedNext (centredOnArea cur) next = centredOnArea next.
Proof.
  intros Hc Hn. unfold alignedNext, centredOnArea.
  cbn [withTransform ImageData.selectedArea]. rewrite Hc, Hn.
  unfold alignedTo, centered, calculateAlignImagesTransform,
    calculateCenterImageTransform.
  cbn [withTransform ImageData.selectedArea ImageData.width ImageData.height
       ImageData.transform ImageData.id ImageData.url].
  rewrite Hc, Hn. transform_fields. exact_arith.
  unfold withTransform. f_equal. f_equal; lra.
Qed.

(** When every image has a region, aligning by area gives each image the
    transform that moves its own region to the middle, whatever the other
    images are; an image that is not rotated then has the middle of its
    region drawn on the middle of the canvas. *)
Theorem area_alignment_centres_each (images : list (ImageData R)) :
  (2 <= length images)%nat ->
  Forall (fun image => ImageData.selectedArea image <> None) images ->
  alignImagesByAreaOnly images = map centredOnArea images
  /\ (forall i image area originX originY,
        nth_error (alignImagesByAreaOnly images) i = Some image ->
        ImageData.selectedArea image = Some area ->
        Transform.rotation (ImageData.transform image) = 0 ->
        canvasPoint originX originY (ImageData.width image)
          (ImageData.height image) (ImageData.transform image)
          (calculateCenter area)
        = Point.mk originX originY).
Proof.
  intros Hlen Hall.
  assert (Heq : alignImagesByAreaOnly images = map centredOnArea images).
  { unfold alignImagesByAreaOnly.
    assert (Hshort : (length images <? 2)%nat = false) by now apply Nat.ltb_ge.
    rewrite Hshort. rewrite Forall_forall in Hall.
    apply translationPass_unique.
    - now rewrite length_map, length_centerFirst.
    - destruct images as [|image0 rest]; [reflexivity|].
      destruct (ImageData.selectedArea image0) as [a0|] eqn:Ha0.
      2:{ exfalso. apply (Hall image0); [now left | exact Ha0]. }
      unfold centerFirst. cbn [nth_error map]. rewrite Ha0. cbn [assignAt nth_error].
      unfold centredOnArea, centered. now rewrite Ha0.
    - intros j cur next0 Hcur Hnext0.
      rewrite centerFirst_elsewhere in Hnext0 by lia.
      rewrite nth_error_map in Hcur |- *. rewrite Hnext0. cbn [option_map].
      destruct (nth_error images j) as [imagej|] eqn:Hj; [|discriminate].
      cbn in Hcur. injection Hcur as <-.
      destruct (ImageData.selectedArea imagej) as [aj|] eqn:Haj.
      2:{ exfalso. apply (Hall imagej); [eapply nth_error_In; eauto | exact Haj]. }
      destruct (ImageData.selectedArea next0) as [an|] eqn:Han.
      2:{ exfalso. apply (Hall next0); [eapply nth_error_In; eauto | exact Han]. }
      now rewrite (aligned_to_centred imagej next0 Haj Han). }
  split; [exact Heq|].
  intros i image area originX originY Hi Harea Hrot.
  rewrite Heq, nth_error_map in Hi.
  destruct (nth_error images i) as [image0|]; [|discriminate].
  cbn in Hi. injection Hi as <-.
  cbn [centredOnArea withTransform ImageData.selectedArea ImageData.width
       ImageData.height ImageData.transform] in *.
  unfold centered, calculateCenterImageTransform in *. rewrite Harea in *.
  cbn [Transform.rotation] in Hrot.
  unfold canvasPoint, calculateCenter. transform_fields. exact_arith.
  rewrite Hrot, degrees_zero, cos_0, sin_0. f_equal; lra.
Qed.
End AreaAlignmentExact.

(** ** The rotation solver and its pass, continued *)

Section RotationOutcome.
Context {num : Type} {N : JSNumber num} {I : JSInfinity num}.

Lemma matchedPoints_in_range (keypoints1 keypoints2 : list (KeyPoint num))
    (matches : list (DMatch num)) :
  Forall (fun m => DMatch.queryIdx m < length keypoints1
                   /\ DMatch.trainIdx m < length keypoints2) matches ->
  exists points, matchedPoints keypoints1 keypoints2 matches = Ok points.
Proof.
  induction 1 as [|m rest (Hq & Ht) _ (points & IH)]; cbn [matchedPoints].
  - eauto.
  - destruct (nth_error keypoints1 (DMatch.queryIdx m)) eqn:H1.
    2:{ apply nth_error_None in H1. lia. }
    destruct (nth_error keypoints2 (DMatch.trainIdx m)) eqn:H2.
    2:{ apply nth_error_None in H2. lia. }
    rewrite IH. cbn. eauto.
Qed.

Lemma matchedPoints_out_of_range (keypoints1 keypoints2 : list (KeyPoint num))
    (matches : list (DMatch num)) :
  Exists (fun m => length keypoints1 <= DMatch.queryIdx m
                   \/ length keypoints2 <= DMatch.trainIdx m) matches ->
  matchedPoints keypoints1 keypoints2 matches
  = Throw "TypeError: Cannot read properties of undefined (reading 'pt')".
Proof.
  induction 1 as [m rest Hbad | m rest _ IH]; cbn [matchedPoints].
  - destruct Hbad as [Hq | Ht].
    + now rewrite (proj2 (nth_error_None _ _) Hq).
    + rewrite (proj2 (nth_error_None _ _) Ht).
      now destruct (nth_error keypoints1 _).
  - rewrite IH.
    destruct (nth_error keypoints1 _); [|reflexivity].
    destruct (nth_error keypoints2 _); reflexivity.
Qed.

Lemma calculateOptimalRotation_angle (keypoints1 keypoints2 : list (KeyPoint num))
    (matches : list (DMatch num)) (currentRotation : num)
    (selectedAreaCenter : option (Point num)) (r : RotationResult num) :
  calculateOptimalRotation keypoints1 keypoints2 matches currentRotation
    selectedAreaCenter = Ok r ->
  RotationResult.translateY r = num_lit 0
  /\ (RotationResult.rotation r = currentRotation
      \/ In (RotationResult.rotation r) scanAngles).
Proof.
  unfold calculateOptimalRotation.
  destruct (length matches <? 3).
  - intros [= <-]. cbn [RotationResult.translateY RotationResult.rotation].
    split; [reflexivity | now left].
  - destruct (matchedPoints keypoints1 keypoints2 matches) as [points|];
      [|discriminate].
    cbn [bindExc]. intros [= <-]. cbn [RotationResult.translateY
                                       RotationResult.rotation].
    split; [reflexivity|]. apply scan_best_in.
Qed.

(** With three correspondences or more the solver returns when every
    correspondence points at key points that exist, and then the angle is
    one of the scan or the rotation handed in, with no vertical shift; it
    throws a [TypeError] when a correspondence points outside either key
    point vector. *)
Theorem calculateOptimalRotation_outcome
    (keypoints1 keypoints2 : list (KeyPoint num))
    (matches : list (DMatch num)) (currentRotation : num)
    (selectedAreaCenter : option (Point num)) :
  3 <= length matches ->
  (Forall (fun m => DMatch.queryIdx m < length keypoints1
                    /\ DMatch.trainIdx m < length keypoints2) matches ->
   exists r,
     calculateOptimalRotation keypoints1 keypoints2 matches currentRotation
       selectedAreaCenter = Ok r
     /\ RotationResult.translateY r = num_lit 0
     /\ (RotationResult.rotation r = currentRotation
         \/ In (RotationResult.rotation r) scanAngles))
  /\ (Exists (fun m => length keypoints1 <= DMatch.queryIdx m
                       \/ length keypoints2 <= DMatch.trainIdx m) matches ->
      calculateOptimalRotation keypoints1 keypoints2 matches currentRotation
        selectedAreaCenter
      = Throw "TypeError: Cannot read properties of undefined (reading 'pt')").
Proof.
  intros Hlen.
  assert (Hge : (length matches <? 3) = false) by now apply Nat.ltb_ge.
  split.
  - intros Hin. destruct (@matchedPoints_in_range keypoints1 keypoints2 matches Hin)
      as (points & Hpoints).
    assert (Hok : exists r,
      calculateOptimalRotation keypoints1 keypoints2 matches currentRotation
        selectedAreaCenter = Ok r).
    { unfold calculateOptimalRotation. rewrite Hge, Hpoints. cbn [bindExc].
      eexists. reflexivity. }
    destruct Hok as (r & Hr). exists r. split; [exact Hr|].
    exact (calculateOptimalRotation_angle _ _ _ _ _ Hr).
  - intros Hout. unfold calculateOptimalRotation.
    now rewrite Hge, (@matchedPoints_out_of_range keypoints1 keypoints2 matches Hout).
Qed.
End RotationOutcome.

Section RotationOnly.
Context {num : Type} {N : JSNumber num} {I : JSInfinity num}.
Context {Mat Descriptors : Type} (cv : OpenCV num Mat Descriptors).

Lemma alignImagesTry_angle (image1 image2 : ImageData num) (t : Transform num) :
  alignImagesTry cv image1 image2 = Ok t ->
  Transform.rotation t = Transform.rotation (ImageData.transform image2)
  \/ In (Transform.rotation t) scanAngles.
Proof.
  unfold alignImagesTry.
  destruct (negb (OpenCV.loaded cv)); [discriminate|].
  destruct (ImageData.selectedArea image1); [|discriminate].
  destruct (ImageData.selectedArea image2); [|discriminate].
  destruct (OpenCV.imageToMat cv (ImageData.url image1)) as [mat1|];
    [|discriminate].
  destruct (OpenCV.imageToMat cv (ImageData.url image2)) as [mat2|];
    [|discriminate].
  cbn [bindExc].
  destruct (OpenCV.extractORBFeatures cv mat1) as [f1|]; [|discriminate].
  destruct (OpenCV.extractORBFeatures cv mat2) as [f2|]; [|discriminate].
  cbn [bindExc].
  destruct (Nat.ltb _ 3); [discriminate|].
  destruct (calculateOptimalRotation _ _ _ _ _) as [r|] eqn:Hr; [|discriminate].
  cbn [bindExc]. intros [= <-]. cbn [Transform.rotation].
  apply calculateOptimalRotation_angle in Hr. apply Hr.
Qed.

Lemma alignImages_angle (image1 image2 : ImageData num) :
  let r := Transform.rotation
             (AlignmentResult.transform (alignImages cv image1 image2)) in
  r = Transform.rotation (ImageData.transform image2) \/ In r scanAngles.
Proof.
  unfold alignImages.
  destruct (alignImagesTry cv image1 image2) as [t|] eqn:Htry;
    cbv zeta; cbn [AlignmentResult.transform]; [|left; reflexivity].
  exact (alignImagesTry_angle _ _ Htry).
Qed.

Lemma turnedOnly_refl (image : ImageData num) : turnedOnly image image.
Proof. unfold turnedOnly. auto. Qed.

Lemma rotationStep_turns (l : list (ImageData num)) (i : nat) :
  rotationStep cv l i = l
  \/ exists next turned,
       nth_error l (i + 1) = Some next
       /\ turnedOnly next turned
       /\ rotationStep cv l i = assignAt (i + 1) turned l.
Proof.
  unfold rotationStep.
  destruct (nth_error l i) as [cur|]; [|now left].
  destruct (nth_error l (i + 1)) as [next|] eqn:Hnext; [|now left].
  destruct (ImageData.selectedArea cur); [|now left].
  destruct (ImageData.selectedArea next); [|now left].
  destruct (AlignmentResult.success (alignImages cv cur next)); [|now left].
  right. eexists. eexists. split; [reflexivity|]. split; [|reflexivity].
  unfold turnedOnly. repeat split.
  cbn [withTransform ImageData.transform Transform.rotation].
  apply alignImages_angle.
Qed.

Lemma turnedOnly_trans (a b c : ImageData num) :
  turnedOnly a b -> turnedOnly b c -> turnedOnly a c.
Proof.
  intros (Hs & Hp & Hr) (Hs' & Hp' & Hr'). unfold turnedOnly.
  repeat split; try congruence.
  destruct Hr' as [Hr' | Hr']; [|now right].
  rewrite Hr'. exact Hr.
Qed.

Lemma rotationPass_turns (l : list (ImageData num)) :
  nth_error (rotationPass cv l) 0 = nth_error l 0
  /\ forall k before, nth_error l k = Some before ->
       exists after, nth_error (rotationPass cv l) k = Some after
                     /\ turnedOnly before after.
Proof.
  unfold rotationPass.
  apply (forLoop_invariant (rotationStep cv)
           (fun _ m =>
              nth_error m 0 = nth_error l 0
              /\ forall k before, nth_error l k = Some before ->
                   exists after, nth_error m k = Some after
                                 /\ turnedOnly before after)).
  - intros i m (H0 & Hall).
    destruct (rotationStep_turns m i) as [-> | (next & turned & Hn & Ht & ->)];
      [auto|].
    split.
    + rewrite nth_error_assignAt_ne by lia. exact H0.
    + intros k before Hk. destruct (Hall k before Hk) as (after & Ha & Hta).
      destruct (Nat.eq_dec k (i + 1)) as [-> | Hne].
      * exists turned. split.
        -- apply nth_error_assignAt_eq.
           assert (Hs : nth_error m (i + 1) <> None) by congruence.
           now apply nth_error_Some in Hs.
        -- rewrite Hn in Ha. injection Ha as <-.
           eapply turnedOnly_trans; eauto.
      * exists after. split; [|exact Hta].
        rewrite nth_error_assignAt_ne by congruence. exact Ha.
  - split; [reflexivity|]. intros k before Hk. exists before.
    split; [exact Hk | apply turnedOnly_refl].
Qed.

(** The alignment by rotation returns as many images as it was given, the
    first of them untouched; of every other image it may change the
    rotation alone, and only to an angle of the scan. *)
Theorem rotation_alignment_turns_only (images : list (ImageData num)) :
  length (alignImagesByRotationOnly cv images) = length images
  /\ nth_error (alignImagesByRotationOnly cv images) 0 = nth_error images 0
  /\ forall k before, nth_error images k = Some before ->
       exists after,
         nth_error (alignImagesByRotationOnly cv images) k = Some after
         /\ turnedOnly before after.
Proof.
  unfold alignImagesByRotationOnly.
  destruct (length images <? 2).
  - split; [reflexivity|]. split; [reflexivity|].
    intros k before Hk. exists before. split; [exact Hk|apply turnedOnly_refl].
  - split; [|apply rotationPass_turns].
    rewrite <- (length_map staticOf (rotationPass cv images)).
    rewrite rotationPass_static. apply length_map.
Qed.

Lemma rotationPass_without_cv (l : list (ImageData num)) :
  OpenCV.loaded cv = false -> rotationPass cv l = l.
Proof.
  intros Hcv. unfold rotationPass.
  apply (forLoop_invariant (rotationStep cv) (fun _ m => m = l)); auto.
  intros i m ->. unfold rotationStep.
  destruct (nth_error l i) as [cur|]; auto.
  destruct (nth_error l (i + 1)) as [next|]; auto.
  destruct (ImageData.selectedArea cur); auto.
  destruct (ImageData.selectedArea next); auto.
  unfold alignImages, alignImagesTry. now rewrite Hcv.
Qed.

(** Without OpenCV.js the rotation pass gives up on every pair and hands
    the images back: the alignment by rotation changes nothing, and the
    automatic alignment is the alignment by area. *)
Theorem alignment_without_opencv (images : list (ImageData num)) :
  OpenCV.loaded cv = false ->
  alignImagesByRotationOnly cv images = images
  /\ alignAllImages cv images = alignImagesByAreaOnly images.
Proof.
  intros Hcv. unfold alignImagesByRotationOnly, alignAllImages,
    alignImagesByAreaOnly.
  destruct (length images <? 2); [auto|].
  now rewrite !rotationPass_without_cv.
Qed.
End RotationOnly.

Lemma calculateOptimalRotation_outcome_witness :
  (Forall (fun m => DMatch.queryIdx m < length nearKeypoints1
                    /\ DMatch.trainIdx m < length nearKeypoints2) nearMatches ->
   exists r,
     calculateOptimalRotation (N := Float64) nearKeypoints1 nearKeypoints2
       nearMatches (F64.of_Q 45) None = Ok r
     /\ RotationResult.translateY r = F64.of_Q 0
     /\ (RotationResult.rotation r = F64.of_Q 45
         \/ In (RotationResult.rotation r) (scanAngles (N := Float64))))
  /\ (Exists (fun m => length nearKeypoints1 <= DMatch.queryIdx m
                       \/ length nearKeypoints2 <= DMatch.trainIdx m)
        nearMatches ->
      calculateOptimalRotation (N := Float64) nearKeypoints1 nearKeypoints2
        nearMatches (F64.of_Q 45) None
      = Throw "TypeError: Cannot read properties of undefined (reading 'pt')").
Proof.
  apply (@calculateOptimalRotation_outcome F64.float Float64 Binary64Infinity
           nearKeypoints1 nearKeypoints2 nearMatches (F64.of_Q 45) None).
  cbn. lia.
Defined.

Lemma alignment_without_opencv_witness :
  alignImagesByRotationOnly (N := Float64) missingCv degradedImages
  = degradedImages
  /\ alignAllImages (N := Float64) missingCv degradedImages
     = alignImagesByAreaOnly (N := Float64) degradedImages.
Proof.
  apply (@alignment_without_opencv F64.float Float64 Binary64Infinity unit unit
           missingCv degradedImages).
  reflexivity.
Defined.

Lemma area_alignment_centres_each_witness :
  alignImagesByAreaOnly scenarioImages = map centredOnArea scenarioImages
  /\ (forall i image area originX originY,
        nth_error (alignImagesByAreaOnly scenarioImages) i = Some image ->
        ImageData.selectedArea image = Some area ->
        Transform.rotation (ImageData.transform image) = 0%R ->
        canvasPoint originX originY (ImageData.width image)
          (ImageData.height image) (ImageData.transform image)
          (calculateCenter area)
        = Point.mk originX originY).
Proof.
  apply (@area_alignment_centres_each scenarioImages).
  - cbn. lia.
  - repeat constructor; discriminate.
Defined.

Lemma handlers_require_every_area_witness :
  handleAutoAlign (N := Float64) offlineCv degradedImages
  = (degradedImages, AlertNeedEveryArea)
  /\ handleAlignByArea (N := Float64) degradedImages
     = (degradedImages, AlertNeedEveryArea)
  /\ handleAlignByRotation (N := Float64) offlineCv degradedImages
     = (degradedImages, AlertNeedEveryArea).
Proof.
  apply (@handlers_require_every_area F64.float Float64 Binary64Infinity
           unit unit offlineCv degradedImages (float64Image "image-1" None)).
  - cbn. lia.
  - right. left. reflexivity.
  - reflexivity.
Defined.


(** ** The helpers of the alignment *)

Section HelpersExact.
Local Open Scope R_scope.

(** For an image and a canvas of positive size the scale is positive and
    at most 1, the scaled image fits the canvas, and no scale that is at
    most 1 and fits is larger. Left out, the canvas is 800 by 600. *)
Theorem calculateMaxScale_fits (imageWidth imageHeight : R)
    (canvasWidth canvasHeight : option R) :
  0 < imageWidth -> 0 < imageHeight ->
  0 < orDefault canvasWidth 800 -> 0 < orDefault canvasHeight 600 ->
  let s := calculateMaxScale imageWidth imageHeight canvasWidth canvasHeight in
  0 < s <= 1
  /\ imageWidth * s <= orDefault canvasWidth 800
  /\ imageHeight * s <= orDefault canvasHeight 600
  /\ forall s', s' <= 1 ->
       imageWidth * s' <= orDefault canvasWidth 800 ->
       imageHeight * s' <= orDefault canvasHeight 600 ->
       s' <= s.
Proof.
  intros Hw Hh Hcw Hch. unfold calculateMaxScale. cbv zeta.
  rewrite !lit_int, lit_one_point_zero.
  cbn [Math_min num_div ExactReal].
  set (cw := orDefault canvasWidth 800) in *.
  set (ch := orDefault canvasHeight 600) in *.
  assert (Hx : 0 < cw / imageWidth) by now apply Rdiv_lt_0_compat.
  assert (Hy : 0 < ch / imageHeight) by now apply Rdiv_lt_0_compat.
  assert (Hxw : imageWidth * (cw / imageWidth) = cw) by (field; lra).
  assert (Hyh : imageHeight * (ch / imageHeight) = ch) by (field; lra).
  set (sx := cw / imageWidth) in *. set (sy := ch / imageHeight) in *.
  assert (Hmin : Rmin (Rmin sx sy) 1 <= sx /\ Rmin (Rmin sx sy) 1 <= sy
                 /\ Rmin (Rmin sx sy) 1 <= 1 /\ 0 < Rmin (Rmin sx sy) 1).
  { unfold Rmin. destruct (Rle_dec sx sy); destruct (Rle_dec _ 1); lra. }
  destruct Hmin as (H1 & H2 & H3 & H4).
  repeat split; auto.
  - rewrite <- Hxw. apply Rmult_le_compat_l; lra.
  - rewrite <- Hyh. apply Rmult_le_compat_l; lra.
  - intros s' Hs1 Hsw Hsh.
    assert (Hsx : s' <= sx).
    { apply Rmult_le_reg_l with imageWidth; lra. }
    assert (Hsy : s' <= sy).
    { apply Rmult_le_reg_l with imageHeight; lra. }
    unfold Rmin. destruct (Rle_dec sx sy); destruct (Rle_dec _ 1); lra.
Qed.

(** [centerImageX] puts the middle of the image on the target abscissa and
    keeps the scale, the rotation and the vertical shift. *)
Theorem centerImageX_centres (imageData : ImageData R) (targetCenterX : R) :
  let t := centerImageX imageData targetCenterX in
  ImageData.width imageData / 2 + Transform.translateX t = targetCenterX
  /\ Transform.scale t = Transform.scale (ImageData.transform imageData)
  /\ Transform.rotation t = Transform.rotation (ImageData.transform imageData)
  /\ Transform.translateY t
     = Transform.translateY (ImageData.transform imageData).
Proof.
  unfold centerImageX. cbv zeta. transform_fields. exact_arith.
  repeat split; lra.
Qed.
End HelpersExact.

Lemma calculateMaxScale_fits_witness :
  let s := calculateMaxScale (N := ExactReal) 1600%R 900%R None None in
  (0 < s <= 1
   /\ 1600 * s <= orDefault None 800
   /\ 900 * s <= orDefault None 600
   /\ forall s', s' <= 1 ->
        1600 * s' <= orDefault None 800 ->
        900 * s' <= orDefault None 600 ->
        s' <= s)%R.
Proof.
  apply (@calculateMaxScale_fits 1600%R 900%R None None); cbn; lra.
Defined.

Section ORBFallback.
Context {ORB Mat Features : Type} (cv : ORBEngine ORB Mat Features).

(** The detector is built by the first of the four constructor calls that
    returns, and the features are what [detectAndCompute] makes of it; when
    all four throw, the error of the fourth is the one thrown on. *)
Theorem extractORBFeatures_fallback (mat : Mat) :
  (forall k method orb,
      nth_error initMethods k = Some method ->
      ORBEngine.construct cv method = Ok orb ->
      (forall j earlier, j < k -> nth_error initMethods j = Some earlier ->
         exists message, ORBEngine.construct cv earlier = Throw message) ->
      extractORBFeatures cv mat = ORBEngine.detectAndCompute cv orb mat)
  /\ (forall message,
        (forall method, In method initMethods ->
           exists m, ORBEngine.construct cv method = Throw m) ->
        ORBEngine.construct cv (last initMethods []) = Throw message ->
        extractORBFeatures cv mat = Throw message).
Proof.
  split.
  - intros k method orb Hk Hok Hearlier.
    unfold extractORBFeatures.
    assert (Hinit : initORB cv initMethods = Ok orb).
    { assert (Hthrow : forall j earlier, j < k ->
                nth_error initMethods j = Some earlier ->
                forall X (x : ORB -> X) (y : X),
                  match ORBEngine.construct cv earlier with
                  | Ok o => x o
                  | Throw _ => y
                  end = y).
      { intros j earlier Hj He X x y.
        destruct (Hearlier j earlier Hj He) as (m & ->). reflexivity. }
      unfold initMethods in *. cbn [initORB].
      destruct k as [|[|[|[|k]]]]; cbn in Hk; try injection Hk as <-.
      + now rewrite Hok.
      + rewrite (Hthrow 0 _ ltac:(lia) eq_refl). now rewrite Hok.
      + rewrite (Hthrow 0 _ ltac:(lia) eq_refl).
        rewrite (Hthrow 1 _ ltac:(lia) eq_refl). now rewrite Hok.
      + rewrite (Hthrow 0 _ ltac:(lia) eq_refl).
        rewrite (Hthrow 1 _ ltac:(lia) eq_refl).
        rewrite (Hthrow 2 _ ltac:(lia) eq_refl). exact Hok.
      + destruct k; discriminate. }
    now rewrite Hinit.
  - intros message Hall Hlast.
    unfold extractORBFeatures, initMethods in *. cbn [initORB last] in *.
    destruct (Hall [1000; 1.2; 8; 31; 0; 2]%Q) as (m0 & ->); [cbn; auto|].
    destruct (Hall [1000; 1.2; 8; 31]%Q) as (m1 & ->); [cbn; auto|].
    destruct (Hall []) as (m2 & ->); [cbn; auto|].
    now rewrite Hlast.
Qed.
End ORBFallback.

(** ** Affine transforms *)

Section AffineErrors.
Context {num : Type} {N : JSNumber num} {M : JSMath num}.

Lemma sumPairs_short (sourcePoints targetPoints : list (Point num))
    (s : Sums num) :
  length targetPoints < length sourcePoints ->
  sumPairs sourcePoints targetPoints s
  = Throw "TypeError: Cannot read properties of undefined (reading 'x')".
Proof.
  revert targetPoints s.
  induction sourcePoints as [|src sources IH]; intros [|tgt targets] s Hlt;
    cbn in *; try lia; auto.
  apply IH. lia.
Qed.

(** With fewer than three points on either side the fit is refused; with
    three target points or more, but fewer than there are source points,
    the loop reads a target point that is not there and throws. *)
Theorem calculateAffineTransform_refuses (sourcePoints targetPoints : list (Point num)) :
  (length sourcePoints < 3 \/ length targetPoints < 3 ->
   calculateAffineTransform sourcePoints targetPoints
   = Throw "少なくとも3つの点が必要です")
  /\ (3 <= length targetPoints < length sourcePoints ->
      calculateAffineTransform sourcePoints targetPoints
      = Throw "TypeError: Cannot read properties of undefined (reading 'x')").
Proof.
  unfold calculateAffineTransform. split.
  - intros [Hs | Ht].
    + now rewrite (proj2 (Nat.ltb_lt _ _) Hs).
    + rewrite (proj2 (Nat.ltb_lt _ _) Ht). now rewrite orb_true_r.
  - intros (Ht & Hlt).
    rewrite (proj2 (Nat.ltb_ge _ _)) by lia.
    rewrite (proj2 (Nat.ltb_ge _ _)) by lia.
    cbn [orb]. cbv zeta. now rewrite sumPairs_short.
Qed.
End AffineErrors.

Section AffineExact.
Local Open Scope R_scope.

Lemma sumPairs_exact (sourcePoints targetPoints : list (Point R)) (s : Sums R) :
  length targetPoints = length sourcePoints ->
  exists s',
    sumPairs sourcePoints targetPoints s = Ok s'
    /\ Sums.sumX s' = Sums.sumX s + fold_right Rplus 0 (map Point.x sourcePoints)
    /\ Sums.sumY s' = Sums.sumY s + fold_right Rplus 0 (map Point.y sourcePoints)
    /\ Sums.sumU s' = Sums.sumU s + fold_right Rplus 0 (map Point.x targetPoints)
    /\ Sums.sumV s' = Sums.sumV s + fold_right Rplus 0 (map Point.y targetPoints).
Proof.
  revert targetPoints s.
  induction sourcePoints as [|src sources IH]; intros [|tgt targets] s Hlen;
    try discriminate.
  - exists s. cbn. repeat split; lra.
  - cbn in Hlen. injection Hlen as Hlen.
    destruct (IH targets (addPair s src tgt) Hlen) as (s' & Hs & HX & HY & HU & HV).
    exists s'. split; [exact Hs|].
    rewrite HX, HY, HU, HV. cbn [addPair Sums.sumX Sums.sumY Sums.sumU Sums.sumV
                                 map fold_right num_add ExactReal].
    repeat split; lra.
Qed.

(** Whatever transform the fit returns for as many target points as source
    points, it carries the mean of the source points to the mean of the
    target points. *)
Theorem calculateAffineTransform_centroid
    (sourcePoints targetPoints : list (Point R)) (t : AffineTransform R) :
  length targetPoints = length sourcePoints ->
  calculateAffineTransform sourcePoints targetPoints = Ok t ->
  applyAffineTransform (centroid sourcePoints) t = centroid targetPoints.
Proof.
  intros Hlen. unfold calculateAffineTransform.
  destruct (length sourcePoints <? 3)%nat eqn:Hs; [discriminate|].
  destruct (length targetPoints <? 3)%nat eqn:Ht; [discriminate|].
  cbn [orb]. cbv zeta.
  destruct (@sumPairs_exact sourcePoints targetPoints
              (Sums.mk (num_lit 0) (num_lit 0) (num_lit 0) (num_lit 0)
                 (num_lit 0) (num_lit 0) (num_lit 0) (num_lit 0) (num_lit 0)
                 (num_lit 0) (num_lit 0)) Hlen)
    as (s & -> & HX & HY & HU & HV).
  cbn [bindExc].
  match goal with
  | |- context [num_lt (Math_abs ?e) ?eps] =>
      set (det := e); destruct (num_lt (Math_abs det) eps) eqn:Hdet;
      [discriminate|]
  end.
  assert (Hdet0 : det <> 0).
  { cbn [num_lt num_lit Math_abs ExactReal ExactMath] in Hdet.
    apply Rltb_false in Hdet.
    assert (Heps : 0 < Q2R (1 # 10000000000)).
    { unfold Q2R. cbn [Qnum Qden].
      apply Rmult_lt_0_compat; [|apply Rinv_0_lt_compat]; apply IZR_lt; lia. }
    intros Hz. rewrite Hz, Rabs_R0 in Hdet. lra. }
  intros [= <-].
  cbn [Sums.sumX Sums.sumY Sums.sumU Sums.sumV] in HX, HY, HU, HV.
  rewrite lit_int in HX, HY, HU, HV.
  unfold applyAffineTransform, centroid.
  cbn [AffineTransform.a AffineTransform.b AffineTransform.c AffineTransform.d
       AffineTransform.tx AffineTransform.ty Point.x Point.y].
  rewrite Hlen.
  replace (fold_right Rplus 0 (map Point.x sourcePoints)) with (Sums.sumX s) by lra.
  replace (fold_right Rplus 0 (map Point.y sourcePoints)) with (Sums.sumY s) by lra.
  replace (fold_right Rplus 0 (map Point.x targetPoints)) with (Sums.sumU s) by lra.
  replace (fold_right Rplus 0 (map Point.y targetPoints)) with (Sums.sumV s) by lra.
  cbn [num_add num_sub num_mul num_div num_of_nat ExactReal].
  assert (Hn : INR (length sourcePoints) <> 0).
  { apply Nat.ltb_ge in Hs. apply not_0_INR. lia. }
  set (n := INR (length sourcePoints)) in *.
  f_equal; field; split; assumption.
Qed.

(** The transform made from parameters is a similarity: it scales every
    distance by the scale. *)
Theorem createAffineTransformFromParams_similarity (params : Transform R)
    (p q : Point R) :
  let t := createAffineTransformFromParams params in
  let p' := applyAffineTransform p t in
  let q' := applyAffineTransform q t in
  (Point.x p' - Point.x q') ^ 2 + (Point.y p' - Point.y q') ^ 2
  = Transform.scale params ^ 2
    * ((Point.x p - Point.x q) ^ 2 + (Point.y p - Point.y q) ^ 2).
Proof.
  destruct params as [s r tx ty], p as [px py], q as [qx qy].
  unfold createAffineTransformFromParams, applyAffineTransform.
  cbv zeta. transform_fields.
  cbn [AffineTransform.a AffineTransform.b AffineTransform.c AffineTransform.d
       AffineTransform.tx AffineTransform.ty Point.x Point.y].
  exact_arith.
  set (c := cos _). set (sn := sin _).
  assert (Hcs : sn ^ 2 + c ^ 2 = 1).
  { subst c sn. rewrite <- !Rsqr_pow2. apply sin2_cos2. }
  transitivity (s ^ 2 * ((sn ^ 2 + c ^ 2)
                         * ((px - qx) ^ 2 + (py - qy) ^ 2))); [ring|].
  rewrite Hcs. ring.
Qed.

(** The transform made from parameters turns the other way than the canvas
    does: it places a point where the canvas calls place it for the
    opposite rotation. *)
Theorem createAffineTransformFromParams_turns_back (params : Transform R)
    (p : Point R) :
  applyAffineTransform p (createAffineTransformFromParams params)
  = canvasPoint (num_lit 0) (num_lit 0) (num_lit 0) (num_lit 0)
      (turnedBack params) p.
Proof.
  destruct params as [s r tx ty], p as [px py].
  unfold createAffineTransformFromParams, applyAffineTransform, canvasPoint,
    turnedBack.
  cbv zeta. transform_fields.
  cbn [AffineTransform.a AffineTransform.b AffineTransform.c AffineTransform.d
       AffineTransform.tx AffineTransform.ty Point.x Point.y].
  exact_arith.
  replace (- r * PI / 180) with (- (r * PI / 180)) by lra.
  rewrite cos_neg, sin_neg. f_equal; lra.
Qed.

(** The centre of an area is the middle of both diagonals of its
    corners. *)
Theorem calculateCenter_of_corners (area : Area R) :
  match calculateCorners area with
  | [topLeft; topRight; bottomRight; bottomLeft] =>
      Point.x (calculateCenter area) = (Point.x topLeft + Point.x bottomRight) / 2
      /\ Point.y (calculateCenter area) = (Point.y topLeft + Point.y bottomRight) / 2
      /\ Point.x (calculateCenter area) = (Point.x topRight + Point.x bottomLeft) / 2
      /\ Point.y (calculateCenter area) = (Point.y topRight + Point.y bottomLeft) / 2
  | _ => False
  end.
Proof.
  unfold calculateCorners, calculateCenter. transform_fields. exact_arith.
  repeat split; lra.
Qed.

(** The fit is not the least-squares fit: the unit triangle and itself are
    fitted by a transform that is not the identity, and that carries the
    corner (1, 0) to (2, -1). *)
Lemma calculateAffineTransform_unit_triangle :
  let triangle := [Point.mk 0 0; Point.mk 1 0; Point.mk 0 1] in
  exists t,
    calculateAffineTransform triangle triangle = Ok t
    /\ AffineTransform.a t = 2 /\ AffineTransform.b t = -1
    /\ applyAffineTransform (Point.mk 1 0) t = Point.mk 2 (-1).
Proof.
  cbv zeta. unfold calculateAffineTransform.
  cbn [length Nat.ltb Nat.leb orb sumPairs addPair bindExc
       Sums.sumX Sums.sumY Sums.sumX2 Sums.sumY2 Sums.sumXY Sums.sumU Sums.sumV
       Sums.sumUX Sums.sumUY Sums.sumVX Sums.sumVY Point.x Point.y].
  cbv zeta. rewrite !lit_int. cbn [num_add num_sub num_mul num_div num_of_nat
                                   num_lt num_lit Math_abs ExactReal ExactMath INR].
  match goal with
  | |- context [Rabs ?e] =>
      assert (Ha : Rabs e = 1)
        by (replace e with 1 by lra; apply Rabs_right; lra);
      rewrite Ha
  end.
  assert (Hb : Q2R (1 # 10000000000) < 1).
  { unfold Q2R. cbn [Qnum Qden].
    apply Rmult_lt_reg_r with (IZR 10000000000); [apply IZR_lt; lia|].
    rewrite Rmult_assoc, Rinv_l by (apply not_0_IZR; lia).
    rewrite !Rmult_1_l. apply IZR_lt. lia. }
  rewrite (proj2 (Rltb_false _ _)) by lra.
  eexists. split; [reflexivity|].
  unfold applyAffineTransform.
  cbn [AffineTransform.a AffineTransform.b AffineTransform.c AffineTransform.d
       AffineTransform.tx AffineTransform.ty Point.x Point.y
       num_add num_mul ExactReal].
  repeat split; try (f_equal; field); try field.
Qed.
End AffineExact.

Lemma calculateAffineTransform_centroid_witness :
  let triangle := [Point.mk 0%R 0%R; Point.mk 1%R 0%R; Point.mk 0%R 1%R] in
  exists t,
    calculateAffineTransform triangle triangle = Ok t
    /\ applyAffineTransform (centroid triangle) t = centroid triangle.
Proof.
  intros triangle.
  destruct calculateAffineTransform_unit_triangle as (t & Ht & _).
  exists t. split; [exact Ht|].
  apply (@calculateAffineTransform_centroid triangle triangle t eq_refl Ht).
Defined.

(** ** The export and the canvas *)

Section ExportExact.
Local Open Scope R_scope.

Lemma Rceil_bounds (x : R) : x <= Rceil x < x + 1.
Proof.
  unfold Rceil. rewrite minus_IZR.
  destruct (archimed (- x)) as (Hup & Hlow). lra.
Qed.

Lemma Rabs_cos_Rabs (x : R) : Rabs (cos (Rabs x)) = Rabs (cos x).
Proof.
  unfold Rabs at 2. destruct (Rcase_abs x); [now rewrite cos_neg | reflexivity].
Qed.

Lemma Rabs_sin_Rabs (x : R) : Rabs (sin (Rabs x)) = Rabs (sin x).
Proof.
  unfold Rabs at 2. destruct (Rcase_abs x); [|reflexivity].
  now rewrite sin_neg, Rabs_Ropp.
Qed.

(** A product is within the product of the bounds. *)
Lemma product_within (u m c : R) :
  - m <= u <= m -> - (m * Rabs c) <= u * c <= m * Rabs c.
Proof.
  intros Hu. assert (Hc := Rabs_pos c).
  unfold Rabs in *. destruct (Rcase_abs c); nra.
Qed.

(** The exported picture is never cut: for a scale that is not negative,
    every pixel of the image lands on the export canvas, 50 pixels or more
    from each of its edges. *)
Theorem export_keeps_every_pixel (imgWidth imgHeight : R)
    (transform : Transform R) (p : Point R) :
  0 <= Transform.scale transform ->
  0 <= Point.x p <= imgWidth -> 0 <= Point.y p <= imgHeight ->
  let size := calculateTransformedSize imgWidth imgHeight transform in
  let q := applyTransformToImage imgWidth imgHeight transform p in
  50 <= Point.x q <= fst size - 50 /\ 50 <= Point.y q <= snd size - 50.
Proof.
  destruct transform as [s r tx ty], p as [px py]. transform_fields.
  intros Hs Hx Hy. unfold applyTransformToImage, calculateTransformedSize,
    canvasPoint. cbv zeta. cbn [fst snd]. transform_fields.
  rewrite !lit_int.
  cbn [num_add num_sub num_mul num_div Math_abs Math_ceil Math_cos Math_sin
       Math_PI ExactReal ExactMath].
  rewrite Rabs_cos_Rabs, Rabs_sin_Rabs.
  set (c := cos (r * PI / 180)). set (sn := sin (r * PI / 180)).
  set (rw := imgWidth * s * Rabs c + imgHeight * s * Rabs sn).
  set (rh := imgWidth * s * Rabs sn + imgHeight * s * Rabs c).
  pose proof (Rceil_bounds (rw + Rabs tx * 2 + 100)) as (Hw & _).
  pose proof (Rceil_bounds (rh + Rabs ty * 2 + 100)) as (Hh & _).
  set (width := Rceil _) in *. set (height := Rceil _) in *.
  assert (Hsx : - (s * imgWidth / 2) <= s * (px - imgWidth / 2) <= s * imgWidth / 2)
    by nra.
  assert (Hsy : - (s * imgHeight / 2) <= s * (py - imgHeight / 2) <= s * imgHeight / 2)
    by nra.
  pose proof (product_within c Hsx) as Hxc.
  pose proof (product_within sn Hsx) as Hxs.
  pose proof (product_within c Hsy) as Hyc.
  pose proof (product_within sn Hsy) as Hys.
  assert (Htx : - Rabs tx <= tx <= Rabs tx).
  { unfold Rabs. destruct (Rcase_abs tx); lra. }
  assert (Hty : - Rabs ty <= ty <= Rabs ty).
  { unfold Rabs. destruct (Rcase_abs ty); lra. }
  subst rw rh. repeat split; lra.
Qed.
End ExportExact.

Lemma export_keeps_every_pixel_witness :
  let transform := Transform.mk 2%R 0%R (-30)%R 10%R in
  let size := calculateTransformedSize 640%R 480%R transform in
  let q := applyTransformToImage 640%R 480%R transform (Point.mk 0%R 480%R) in
  (50 <= Point.x q <= fst size - 50 /\ 50 <= Point.y q <= snd size - 50)%R.
Proof.
  apply (@export_keeps_every_pixel 640%R 480%R
           (Transform.mk 2%R 0%R (-30)%R 10%R) (Point.mk 0%R 480%R));
    cbn; lra.
Defined.

Section CanvasExact.
Local Open Scope R_scope.

(** The selection is the rectangle between the point where the button went
    down and the pointer, whichever way the pointer was dragged. *)
Theorem handleMouseMove_spans (drawStart pointer : Point R) :
  let selection := handleMouseMove drawStart pointer in
  0 <= Area.width selection /\ 0 <= Area.height selection
  /\ Area.x selection = Rmin (Point.x drawStart) (Point.x pointer)
  /\ Area.x selection + Area.width selection
     = Rmax (Point.x drawStart) (Point.x pointer)
  /\ Area.y selection = Rmin (Point.y drawStart) (Point.y pointer)
  /\ Area.y selection + Area.height selection
     = Rmax (Point.y drawStart) (Point.y pointer).
Proof.
  destruct drawStart as [sx sy], pointer as [px py].
  unfold handleMouseMove. cbv zeta.
  cbn [Area.x Area.y Area.width Area.height Point.x Point.y].
  rewrite !lit_int. cbn [num_sub num_lt Math_abs ExactReal ExactMath].
  assert (Hside : forall s p,
    0 <= Rabs (p - s)
    /\ (if Rltb (p - s) 0 then p else s) = Rmin s p
    /\ (if Rltb (p - s) 0 then p else s) + Rabs (p - s) = Rmax s p).
  { intros s p. unfold Rltb, Rmin, Rmax, Rabs.
    destruct (Rlt_dec (p - s) 0), (Rle_dec s p), (Rcase_abs (p - s));
      repeat split; lra. }
  destruct (Hside sx px) as (? & ? & ?). destruct (Hside sy py) as (? & ? & ?).
  repeat split; assumption.
Qed.

(** The area taken from a selection is drawn back where the selection
    started: its first corner lands on the first corner of the selection,
    and its opposite corner on the opposite corner of the selection turned
    about the first by the rotation of the image; the two rectangles
    coincide when the image is not rotated. *)
Theorem selection_round_trip (canvasWidth canvasHeight : R)
    (selectedImage : ImageData R) (currentSelection : Area R) :
  Transform.scale (ImageData.transform selectedImage)
  * displayScale canvasWidth canvasHeight (ImageData.width selectedImage)
      (ImageData.height selectedImage) <> 0 ->
  let area := handleMouseUp canvasWidth canvasHeight selectedImage currentSelection in
  let rad :=
    Transform.rotation (ImageData.transform selectedImage) * PI / 180 in
  drawnAt canvasWidth canvasHeight selectedImage
          (Point.mk (Area.x area) (Area.y area))
  = Point.mk (Area.x currentSelection) (Area.y currentSelection)
  /\ drawnAt canvasWidth canvasHeight selectedImage
             (Point.mk (Area.x area + Area.width area)
                       (Area.y area + Area.height area))
     = Point.mk
         (Area.x currentSelection
          + (Area.width currentSelection * cos rad
             - Area.height currentSelection * sin rad))
         (Area.y currentSelection
          + (Area.width currentSelection * sin rad
             + Area.height currentSelection * cos rad))
  /\ (Transform.rotation (ImageData.transform selectedImage) = 0 ->
      drawnAt canvasWidth canvasHeight selectedImage
              (Point.mk (Area.x area + Area.width area)
                        (Area.y area + Area.height area))
      = Point.mk (Area.x currentSelection + Area.width currentSelection)
                 (Area.y currentSelection + Area.height currentSelection)).
Proof.
  destruct selectedImage as [id url w h area0 [s r tx ty]].
  destruct currentSelection as [cx cy cw ch].
  cbn [ImageData.transform ImageData.width ImageData.height Transform.scale
       Transform.rotation].
  intros Hk. cbv zeta.
  unfold drawnAt, handleMouseUp, canvasPoint. cbv zeta.
  cbn [ImageData.transform ImageData.width ImageData.height
       Area.x Area.y Area.width Area.height].
  transform_fields.
  fold (displayScale canvasWidth canvasHeight w h).
  set (ds := displayScale canvasWidth canvasHeight w h) in *.
  rewrite !lit_int.
  cbn [num_add num_sub num_mul num_div num_neg Math_cos Math_sin Math_PI
       ExactReal].
  replace (- r * PI / 180) with (- (r * PI / 180)) by lra.
  rewrite cos_neg, sin_neg.
  set (c := cos (r * PI / 180)). set (sn := sin (r * PI / 180)).
  assert (Hcs : sn * sn + c * c = 1).
  { subst c sn. pose proof (sin2_cos2 (r * PI / 180)) as H.
    unfold Rsqr in H. exact H. }
  assert (Hs0 : s <> 0) by (intros E; apply Hk; rewrite E; ring).
  assert (Hd0 : ds <> 0) by (intros E; apply Hk; rewrite E; ring).
  assert (Hgen :
    {| Point.x := canvasWidth / 2 + tx * ds
         + (s * ds * ((cx - canvasWidth / 2 - tx * ds) / (s * ds) * c
                      - (cy - canvasHeight / 2 - ty * ds) / (s * ds) * - sn
                      + w / 2 + cw / (s * ds) - w / 2) * c
            - s * ds * ((cx - canvasWidth / 2 - tx * ds) / (s * ds) * - sn
                        + (cy - canvasHeight / 2 - ty * ds) / (s * ds) * c
                        + h / 2 + ch / (s * ds) - h / 2) * sn);
       Point.y := canvasHeight / 2 + ty * ds
         + (s * ds * ((cx - canvasWidth / 2 - tx * ds) / (s * ds) * c
                      - (cy - canvasHeight / 2 - ty * ds) / (s * ds) * - sn
                      + w / 2 + cw / (s * ds) - w / 2) * sn
            + s * ds * ((cx - canvasWidth / 2 - tx * ds) / (s * ds) * - sn
                        + (cy - canvasHeight / 2 - ty * ds) / (s * ds) * c
                        + h / 2 + ch / (s * ds) - h / 2) * c) |}
    = {| Point.x := cx + (cw * c - ch * sn);
         Point.y := cy + (cw * sn + ch * c) |}).
  { f_equal.
    - transitivity (cx * (sn * sn + c * c) + (cw * c - ch * sn)
                    + (canvasWidth / 2 + tx * ds) * (1 - (sn * sn + c * c)));
        [field; split; assumption | rewrite Hcs; ring].
    - transitivity (cy * (sn * sn + c * c) + (cw * sn + ch * c)
                    + (canvasHeight / 2 + ty * ds) * (1 - (sn * sn + c * c)));
        [field; split; assumption | rewrite Hcs; ring]. }
  split; [|split].
  - f_equal.
    + transitivity (cx * (sn * sn + c * c)
                    + (canvasWidth / 2 + tx * ds) * (1 - (sn * sn + c * c)));
        [field; split; assumption | rewrite Hcs; ring].
    + transitivity (cy * (sn * sn + c * c)
                    + (canvasHeight / 2 + ty * ds) * (1 - (sn * sn + c * c)));
        [field; split; assumption | rewrite Hcs; ring].
  - exact Hgen.
  - intros Hr. rewrite Hgen. subst c sn. rewrite Hr, degrees_zero, cos_0, sin_0.
    f_equal; ring.
Qed.

(** The rotation typed into the field reaches the image clamped to
    [-180, 180], the other parameters as they were; a text that is empty
    or no number changes nothing. *)
Theorem handleRotationInputChange_clamps (transform : Transform R)
    (parsed : option R) :
  match parsed, handleRotationInputChange transform parsed with
  | None, None => True
  | Some rotation, Some t =>
      -180 <= Transform.rotation t <= 180
      /\ (-180 <= rotation <= 180 -> Transform.rotation t = rotation)
      /\ Transform.scale t = Transform.scale transform
      /\ Transform.translateX t = Transform.translateX transform
      /\ Transform.translateY t = Transform.translateY transform
  | _, _ => False
  end.
Proof.
  destruct parsed as [rotation|]; cbn [handleRotationInputChange]; [|exact I].
  transform_fields. rewrite !lit_int.
  cbn [Math_max Math_min ExactReal ExactMath].
  unfold Rmax, Rmin.
  destruct (Rle_dec 180 rotation); destruct (Rle_dec (-180) _);
    repeat split; lra.
Qed.
End CanvasExact.

Lemma selection_round_trip_witness :
  let image :=
    ImageData.mk "a" "blob:a" 1000%R 800%R None
      (Transform.mk 1%R 0%R 0%R 0%R) in
  let selection := Area.mk 100%R 100%R 50%R 40%R in
  let area := handleMouseUp 800%R 600%R image selection in
  let rad := (0 * PI / 180)%R in
  drawnAt 800%R 600%R image (Point.mk (Area.x area) (Area.y area))
  = Point.mk 100%R 100%R
  /\ drawnAt 800%R 600%R image
       (Point.mk (Area.x area + Area.width area)%R
                 (Area.y area + Area.height area)%R)
     = Point.mk (100 + (50 * cos rad - 40 * sin rad))%R
                (100 + (50 * sin rad + 40 * cos rad))%R
  /\ (0%R = 0%R ->
      drawnAt 800%R 600%R image
        (Point.mk (Area.x area + Area.width area)%R
                  (Area.y area + Area.height area)%R)
      = Point.mk (100 + 50)%R (100 + 40)%R).
Proof.
  apply (@selection_round_trip 800%R 600%R
           (ImageData.mk "a" "blob:a" 1000%R 800%R None
              (Transform.mk 1%R 0%R 0%R 0%R))
           (Area.mk 100%R 100%R 50%R 40%R)).
  cbn [ImageData.transform ImageData.width ImageData.height Transform.scale].
  unfold displayScale. rewrite lit_decimal, lit_one_point_zero.
  cbn [Math_min num_mul num_div ExactReal].
  unfold Rmin.
  destruct (Rle_dec _ _); destruct (Rle_dec _ _); lra.
Defined.


(** ** The state of the application *)

Section AppInvariants.
Context {num : Type} {N : JSNumber num} {I : JSInfinity num}.
Context {Mat Descriptors : Type} (cv : OpenCV num Mat Descriptors).

Lemma asUploaded_static (a b : ImageData num) :
  staticOf a = staticOf b -> asUploaded a = asUploaded b.
Proof.
  unfold staticOf, asUploaded. intros [= -> -> -> -> _]. reflexivity.
Qed.

Lemma map_through {A B C : Type} (f : A -> B) (g : A -> C) (l m : list A) :
  (forall a b, f a = f b -> g a = g b) ->
  map f l = map f m -> map g l = map g m.
Proof.
  intros Hfg. revert m.
  induction l as [|a l IH]; intros [|b m] H; try discriminate; auto.
  cbn [map] in *. injection H as Ha Hl.
  now rewrite (Hfg a b Ha), (IH m Hl).
Qed.

Lemma map_asUploaded_static (l m : list (ImageData num)) :
  map staticOf l = map staticOf m -> map asUploaded l = map asUploaded m.
Proof. apply map_through. intros a b. apply asUploaded_static. Qed.

Lemma map_id_static (l m : list (ImageData num)) :
  map staticOf l = map staticOf m -> map ImageData.id l = map ImageData.id m.
Proof.
  apply map_through. intros a b H. unfold staticOf in H. now injection H.
Qed.

Lemma alignImagesByAreaOnly_static (images : list (ImageData num)) :
  map staticOf (alignImagesByAreaOnly images) = map staticOf images.
Proof.
  unfold alignImagesByAreaOnly. destruct (length images <? 2); auto.
  now rewrite translationPass_static, centerFirst_static.
Qed.

Lemma alignImagesByRotationOnly_static (images : list (ImageData num)) :
  map staticOf (alignImagesByRotationOnly cv images) = map staticOf images.
Proof.
  unfold alignImagesByRotationOnly. destruct (length images <? 2); auto.
  apply rotationPass_static.
Qed.

Lemma handlers_static (images : list (ImageData num)) :
  map staticOf (fst (handleAutoAlign cv images)) = map staticOf images
  /\ map staticOf (fst (handleAlignByArea images)) = map staticOf images
  /\ map staticOf (fst (handleAlignByRotation cv images)) = map staticOf images.
Proof.
  unfold handleAutoAlign, handleAlignByArea, handleAlignByRotation.
  destruct (length images <? 2); [auto|].
  destruct (0 <? length (imagesWithoutArea images)); [auto|].
  destruct (negb (OpenCV.loaded cv)); cbn [fst]; repeat split; auto.
  all: first [ apply alignAllImages_static
             | apply alignImagesByAreaOnly_static
             | apply alignImagesByRotationOnly_static ].
Qed.

(** Replacing the images by images of the same identity keeps the state
    consistent. *)
Lemma setImages_consistent (images : list (ImageData num)) (state : AppState num) :
  map staticOf images = map staticOf (AppState.images state) ->
  consistent state -> consistent (setImages images state).
Proof.
  intros Hs (Ho & Hsel). unfold consistent, setImages.
  cbn [AppState.images AppState.originalImages AppState.selectedImageId].
  split.
  - rewrite Ho. symmetry. now apply map_asUploaded_static.
  - destruct (AppState.selectedImageId state) as [selected|].
    + now rewrite (map_id_static _ _ Hs).
    + rewrite Hsel in Hs. destruct images; [reflexivity | discriminate].
Qed.

Lemma edit_consistent (f : ImageData num -> ImageData num) (state : AppState num) :
  (forall img, staticOf (f img) = staticOf img
               \/ (ImageData.id (f img) = ImageData.id img
                   /\ asUploaded (f img) = asUploaded img)) ->
  consistent state ->
  consistent (AppState.mk (map f (AppState.images state))
                (AppState.originalImages state)
                (AppState.selectedImageId state)).
Proof.
  intros Hf (Ho & Hsel). unfold consistent.
  cbn [AppState.images AppState.originalImages AppState.selectedImageId].
  assert (Hup : forall img, asUploaded (f img) = asUploaded img).
  { intros img. destruct (Hf img) as [H | (_ & H)]; auto.
    now apply asUploaded_static. }
  assert (Hid : forall img, ImageData.id (f img) = ImageData.id img).
  { intros img. destruct (Hf img) as [H | (H & _)]; auto.
    unfold staticOf in H. now injection H. }
  split.
  - rewrite Ho, map_map. apply map_ext. intros img. now rewrite Hup.
  - destruct (AppState.selectedImageId state) as [selected|].
    + rewrite map_map. erewrite map_ext; [exact Hsel|]. intros img. apply Hid.
    + now rewrite Hsel.
Qed.

Lemma filter_asUploaded (keep : string -> bool) (images : list (ImageData num)) :
  filter (fun img => keep (ImageData.id img)) (map asUploaded images)
  = map asUploaded (filter (fun img => keep (ImageData.id img)) images).
Proof.
  induction images as [|img images IH]; cbn; auto.
  destruct (keep (ImageData.id img)); cbn; now rewrite IH.
Qed.

Lemma reachable_consistent (state : AppState num) :
  reachable cv state -> consistent state.
Proof.
  induction 1 as [|state image _ IH Hin|state action _ IH Hallowed].
  - split; reflexivity.
  - destruct IH as (Ho & _). split; [exact Ho|]. cbn. now apply in_map.
  - destruct action as [files|imageId area|imageId transform|imageId|imageId| | | |];
      cbn [perform]; try contradiction.
    + destruct IH as (Ho & Hsel). unfold consistent, handleImageUpload.
      cbn [AppState.images AppState.originalImages AppState.selectedImageId].
      split.
      * rewrite Ho, map_app, map_map. reflexivity.
      * destruct (AppState.selectedImageId state) as [selected|].
        -- destruct (map newImage files); rewrite map_app; apply in_or_app;
             now left.
        -- rewrite Hsel. cbn [app].
           destruct (map newImage files) as [|first rest]; [reflexivity|].
           now left.
    + apply (edit_consistent
               (fun img => if String.eqb (ImageData.id img) imageId
                           then withArea img area else img)); [|exact IH].
      intros img. destruct (String.eqb _ _); [right; split; reflexivity|now left].
    + apply (edit_consistent
               (fun img => if String.eqb (ImageData.id img) imageId
                           then withTransform img transform else img));
        [|exact IH].
      intros img. destruct (String.eqb _ _); now left.
    + destruct IH as (Ho & Hsel). unfold consistent, handleRemoveImage.
      cbn [AppState.images AppState.originalImages AppState.selectedImageId].
      split.
      * rewrite Ho.
        apply (filter_asUploaded (fun id => negb (String.eqb id imageId))).
      * destruct (AppState.selectedImageId state) as [selected|].
        -- destruct (String.eqb_spec selected imageId) as [-> | Hne].
           ++ destruct (filter _ (AppState.images state)); [reflexivity|].
              now left.
           ++ apply in_map_iff in Hsel. destruct Hsel as (img & Hid & Himg).
              apply in_map_iff. exists img. split; [exact Hid|].
              apply filter_In. split; [exact Himg|].
              rewrite Hid. apply negb_true_iff. now apply String.eqb_neq.
        -- now rewrite Hsel.
    + destruct IH as (Ho & Hsel). unfold handleResetImages.
      destruct (Nat.eqb _ 0); [now split|].
      unfold consistent.
      cbn [AppState.images AppState.originalImages AppState.selectedImageId].
      split.
      * rewrite Ho, map_map. reflexivity.
      * destruct (AppState.selectedImageId state) as [selected|].
        -- rewrite Ho, map_map. exact Hsel.
        -- now rewrite Ho, Hsel.
    + apply setImages_consistent; [apply handlers_static | exact IH].
    + apply setImages_consistent; [apply handlers_static | exact IH].
    + apply setImages_consistent; [apply handlers_static | exact IH].
Qed.

(** In every state the application gets into by handlers run one after the
    other, the reset gives back every image as it was uploaded, without area and with the identity
    transform, whatever was selected, typed or aligned since. *)
Theorem reset_restores_uploads (state : AppState num) :
  reachable cv state ->
  AppState.images (handleResetImages state)
  = map asUploaded (AppState.images state)
  /\ AppState.originalImages (handleResetImages state)
     = AppState.originalImages state.
Proof.
  intros Hr. destruct (reachable_consistent Hr) as (Ho & _).
  unfold handleResetImages.
  destruct (Nat.eqb_spec (length (AppState.originalImages state)) 0) as [H0 | _].
  - split; [|reflexivity]. rewrite Ho, length_map in H0.
    destruct (AppState.images state); [reflexivity | discriminate].
  - cbn. now split.
Qed.

(** In every state the application gets into by handlers run one after the
    other, an image is selected exactly when there are images, and the selected [id] is that of one of them. *)
Theorem selection_follows_images (state : AppState num) :
  reachable cv state ->
  match AppState.selectedImageId state with
  | Some selected =>
      exists image, In image (AppState.images state)
                    /\ ImageData.id image = selected
  | None => AppState.images state = []
  end.
Proof.
  intros Hr. destruct (reachable_consistent Hr) as (_ & Hsel).
  destruct (AppState.selectedImageId state) as [selected|]; [|exact Hsel].
  apply in_map_iff in Hsel. destruct Hsel as (image & Hid & Hin). eauto.
Qed.
End AppInvariants.

Lemma sessionState_reachable :
  reachable (N := Float64) offlineCv sessionState.
Proof.
  unfold sessionState.
  repeat (apply reachable_perform; [|exact I]). apply reachable_start.
Qed.

Lemma reset_restores_uploads_witness :
  AppState.images (handleResetImages sessionState)
  = map (asUploaded (N := Float64)) (AppState.images sessionState)
  /\ AppState.originalImages (handleResetImages sessionState)
     = AppState.originalImages sessionState.
Proof.
  apply (@reset_restores_uploads F64.float Float64 Binary64Infinity unit unit
           offlineCv sessionState).
  exact sessionState_reachable.
Defined.

Lemma selection_follows_images_witness :
  exists image, In image (AppState.images sessionState)
                /\ ImageData.id image = "image-1-0"%string.
Proof.
  apply (@selection_follows_images F64.float Float64 Binary64Infinity unit unit
           offlineCv sessionState).
  exact sessionState_reachable.
Defined.


(** ** The order of the uploaded files *)

Section FileNameFacts.
Variable afterSpaces : string -> option string.
Hypothesis afterSpaces_suffix : forall s after,
  afterSpaces s = Some after -> exists spaces, s = (spaces ++ after)%string.

Lemma hasDigit_append (a b : string) :
  hasDigit (a ++ b) = hasDigit a || hasDigit b.
Proof.
  induction a as [|c a IH]; cbn; auto. now rewrite IH, orb_assoc.
Qed.

Lemma startsWithDigit_hasDigit (s : string) :
  startsWithDigit s = true -> hasDigit s = true.
Proof. destruct s as [|c rest]; cbn; [discriminate|]. now intros ->. Qed.

Lemma matchDigits_none (s : string) :
  matchDigits s = None -> hasDigit s = false.
Proof.
  induction s as [|c rest IH]; cbn; auto.
  destruct (isDigit c); [discriminate|]. exact IH.
Qed.

Lemma no_digit_no_match (s : string) :
  hasDigit s = false ->
  matchSeparatorDigits s = None
  /\ matchSpaceDigits afterSpaces s = None
  /\ matchTrailingDigits s = None.
Proof.
  induction s as [|c rest IH]; [now cbn|].
  intros Hno. cbn [hasDigit] in Hno. apply orb_false_iff in Hno.
  destruct Hno as (Hc & Hrest). destruct (IH Hrest) as (H2 & H3 & H4).
  repeat split.
  - cbn [matchSeparatorDigits].
    destruct (startsWithDigit rest) eqn:Hs.
    + apply startsWithDigit_hasDigit in Hs. congruence.
    + now rewrite andb_false_r.
  - cbn [matchSpaceDigits].
    destruct (afterSpaces (String c rest)) as [after|] eqn:Ha; [|exact H3].
    destruct (startsWithDigit after) eqn:Hs; [|exact H3].
    apply startsWithDigit_hasDigit in Hs.
    destruct (afterSpaces_suffix Ha) as (spaces & Heq).
    assert (Hd : hasDigit (String c rest) = true).
    { rewrite Heq, hasDigit_append, Hs. apply orb_true_r. }
    cbn [hasDigit] in Hd. rewrite Hc, Hrest in Hd. discriminate.
  - cbn [matchTrailingDigits allDigits]. now rewrite Hc.
Qed.

Lemma insertByNumber_perm (fileName : string) (sorted : list string) :
  Permutation (insertByNumber afterSpaces fileName sorted) (fileName :: sorted).
Proof.
  induction sorted as [|other rest IH]; cbn; auto.
  destruct (N.leb _ _); auto.
  rewrite IH. apply perm_swap.
Qed.

Lemma insertByNumber_sorted (fileName : string) (sorted : list string) :
  StronglySorted
    (fun a b => (extractNumberFromFileName afterSpaces a
                 <= extractNumberFromFileName afterSpaces b)%N) sorted ->
  StronglySorted
    (fun a b => (extractNumberFromFileName afterSpaces a
                 <= extractNumberFromFileName afterSpaces b)%N)
    (insertByNumber afterSpaces fileName sorted).
Proof.
  induction 1 as [|other rest Hs IH Hall]; cbn.
  - repeat constructor.
  - destruct (N.leb_spec (extractNumberFromFileName afterSpaces fileName)
                         (extractNumberFromFileName afterSpaces other))
      as [Hle | Hgt].
    + constructor; [now constructor|].
      constructor; [exact Hle|].
      rewrite Forall_forall in *. intros x Hx. specialize (Hall x Hx). lia.
    + constructor; [exact IH|].
      rewrite Forall_forall in *. intros x Hx.
      apply (Permutation_in _ (insertByNumber_perm fileName rest)) in Hx.
      destruct Hx as [<- | Hx]; [lia | now apply Hall].
Qed.

Lemma insertByNumber_stable (n : N) (fileName : string) (sorted : list string) :
  StronglySorted
    (fun a b => (extractNumberFromFileName afterSpaces a
                 <= extractNumberFromFileName afterSpaces b)%N) sorted ->
  filter (fun f => N.eqb (extractNumberFromFileName afterSpaces f) n)
         (insertByNumber afterSpaces fileName sorted)
  = filter (fun f => N.eqb (extractNumberFromFileName afterSpaces f) n)
           (fileName :: sorted).
Proof.
  induction 1 as [|other rest Hs IH Hall]; [reflexivity|].
  cbn [insertByNumber].
  destruct (N.leb_spec (extractNumberFromFileName afterSpaces fileName)
                       (extractNumberFromFileName afterSpaces other))
    as [Hle | Hgt]; [reflexivity|].
  cbn [filter] in *. rewrite IH.
  destruct (N.eqb_spec (extractNumberFromFileName afterSpaces other) n) as [Ho | Ho];
    destruct (N.eqb_spec (extractNumberFromFileName afterSpaces fileName) n)
      as [Hf | Hf]; auto.
  lia.
Qed.

Lemma sortByNumber_sorted (fileNames : list string) :
  StronglySorted
    (fun a b => (extractNumberFromFileName afterSpaces a
                 <= extractNumberFromFileName afterSpaces b)%N)
    (sortByNumber afterSpaces fileNames).
Proof.
  induction fileNames as [|f rest IH]; cbn; [constructor|].
  now apply insertByNumber_sorted.
Qed.

(** The files are uploaded in the order of the first number in their names
    (the extension set aside), names without a digit counting as 0 and
    files of one number keeping the order they were chosen in; the three
    further patterns of [extractNumberFromFileName] never decide. *)
Theorem upload_order :
  (forall fileName,
      extractNumberFromFileName afterSpaces fileName
      = match matchDigits (withoutExtension fileName) with
        | Some digits => parseInt digits
        | None => 0%N
        end)
  /\ (forall fileNames,
        Forall (fun f => (extractNumberFromFileName afterSpaces f < 2 ^ 53)%N)
               fileNames ->
        let sorted := sortByNumber afterSpaces fileNames in
        Permutation sorted fileNames
        /\ StronglySorted
             (fun a b => (extractNumberFromFileName afterSpaces a
                          <= extractNumberFromFileName afterSpaces b)%N) sorted
        /\ forall n,
             filter (fun f => N.eqb (extractNumberFromFileName afterSpaces f) n)
                    sorted
             = filter (fun f => N.eqb (extractNumberFromFileName afterSpaces f) n)
                      fileNames).
Proof.
  split.
  - intros fileName. unfold extractNumberFromFileName. cbv zeta.
    destruct (matchDigits (withoutExtension fileName)) eqn:Hm; [reflexivity|].
    apply matchDigits_none in Hm.
    destruct (no_digit_no_match _ Hm) as (-> & -> & ->). reflexivity.
  - intros fileNames _ sorted. subst sorted.
    split; [|split; [apply sortByNumber_sorted|]].
    + induction fileNames as [|f rest IH]; cbn; auto.
      fold (sortByNumber afterSpaces rest).
      rewrite insertByNumber_perm. now constructor.
    + intros n.
      induction fileNames as [|f rest IH]; [reflexivity|].
      cbn [sortByNumber fold_right]. fold (sortByNumber afterSpaces rest).
      rewrite insertByNumber_stable by apply sortByNumber_sorted.
      cbn [filter]. now rewrite IH.
Qed.
End FileNameFacts.

Lemma afterAsciiSpaces_suffix (s after : string) :
  afterAsciiSpaces s = Some after -> exists spaces, s = (spaces ++ after)%string.
Proof.
  assert (Hdrop : forall r, exists spaces, r = (spaces ++ dropAsciiSpaces r)%string).
  { induction r as [|c r (spaces & IH)]; [now exists EmptyString|].
    cbn [dropAsciiSpaces]. destruct (isAsciiSpace c).
    - exists (String c spaces). cbn. now rewrite <- IH.
    - now exists EmptyString. }
  destruct s as [|c rest]; cbn; [discriminate|].
  destruct (isAsciiSpace c); [|discriminate]. intros [= <-].
  destruct (Hdrop rest) as (spaces & Heq).
  exists (String c spaces). cbn. now rewrite <- Heq.
Qed.

Lemma upload_order_witness :
  extractNumberFromFileName afterAsciiSpaces "image_010.jpg" = 10%N
  /\ sortByNumber afterAsciiSpaces ["img10.png"; "img2.png"; "b1.png"; "a1.png"]%string
     = ["b1.png"; "a1.png"; "img2.png"; "img10.png"]%string
  /\ Permutation
       (sortByNumber afterAsciiSpaces
          ["img10.png"; "img2.png"; "b1.png"; "a1.png"]%string)
       ["img10.png"; "img2.png"; "b1.png"; "a1.png"]%string.
Proof.
  destruct (@upload_order afterAsciiSpaces afterAsciiSpaces_suffix)
    as (Hnumber & Horder).
  split; [rewrite Hnumber; reflexivity|]. split; [reflexivity|].
  apply (Horder ["img10.png"; "img2.png"; "b1.png"; "a1.png"]%string).
  repeat constructor.
Defined.


(** ** The archive of the exported pictures *)

Section ExportNames.
Import Ascii.
Local Open Scope string_scope.

Lemma append_assoc (a b c : string) : (a ++ b) ++ c = a ++ b ++ c.
Proof. induction a as [|x a IH]; cbn; [reflexivity | now rewrite IH]. Qed.

Lemma extensionOf_isExtension (name ext : string) :
  extensionOf name = Some ext -> isExtension ext = true.
Proof.
  induction name as [|c rest IH]; [discriminate|].
  cbn [extensionOf]. destruct (isExtension (String c rest)) eqn:He.
  - now intros [= <-].
  - exact IH.
Qed.

Lemma isExtension_extensionOrPng (name : string) :
  isExtension (extensionOrPng name) = true.
Proof.
  unfold extensionOrPng. destruct (extensionOf name) as [ext|] eqn:He.
  - now apply extensionOf_isExtension in He.
  - reflexivity.
Qed.

Lemma noDotOrSlash_before_dot (q rest : string) :
  noDotOrSlash (q ++ String "."%char rest) = false.
Proof.
  induction q as [|c q IH]; cbn; [reflexivity|].
  rewrite IH. apply andb_false_r.
Qed.

(** A name that ends in an extension is split there. *)
Lemma split_at_extension (p ext : string) :
  isExtension ext = true ->
  extensionOf (p ++ ext) = Some ext /\ withoutExtension (p ++ ext) = p.
Proof.
  intros He.
  assert (Hdot : exists rest, ext = String "."%char rest).
  { destruct ext as [|c [|c' rest]]; try discriminate.
    cbn in He. apply andb_true_iff in He. destruct He as (Hc & _).
    apply Ascii.eqb_eq in Hc. subst c. eauto. }
  destruct Hdot as (rest & Hext).
  induction p as [|c p (IH1 & IH2)].
  - cbn [append]. destruct ext as [|c rest']; [discriminate|].
    cbn [extensionOf withoutExtension]. now rewrite He.
  - cbn [append].
    assert (Hno : isExtension (String c (p ++ ext)) = false).
    { cbn [isExtension]. destruct (p ++ ext) as [|c' r] eqn:Hp; [reflexivity|].
      rewrite <- Hp, Hext, noDotOrSlash_before_dot. apply andb_false_r. }
    cbn [extensionOf withoutExtension]. rewrite Hno. now rewrite IH1, IH2.
Qed.

Lemma trailing_digits (q digits : string) :
  allDigits digits = true -> digits <> "" ->
  matchTrailingDigits (q ++ String "_"%char digits) = Some digits.
Proof.
  intros Hall Hne.
  assert (Hcut : forall r, allDigits (r ++ String "_"%char digits) = false).
  { induction r as [|c r IH]; cbn; [reflexivity|].
    rewrite IH. apply andb_false_r. }
  induction q as [|c q IH].
  - pose proof (Hcut "") as Hcut0. cbn [append] in Hcut0.
    cbn [append matchTrailingDigits]. rewrite Hcut0.
    destruct digits as [|d rest]; [congruence|].
    cbn [matchTrailingDigits]. now rewrite Hall.
  - cbn [append matchTrailingDigits].
    pose proof (Hcut (String c q)) as Hcutc. cbn [append] in Hcutc.
    now rewrite Hcutc.
Qed.

Lemma string_of_uint_digits (d : Decimal.uint) :
  allDigits (DecimalString.NilEmpty.string_of_uint d) = true.
Proof. induction d; cbn; auto. Qed.

Lemma numberToString_digits (n : nat) :
  allDigits (numberToString n) = true /\ numberToString n <> "".
Proof.
  split; [apply string_of_uint_digits|].
  unfold numberToString. intros Hnil.
  assert (Hd : Nat.to_uint n = Decimal.Nil).
  { destruct (Nat.to_uint n); cbn in Hnil; try discriminate. reflexivity. }
  pose proof (DecimalNat.Unsigned.of_to n) as Hn. rewrite Hd in Hn.
  cbn in Hn. subst n. discriminate.
Qed.

Lemma numberToString_inj (n m : nat) :
  numberToString n = numberToString m -> n = m.
Proof.
  unfold numberToString. intros H.
  apply DecimalNat.Unsigned.to_uint_inj.
  pose proof (DecimalString.NilEmpty.usu (Nat.to_uint n)) as Hn.
  pose proof (DecimalString.NilEmpty.usu (Nat.to_uint m)) as Hm.
  rewrite H in Hn. rewrite Hn in Hm. now injection Hm.
Qed.

Lemma exportFileName_index (name name' : string) (i j : nat) :
  exportFileName name i = exportFileName name' j -> i = j.
Proof.
  unfold exportFileName. intros H.
  assert (Hshape : forall n k,
    withoutExtension n ++ "_transformed_" ++ numberToString (k + 1)
      ++ extensionOrPng n
    = ((withoutExtension n ++ "_transformed")
       ++ String "_"%char (numberToString (k + 1)))
      ++ extensionOrPng n).
  { intros n k. rewrite !append_assoc. reflexivity. }
  rewrite !Hshape in H.
  apply (f_equal withoutExtension) in H.
  rewrite (proj2 (@split_at_extension _ _ (isExtension_extensionOrPng name))) in H.
  rewrite (proj2 (@split_at_extension _ _ (isExtension_extensionOrPng name'))) in H.
  apply (f_equal matchTrailingDigits) in H.
  destruct (numberToString_digits (i + 1)) as (Hi & Hi').
  destruct (numberToString_digits (j + 1)) as (Hj & Hj').
  rewrite !trailing_digits in H by assumption.
  injection H as H. apply numberToString_inj in H. lia.
Qed.

(** The names of the archive: images at different places get different
    names, whatever their files are called, and each name ends in the
    extension of its original, or in [.png] when that has none. *)
Theorem export_names_distinct (name name' : string) (i j : nat) :
  (exportFileName name i = exportFileName name' j -> i = j)
  /\ extensionOf (exportFileName name i) = Some (extensionOrPng name).
Proof.
  split; [apply exportFileName_index|].
  unfold exportFileName. rewrite <- !append_assoc.
  apply split_at_extension, isExtension_extensionOrPng.
Qed.
End ExportNames.

Section ArchiveEntries.
Import Ascii.
Context {Blob : Type}.

Lemma endsWithSlash_append (p e : string) :
  e <> EmptyString -> endsWithSlash (p ++ e)%string = endsWithSlash e.
Proof.
  intros He. induction p as [|c p IH]; [reflexivity|].
  cbn [append endsWithSlash]. rewrite IH.
  destruct (p ++ e)%string eqn:Hpe; [|reflexivity].
  destruct p; cbn in Hpe; [congruence | discriminate].
Qed.

Lemma endsWithSlash_forced (name : string) :
  endsWithSlash (forceTrailingSlash name) = true.
Proof.
  unfold forceTrailingSlash. destruct (endsWithSlash name) eqn:He; [exact He|].
  now rewrite endsWithSlash_append.
Qed.

Lemma noDotOrSlash_end (s : string) :
  s <> EmptyString -> noDotOrSlash s = true -> endsWithSlash s = false.
Proof.
  induction s as [|c s IH]; [congruence|]. intros _ Hs.
  cbn in Hs. apply andb_true_iff in Hs. destruct Hs as (Hc & Hs).
  apply andb_true_iff in Hc. destruct Hc as (_ & Hc).
  destruct s as [|c' s'].
  - cbn. now apply negb_true_iff in Hc.
  - change (endsWithSlash (String c (String c' s')))
      with (endsWithSlash (String c' s')).
    apply IH; [discriminate | exact Hs].
Qed.

Lemma isExtension_end (ext : string) :
  isExtension ext = true -> ext <> EmptyString /\ endsWithSlash ext = false.
Proof.
  destruct ext as [|c [|c' rest]]; try discriminate. intros He.
  cbn [isExtension] in He. apply andb_true_iff in He. destruct He as (_ & He).
  split; [discriminate|].
  change (endsWithSlash (String c (String c' rest)))
    with (endsWithSlash (String c' rest)).
  apply noDotOrSlash_end; [discriminate | exact He].
Qed.

Lemma exportFileName_end (name : string) (i : nat) :
  endsWithSlash (exportFileName name i) = false.
Proof.
  unfold exportFileName.
  destruct (isExtension_end _ (isExtension_extensionOrPng name)) as (Hne & Hend).
  rewrite <- !append_assoc. now rewrite endsWithSlash_append.
Qed.

Lemma fileEntries_app (a b : list (string * ZipObject Blob)) :
  fileEntries (a ++ b) = fileEntries a ++ fileEntries b.
Proof.
  induction a as [|(name, [data|]) a IH]; cbn; auto. now rewrite IH.
Qed.

Lemma setEntry_new (name : string) (object : ZipObject Blob)
    (files : list (string * ZipObject Blob)) :
  hasEntry name files = false ->
  setEntry name object files = files ++ [(name, object)].
Proof.
  induction files as [|(other, old) rest IH]; cbn; auto.
  intros Hhas. apply orb_false_iff in Hhas. destruct Hhas as (Hne & Hrest).
  rewrite Hne. now rewrite IH.
Qed.

(** Setting a folder leaves the files and keeps the archive tidy. *)
Lemma setEntry_folder (name : string) (files : list (string * ZipObject Blob)) :
  endsWithSlash name = true -> tidy files ->
  tidy (setEntry name ZipDir files)
  /\ fileEntries (setEntry name ZipDir files) = fileEntries files.
Proof.
  intros Hname Htidy.
  induction Htidy as [|(other, old) rest Hentry Hrest (IHt & IHf)]; cbn.
  - split; [|reflexivity]. now repeat constructor.
  - destruct (String.eqb_spec other name) as [-> | Hne].
    + cbn in Hentry. rewrite Hname in Hentry.
      destruct old; [discriminate|]. split; [|reflexivity].
      now constructor.
    + split.
      * now constructor.
      * destruct old; cbn; now rewrite ?IHf.
Qed.

Lemma folderAdd_files (depth : nat) (name : string)
    (files : list (string * ZipObject Blob)) :
  tidy files ->
  tidy (folderAdd depth name files)
  /\ fileEntries (folderAdd depth name files) = fileEntries files.
Proof.
  revert name files.
  induction depth as [|depth IH]; intros name files Htidy; cbn [folderAdd];
    cbv zeta.
  - destruct (hasEntry _ files); [now split|].
    apply setEntry_folder; [apply endsWithSlash_forced | exact Htidy].
  - destruct (hasEntry _ files); [now split|].
    destruct (isEmpty (parentFolder (forceTrailingSlash name))).
    + apply setEntry_folder; [apply endsWithSlash_forced | exact Htidy].
    + destruct (IH (parentFolder (forceTrailingSlash name)) files Htidy)
        as (Ht & Hf).
      destruct (@setEntry_folder _ _ (endsWithSlash_forced name) Ht) as (Ht' & Hf').
      split; [exact Ht'|]. now rewrite Hf'.
Qed.

(** A tidy archive has no entry under a name that is no folder's and no
    file's. *)
Lemma hasEntry_tidy (name : string) (files : list (string * ZipObject Blob)) :
  tidy files -> endsWithSlash name = false ->
  ~ In name (map fst (fileEntries files)) ->
  hasEntry name files = false.
Proof.
  intros Htidy Hname.
  induction Htidy as [|(other, old) rest Hentry Hrest IH]; [reflexivity|].
  intros Hnot. cbn [hasEntry existsb fst].
  destruct (String.eqb_spec other name) as [-> | Hne].
  - exfalso. cbn in Hentry. rewrite Hname in Hentry.
    destruct old; [|discriminate]. apply Hnot. now left.
  - cbn [orb]. apply IH. intros Hin. apply Hnot.
    destruct old; cbn; auto.
Qed.

Lemma fileAdd_files (name : string) (data : Blob)
    (files : list (string * ZipObject Blob)) :
  tidy files -> endsWithSlash name = false ->
  ~ In name (map fst (fileEntries files)) ->
  tidy (fileAdd name data files)
  /\ fileEntries (fileAdd name data files) = fileEntries files ++ [(name, data)].
Proof.
  intros Htidy Hname Hnot. unfold fileAdd. cbv zeta.
  set (files' := if isEmpty (parentFolder name) then files else _).
  assert (Hfiles' : tidy files' /\ fileEntries files' = fileEntries files).
  { subst files'. destruct (isEmpty (parentFolder name)); [now split|].
    now apply folderAdd_files. }
  destruct Hfiles' as (Ht & Hf).
  rewrite setEntry_new.
  - split.
    + apply Forall_app. split; [exact Ht|]. repeat constructor. exact Hname.
    + rewrite fileEntries_app, Hf. reflexivity.
  - apply hasEntry_tidy; auto. now rewrite Hf.
Qed.

Lemma noSlash_append (a b : string) :
  noSlash (a ++ b)%string = noSlash a && noSlash b.
Proof.
  induction a as [|c a IH]; cbn; [reflexivity|].
  rewrite IH. apply andb_assoc.
Qed.

Lemma noSlash_withoutExtension (name : string) :
  noSlash name = true -> noSlash (withoutExtension name) = true.
Proof.
  induction name as [|c name IH]; [reflexivity|].
  cbn [noSlash withoutExtension]. intros H.
  apply andb_true_iff in H. destruct H as (Hc & Hrest).
  destruct (isExtension (String c name)); [reflexivity|].
  cbn [noSlash]. now rewrite Hc, IH.
Qed.

Lemma noSlash_digits (digits : string) :
  allDigits digits = true -> noSlash digits = true.
Proof.
  induction digits as [|c digits IH]; [reflexivity|].
  cbn [allDigits noSlash]. intros H.
  apply andb_true_iff in H. destruct H as (Hc & Hrest).
  rewrite IH by exact Hrest. rewrite andb_true_r.
  apply negb_true_iff. destruct (Ascii.eqb_spec c "/"%char) as [-> | _];
    [discriminate | reflexivity].
Qed.

Lemma noDotOrSlash_noSlash (s : string) :
  noDotOrSlash s = true -> noSlash s = true.
Proof.
  induction s as [|c s IH]; [reflexivity|].
  cbn [noDotOrSlash noSlash]. intros H.
  apply andb_true_iff in H. destruct H as (Hc & Hrest).
  apply andb_true_iff in Hc. destruct Hc as (_ & Hc).
  now rewrite Hc, IH.
Qed.

Lemma noSlash_extension (ext : string) :
  isExtension ext = true -> noSlash ext = true.
Proof.
  destruct ext as [|c [|c' rest]]; try discriminate. intros He.
  cbn [isExtension] in He. apply andb_true_iff in He. destruct He as (Hc & He).
  apply Ascii.eqb_eq in Hc. subst c.
  change (noSlash (String "."%char (String c' rest)))
    with (noSlash (String c' rest)).
  now apply noDotOrSlash_noSlash.
Qed.

Lemma noSlash_exportFileName (name : string) (i : nat) :
  noSlash name = true -> noSlash (exportFileName name i) = true.
Proof.
  intros Hname. unfold exportFileName. rewrite !noSlash_append.
  rewrite (noSlash_withoutExtension _ Hname).
  rewrite (noSlash_digits _ (proj1 (numberToString_digits (i + 1)))).
  rewrite (noSlash_extension _ (isExtension_extensionOrPng name)).
  reflexivity.
Qed.

Lemma noSlash_end (s : string) : noSlash s = true -> endsWithSlash s = false.
Proof.
  induction s as [|c s IH]; [reflexivity|].
  cbn [noSlash]. intros H. apply andb_true_iff in H. destruct H as (Hc & Hs).
  destruct s as [|c' s'].
  - cbn. now apply negb_true_iff in Hc.
  - change (endsWithSlash (String c (String c' s')))
      with (endsWithSlash (String c' s')).
    now apply IH.
Qed.

Lemma noSlash_beforeLastSlash (s : string) :
  noSlash s = true -> beforeLastSlash s = None.
Proof.
  induction s as [|c s IH]; [reflexivity|].
  cbn [noSlash beforeLastSlash]. intros H.
  apply andb_true_iff in H. destruct H as (Hc & Hs).
  rewrite IH by exact Hs. apply negb_true_iff in Hc. now rewrite Hc.
Qed.

(** A name without a slash has no parent folder: the file is all that is
    added. *)
Lemma fileAdd_plain (name : string) (data : Blob)
    (files : list (string * ZipObject Blob)) :
  noSlash name = true ->
  fileAdd name data files = setEntry name (ZipData data) files.
Proof.
  intros Hname. unfold fileAdd, parentFolder. cbv zeta.
  rewrite (noSlash_end _ Hname), (noSlash_beforeLastSlash _ Hname).
  reflexivity.
Qed.
End ArchiveEntries.

Section Archive.
Context {Image Blob : Type}.
Variable fileName : Image -> string.
Variable render : Image -> Exc Blob.

(** The entry of a rendered image. *)
Let entry (r : nat * Image * Blob) : string * Blob :=
  (exportFileName (fileName (snd (fst r))) (fst (fst r)), snd r).

Lemma zipImages_files (images : list Image) (i : nat)
    (done : list (nat * Image * Blob)) (zip : list (string * ZipObject Blob)) :
  tidy zip -> fileEntries zip = map entry done ->
  (forall r, In r done -> fst (fst r) < i) ->
  fileEntries (zipImages fileName render images i zip)
  = map entry (done ++ rendered render images i).
Proof.
  revert i done zip.
  induction images as [|image rest IH]; intros i done zip Htidy Hfiles Hdone.
  - cbn. now rewrite app_nil_r.
  - cbn [zipImages rendered]. destruct (render image) as [blob|].
    + destruct (@fileAdd_files _ (exportFileName (fileName image) i) blob zip
                  Htidy (exportFileName_end _ _)) as (Htidy' & Hfiles').
      { rewrite Hfiles, map_map. intros Hin. apply in_map_iff in Hin.
        destruct Hin as (r & Hname & Hr). apply Hdone in Hr.
        cbn in Hname. apply exportFileName_index in Hname. lia. }
      rewrite (IH (S i) (done ++ [(i, image, blob)])).
      * now rewrite <- app_assoc.
      * exact Htidy'.
      * rewrite Hfiles', Hfiles, map_app. reflexivity.
      * intros r Hr. apply in_app_or in Hr.
        destruct Hr as [Hr | [<- | []]]; [apply Hdone in Hr; lia | cbn; lia].
    + apply IH; auto. intros r Hr. apply Hdone in Hr. lia.
Qed.

Lemma zipImages_plain (images : list Image) (i : nat)
    (done : list (nat * Image * Blob)) :
  Forall (fun image => noSlash (fileName image) = true) images ->
  (forall r, In r done -> fst (fst r) < i) ->
  zipImages fileName render images i
    (map (fun r => (fst (entry r), ZipData (snd (entry r)))) done)
  = map (fun r => (fst (entry r), ZipData (snd (entry r))))
        (done ++ rendered render images i).
Proof.
  intros Hnames. revert i done.
  induction Hnames as [|image rest Hname Hrest IH]; intros i done Hdone.
  - cbn. now rewrite app_nil_r.
  - cbn [zipImages rendered]. destruct (render image) as [blob|].
    + rewrite fileAdd_plain by now apply noSlash_exportFileName.
      rewrite setEntry_new.
      * change [(exportFileName (fileName image) i, ZipData blob)]
          with (map (fun r => (fst (entry r), ZipData (snd (entry r))))
                    [(i, image, blob)]).
        rewrite <- map_app, IH.
        -- now rewrite <- app_assoc.
        -- intros r Hr. apply in_app_or in Hr.
           destruct Hr as [Hr | [<- | []]]; [apply Hdone in Hr; lia | cbn; lia].
      * unfold hasEntry. apply not_true_is_false. intros Hhas.
        apply existsb_exists in Hhas. destruct Hhas as (e & He & Hsame).
        apply in_map_iff in He. destruct He as (r & <- & Hr).
        apply Hdone in Hr. cbn in Hsame. apply String.eqb_eq in Hsame.
        apply exportFileName_index in Hsame. lia.
    + apply IH. intros r Hr. apply Hdone in Hr. lia.
Qed.

End Archive.

Section FolderDepth.
Import Ascii.
Context {Blob : Type}.

Lemma length_dropLast (s : string) :
  s <> EmptyString -> S (String.length (dropLast s)) = String.length s.
Proof.
  induction s as [|c s IH]; [congruence|]. intros _.
  destruct s as [|c' s']; [reflexivity|].
  change (dropLast (String c (String c' s')))
    with (String c (dropLast (String c' s'))).
  cbn [String.length]. f_equal. apply IH. discriminate.
Qed.

Lemma length_beforeLastSlash (s parent : string) :
  beforeLastSlash s = Some parent -> String.length parent < String.length s.
Proof.
  revert parent. induction s as [|c s IH]; intros parent; [discriminate|].
  cbn [beforeLastSlash String.length].
  destruct (beforeLastSlash s) as [p|].
  - intros [= <-]. cbn [String.length]. specialize (IH p eq_refl). lia.
  - destruct (Ascii.eqb c "/"%char); [|discriminate].
    intros [= <-]. cbn. lia.
Qed.

Lemma endsWithSlash_nonempty (s : string) :
  endsWithSlash s = true -> s <> EmptyString.
Proof. destruct s; [discriminate | congruence]. Qed.

(** The parent of a folder name is shorter by two characters or more. *)
Lemma length_parentFolder (name : string) :
  endsWithSlash name = true ->
  isEmpty (parentFolder name) = false ->
  S (S (String.length (parentFolder name))) <= String.length name.
Proof.
  intros Hend. unfold parentFolder. rewrite Hend.
  pose proof (@length_dropLast name (@endsWithSlash_nonempty name Hend)) as Hdrop.
  destruct (beforeLastSlash (dropLast name)) as [parent|] eqn:Hparent;
    [|discriminate].
  intros _. apply length_beforeLastSlash in Hparent. lia.
Qed.

Lemma length_append (a b : string) :
  String.length (a ++ b) = String.length a + String.length b.
Proof. induction a as [|c a IH]; cbn; auto. Qed.

Lemma length_forceTrailingSlash (name : string) :
  String.length (forceTrailingSlash name) <= S (String.length name).
Proof.
  unfold forceTrailingSlash. destruct (endsWithSlash name); [lia|].
  rewrite length_append. cbn. lia.
Qed.

(** The bound on the calls of [folderAdd] is not reached: a larger one
    gives the same archive. *)
Lemma folderAdd_depth (depth : nat) (name : string)
    (files : list (string * ZipObject Blob)) :
  String.length (forceTrailingSlash name) <= S depth ->
  folderAdd (S depth) name files = folderAdd depth name files.
Proof.
  revert name files. induction depth as [|depth IH]; intros name files Hlen.
  - cbn [folderAdd]. cbv zeta.
    destruct (hasEntry _ files); [reflexivity|].
    destruct (isEmpty (parentFolder (forceTrailingSlash name))) eqn:Hparent;
      [reflexivity|].
    apply length_parentFolder in Hparent; [lia | apply endsWithSlash_forced].
  - change (folderAdd (S (S depth)) name files)
      with (let name' := forceTrailingSlash name in
            if hasEntry name' files then files
            else setEntry name' ZipDir
                   (if isEmpty (parentFolder name') then files
                    else folderAdd (S depth) (parentFolder name') files)).
    change (folderAdd (S depth) name files)
      with (let name' := forceTrailingSlash name in
            if hasEntry name' files then files
            else setEntry name' ZipDir
                   (if isEmpty (parentFolder name') then files
                    else folderAdd depth (parentFolder name') files)).
    cbv zeta. destruct (hasEntry _ files); [reflexivity|].
    destruct (isEmpty (parentFolder (forceTrailingSlash name))) eqn:Hparent;
      [reflexivity|].
    rewrite IH; [reflexivity|].
    apply length_parentFolder in Hparent; [|apply endsWithSlash_forced].
    pose proof (length_forceTrailingSlash
                  (parentFolder (forceTrailingSlash name))). lia.
Qed.

Lemma folderAdd_deeper (extra depth : nat) (name : string)
    (files : list (string * ZipObject Blob)) :
  String.length (forceTrailingSlash name) <= S depth ->
  folderAdd (extra + depth) name files = folderAdd depth name files.
Proof.
  intros Hlen. induction extra as [|extra IH]; [reflexivity|].
  cbn [Nat.add]. rewrite folderAdd_depth by lia. exact IH.
Qed.
End FolderDepth.

Section FileDepth.
Context {Blob : Type}.

Lemma length_parentFolder_le (name : string) :
  String.length (parentFolder name) <= String.length name.
Proof.
  unfold parentFolder.
  assert (Hcut : forall path,
            String.length match beforeLastSlash path with
                          | Some parent => parent
                          | None => EmptyString
                          end <= String.length path).
  { intros path. destruct (beforeLastSlash path) as [parent|] eqn:Hparent.
    - apply length_beforeLastSlash in Hparent. lia.
    - cbn. lia. }
  destruct (endsWithSlash name) eqn:Hend; [|apply Hcut].
  pose proof (@length_dropLast name (@endsWithSlash_nonempty name Hend)).
  pose proof (Hcut (dropLast name)). lia.
Qed.

(** [fileAdd] gives [folderAdd] all the depth it can use. *)
Lemma fileAdd_depth (extra : nat) (name : string)
    (files : list (string * ZipObject Blob)) :
  folderAdd (extra + String.length name) (parentFolder name) files
  = folderAdd (String.length name) (parentFolder name) files.
Proof.
  apply folderAdd_deeper.
  pose proof (length_forceTrailingSlash (parentFolder name)).
  pose proof (length_parentFolder_le name). lia.
Qed.
End FileDepth.



(** ** Instances of the error paths *)

(** The second constructor call is the one that succeeds; with an engine
    that refuses all four, the message of the fourth comes out. *)
Lemma extractORBFeatures_fallback_witness :
  extractORBFeatures fourArgumentEngine 7 = Ok (4, 7)
  /\ extractORBFeatures noEngine 7 = Throw "BindingError: nine arguments".
Proof.
  split.
  - rewrite (proj1 (extractORBFeatures_fallback fourArgumentEngine 7)
               1 [1000; 1.2; 8; 31]%Q 4 eq_refl eq_refl); [reflexivity|].
    intros j earlier Hj Hearlier.
    assert (j = 0) as -> by lia. injection Hearlier as <-.
    eexists. reflexivity.
  - apply (proj2 (extractORBFeatures_fallback noEngine 7)); [|reflexivity].
    intros method Hin. cbn in Hin.
    destruct Hin as [<- | [<- | [<- | [<- | []]]]]; eexists; reflexivity.
Defined.

(** Two source points; four source points for three target points. *)
Lemma calculateAffineTransform_refuses_witness :
  calculateAffineTransform (num := R)
    [Point.mk 0%R 0%R; Point.mk 1%R 0%R] [Point.mk 0%R 0%R; Point.mk 1%R 0%R; Point.mk 0%R 1%R]
  = Throw "少なくとも3つの点が必要です"
  /\ calculateAffineTransform (num := R)
       [Point.mk 0%R 0%R; Point.mk 1%R 0%R; Point.mk 0%R 1%R; Point.mk 1%R 1%R]
       [Point.mk 0%R 0%R; Point.mk 1%R 0%R; Point.mk 0%R 1%R]
     = Throw "TypeError: Cannot read properties of undefined (reading 'x')".
Proof.
  split.
  - apply (proj1 (calculateAffineTransform_refuses _ _)). left. cbn. lia.
  - apply (proj2 (calculateAffineTransform_refuses _ _)). cbn. lia.
Defined.

(** One file exported at two places of the list. *)
Lemma export_names_distinct_witness :
  exportFileName "shot.jpg" 0 <> exportFileName "shot.jpg" 1
  /\ extensionOf (exportFileName "shot.jpg" 0) = Some ".jpg"%string.
Proof.
  split.
  - intros Hsame.
    apply (proj1 (export_names_distinct "shot.jpg" "shot.jpg" 0 1)) in Hsame.
    discriminate.
  - exact (proj2 (export_names_distinct "shot.jpg" "shot.jpg" 0 1)).
Defined.
